(** * career_manager: the recommendation pipeline, resume extraction and
      resume upload, embedded from the TypeScript sources

    Sources embedded here:
    - [lib/azure-recommendations.ts]  (defaults, response repair and parse)
    - [app/api/recommendations/route.ts]  (the POST handler)
    - [lib/recommendation-service.ts]  (getRecommendations, generateRecommendations)
    - [lib/resume-extractor.ts]  (extractResumeText)
    - [components/discovery/resume-upload.tsx]  (handleFileChange, uploadFile)

    JavaScript strings are sequences of UTF-16 code units; they are modelled
    as [list N].  External services (Supabase tables and storage, the Mistral
    OCR endpoint, the Azure completion endpoint) are modelled by an
    environment record of answers, a database state and a trace of the calls
    made. *)

From Stdlib Require Import NArith String Ascii.
From stdpp Require Import base list option sorting gmap.

Local Open Scope N_scope.
Local Set Warnings "-register-all".

(** ** JavaScript strings *)

Module JS.

Definition jsstring := list N.

(** A source literal made of ASCII characters. *)
Fixpoint u16 (s : string) : jsstring :=
  match s with
  | EmptyString => []
  | String a s' => N_of_ascii a :: u16 s'
  end.

Definition ch (a : ascii) : N := N_of_ascii a.

(** The double quote, and a source literal in which the apostrophe stands
    for the double quote. *)
Definition QUOTE : N := 34.

Definition js (s : string) : jsstring :=
  map (fun c => if c =? ch "'" then QUOTE else c) (u16 s).

(** The line feed of the source's escape [\n]. *)
Definition LF : N := 10.

(** [!s] for a string: only the empty string is falsy. *)
Definition str_truthy (s : jsstring) : bool :=
  match s with [] => false | _ => true end.

(** [!x] for a value that is a string, [null] or [undefined]. *)
Definition opt_truthy (o : option jsstring) : bool :=
  match o with Some s => str_truthy s | None => false end.

(** ECMAScript WhiteSpace and LineTerminator code units: what
    [String.prototype.trim] strips and what [\s] matches. *)
Definition is_space (c : N) : bool :=
  (c =? 9) || (c =? 10) || (c =? 11) || (c =? 12) || (c =? 13) || (c =? 32)
  || (c =? 160) || (c =? 5760) || ((8192 <=? c) && (c <=? 8202))
  || (c =? 8232) || (c =? 8233) || (c =? 8239) || (c =? 8287)
  || (c =? 12288) || (c =? 65279).

Fixpoint trimStart (s : jsstring) : jsstring :=
  match s with
  | c :: s' => if is_space c then trimStart s' else s
  | [] => []
  end.

Definition trimEnd (s : jsstring) : jsstring := rev (trimStart (rev s)).

Definition trim (s : jsstring) : jsstring := trimEnd (trimStart s).

Fixpoint startsWith (s p : jsstring) {struct p} : bool :=
  match p, s with
  | [], _ => true
  | a :: p', b :: s' => (a =? b) && startsWith s' p'
  | _ :: _, [] => false
  end.

(** [s.includes(p)]: [p] occurs somewhere in [s]. *)
Fixpoint includes (s p : jsstring) : bool :=
  startsWith s p ||
  match s with
  | _ :: s' => includes s' p
  | [] => false
  end.

(** [a.split(sep).pop()] for a one-unit separator: the text after the last
    separator, or the whole string when there is none. *)
Fixpoint split_pop (sep : N) (s : jsstring) : jsstring :=
  match s with
  | [] => []
  | c :: s' =>
      if existsb (N.eqb sep) s' then split_pop sep s'
      else if c =? sep then s' else s
  end.

(** ** Regular expressions

    The three regular expressions of the sources are sequences of literal
    code units, greedy stars over a character class, and the end anchor.
    The matcher is the backtracking matcher of ECMAScript: a star first
    takes as many code units as it can and gives them back one by one while
    the rest of the pattern fails. *)

Inductive atom : Type :=
| RChar (c : N)
| RStar (p : N -> bool)
| REnd.

Definition regex := list atom.

Definition any_unit (_ : N) : bool := true.

Fixpoint star_match (p : N -> bool) (k : jsstring -> option jsstring)
    (s : jsstring) : option jsstring :=
  match s with
  | c :: s' =>
      if p c then
        match star_match p k s' with
        | Some r => Some r
        | None => k s
        end
      else k s
  | [] => k s
  end.

(** [match_here r s] is the text left after the match of [r] at the start of
    [s], when there is one. *)
Fixpoint match_here (r : regex) (s : jsstring) : option jsstring :=
  match r with
  | [] => Some s
  | RChar c :: r' =>
      match s with
      | c' :: s' => if c =? c' then match_here r' s' else None
      | [] => None
      end
  | RStar p :: r' => star_match p (match_here r') s
  | REnd :: r' =>
      match s with
      | [] => match_here r' []
      | _ :: _ => None
      end
  end.

(** The leftmost match: [(before, matched, after)]. *)
Fixpoint exec_from (r : regex) (pre_rev s : jsstring)
    : option (jsstring * jsstring * jsstring) :=
  match match_here r s with
  | Some rest => Some (rev pre_rev, take (length s - length rest) s, rest)
  | None =>
      match s with
      | c :: s' => exec_from r (c :: pre_rev) s'
      | [] => None
      end
  end.

Definition exec (r : regex) (s : jsstring) := exec_from r [] s.

(** [s.match(r)] without the g flag: the matched text. *)
Definition str_match (r : regex) (s : jsstring) : option jsstring :=
  match exec r s with
  | Some (_, m, _) => Some m
  | None => None
  end.

(** [s.replace(r, empty)]: the first match is removed. *)
Definition replace_empty (r : regex) (s : jsstring) : jsstring :=
  match exec r s with
  | Some (pre, _, post) => pre ++ post
  | None => s
  end.

Definition lits (s : jsstring) : regex := map RChar s.

(** ** JSON values and [JSON.parse]

    An object keeps its members in source order; a repeated key is looked up
    at its last occurrence, as [JSON.parse] lets the later member win.  A
    number keeps the text of its literal. *)

Inductive JsValue : Type :=
| JNull
| JBool (b : bool)
| JNum (lit : jsstring)
| JStr (s : jsstring)
| JArr (items : list JsValue)
| JObj (members : list (jsstring * JsValue)).

Definition is_digit (c : N) : bool := (48 <=? c) && (c <=? 57).

Fixpoint span (p : N -> bool) (s : jsstring) : jsstring * jsstring :=
  match s with
  | c :: s' =>
      if p c then let '(a, b) := span p s' in (c :: a, b) else ([], s)
  | [] => ([], [])
  end.

(** JSON white space: tab, line feed, carriage return, space. *)
Definition is_json_ws (c : N) : bool :=
  (c =? 9) || (c =? 10) || (c =? 13) || (c =? 32).

Fixpoint skip_ws (s : jsstring) : jsstring :=
  match s with
  | c :: s' => if is_json_ws c then skip_ws s' else s
  | [] => []
  end.

Definition hex_val (c : N) : option N :=
  if is_digit c then Some (c - 48)
  else if (97 <=? c) && (c <=? 102) then Some (c - 87)
  else if (65 <=? c) && (c <=? 70) then Some (c - 55)
  else None.

Definition hex4 (a b c d : N) : option N :=
  match hex_val a, hex_val b, hex_val c, hex_val d with
  | Some x, Some y, Some z, Some w => Some (((x * 16 + y) * 16 + z) * 16 + w)
  | _, _, _, _ => None
  end.

Definition unescape (c : N) : option N :=
  if c =? QUOTE then Some (QUOTE)
  else if c =? ch "\" then Some (ch "\")
  else if c =? ch "/" then Some (ch "/")
  else if c =? ch "b" then Some 8
  else if c =? ch "f" then Some 12
  else if c =? ch "n" then Some 10
  else if c =? ch "r" then Some 13
  else if c =? ch "t" then Some 9
  else None.

(** The body of a string literal, after its opening quote. *)
Fixpoint parse_string (s acc_rev : jsstring) : option (jsstring * jsstring) :=
  match s with
  | [] => None
  | c :: t =>
      if c =? QUOTE then Some (rev acc_rev, t)
      else if c =? ch "\" then
        match t with
        | e :: t' =>
            if e =? ch "u" then
              match t' with
              | h1 :: h2 :: h3 :: h4 :: t'' =>
                  match hex4 h1 h2 h3 h4 with
                  | Some n => parse_string t'' (n :: acc_rev)
                  | None => None
                  end
              | _ => None
              end
            else
              match unescape e with
              | Some x => parse_string t' (x :: acc_rev)
              | None => None
              end
        | [] => None
        end
      else if c <? 32 then None
      else parse_string t (c :: acc_rev)
  end.

(** A number literal: an optional minus, then 0 or a digit string without
    leading zero, then an optional fraction and an optional exponent. *)
Definition parse_number (s : jsstring) : option (jsstring * jsstring) :=
  let '(sign, s1) :=
    match s with
    | c :: t => if c =? ch "-" then ([c], t) else ([], s)
    | [] => ([], s)
    end in
  let '(int, s2) := span is_digit s1 in
  match int with
  | [] => None
  | d :: ds =>
      if (d =? ch "0") && str_truthy ds then None
      else
        let frac :=
          match s2 with
          | c :: t =>
              if c =? ch "." then
                let '(fr, s3) := span is_digit t in
                if str_truthy fr then Some (c :: fr, s3) else None
              else Some ([], s2)
          | [] => Some ([], s2)
          end in
        match frac with
        | None => None
        | Some (fr, s3) =>
            match s3 with
            | c :: t =>
                if (c =? ch "e") || (c =? ch "E") then
                  let '(sg, t1) :=
                    match t with
                    | g :: t' =>
                        if (g =? ch "+") || (g =? ch "-") then ([g], t')
                        else ([], t)
                    | [] => ([], t)
                    end in
                  let '(ex, s4) := span is_digit t1 in
                  if str_truthy ex
                  then Some (sign ++ int ++ fr ++ c :: sg ++ ex, s4)
                  else None
                else Some (sign ++ int ++ fr, s3)
            | [] => Some (sign ++ int ++ fr, s3)
            end
        end
  end.

Definition expect (lit : jsstring) (v : JsValue) (s : jsstring)
    : option (JsValue * jsstring) :=
  if startsWith s lit then Some (v, drop (length lit) s) else None.

(** One step of the recursive descent, with the parsers of the nested
    values as arguments. *)
Definition value_step
    (elems : jsstring -> list JsValue -> option (JsValue * jsstring))
    (membs : jsstring -> list (jsstring * JsValue)
             -> option (JsValue * jsstring))
    (s : jsstring) : option (JsValue * jsstring) :=
  match skip_ws s with
  | [] => None
  | c :: t =>
      if c =? ch "[" then
        match skip_ws t with
        | c' :: t' =>
            if c' =? ch "]" then Some (JArr [], t') else elems t []
        | [] => None
        end
      else if c =? ch "{" then
        match skip_ws t with
        | c' :: t' =>
            if c' =? ch "}" then Some (JObj [], t') else membs t []
        | [] => None
        end
      else if c =? QUOTE then
        match parse_string t [] with
        | Some (str, r) => Some (JStr str, r)
        | None => None
        end
      else if c =? ch "t" then expect (u16 "true") (JBool true) (c :: t)
      else if c =? ch "f" then expect (u16 "false") (JBool false) (c :: t)
      else if c =? ch "n" then expect (u16 "null") JNull (c :: t)
      else
        match parse_number (c :: t) with
        | Some (lit, r) => Some (JNum lit, r)
        | None => None
        end
  end.

(** The elements of an array after the first bracket or a comma. *)
Definition elements_step
    (value : jsstring -> option (JsValue * jsstring))
    (elems : jsstring -> list JsValue -> option (JsValue * jsstring))
    (s : jsstring) (acc_rev : list JsValue) : option (JsValue * jsstring) :=
  match value s with
  | Some (v, r) =>
      match skip_ws r with
      | c :: r' =>
          if c =? ch "," then elems r' (v :: acc_rev)
          else if c =? ch "]" then Some (JArr (rev (v :: acc_rev)), r')
          else None
      | [] => None
      end
  | None => None
  end.

(** The members of an object after the first brace or a comma. *)
Definition members_step
    (value : jsstring -> option (JsValue * jsstring))
    (membs : jsstring -> list (jsstring * JsValue)
             -> option (JsValue * jsstring))
    (s : jsstring) (acc_rev : list (jsstring * JsValue))
    : option (JsValue * jsstring) :=
  match skip_ws s with
  | q :: t =>
      if q =? QUOTE then
        match parse_string t [] with
        | Some (key, r) =>
            match skip_ws r with
            | c :: r1 =>
                if c =? ch ":" then
                  match value r1 with
                  | Some (v, r2) =>
                      match skip_ws r2 with
                      | d :: r3 =>
                          if d =? ch "," then membs r3 ((key, v) :: acc_rev)
                          else if d =? ch "}" then
                            Some (JObj (rev ((key, v) :: acc_rev)), r3)
                          else None
                      | [] => None
                      end
                  | None => None
                  end
                else None
            | [] => None
            end
        | None => None
        end
      else None
  | [] => None
  end.

(** The recursion budget [fuel] bounds the depth of the calls; see
    [JSON_parse] for the budget that is given. *)
Fixpoint parse_value (fuel : nat) (s : jsstring)
    : option (JsValue * jsstring) :=
  match fuel with
  | O => None
  | S n => value_step (parse_elements n) (parse_members n) s
  end
with parse_elements (fuel : nat) (s : jsstring) (acc_rev : list JsValue)
    : option (JsValue * jsstring) :=
  match fuel with
  | O => None
  | S n => elements_step (parse_value n) (parse_elements n) s acc_rev
  end
with parse_members (fuel : nat) (s : jsstring)
    (acc_rev : list (jsstring * JsValue)) : option (JsValue * jsstring) :=
  match fuel with
  | O => None
  | S n => members_step (parse_value n) (parse_members n) s acc_rev
  end.

(** [JSON.parse]: [None] stands for the SyntaxError it throws.  The budget
    is twice the length of the text and two more; a larger one gives the
    same result ([JSON_parse_budget]). *)
Definition JSON_parse (s : jsstring) : option JsValue :=
  match parse_value (2 * length s + 2) s with
  | Some (v, r) => match skip_ws r with [] => Some v | _ :: _ => None end
  | None => None
  end.

(** [Array.isArray] and [typeof x === 'object'] on parsed values.  As in
    JavaScript, [typeof null] is ['object']. *)
Definition isArray (v : JsValue) : bool :=
  match v with JArr _ => true | _ => false end.

Definition typeof_object (v : JsValue) : bool :=
  match v with JNull | JArr _ | JObj _ => true | _ => false end.

(** The last member bound to [key]. *)
Fixpoint lookup_member (key : jsstring) (ms : list (jsstring * JsValue))
    : option JsValue :=
  match ms with
  | [] => None
  | (k, v) :: ms' =>
      match lookup_member key ms' with
      | Some v' => Some v'
      | None => if bool_decide (k = key) then Some v else None
      end
  end.

(** The integer that a string of decimal digits denotes. *)
Definition digits_value (ds : jsstring) : N :=
  fold_left (fun acc c => 10 * acc + (c - 48)) ds 0.

(** The exponent part of a number literal, [e] or [E] included: its sign
    and its magnitude. *)
Definition exponent_of (expo : jsstring) : bool * N :=
  match expo with
  | _ :: c :: ds =>
      if c =? ch "-" then (true, digits_value ds)
      else if c =? ch "+" then (false, digits_value ds)
      else (false, digits_value (c :: ds))
  | _ => (false, 0)
  end.

(** A number is falsy when it is [0] or [-0].  The number of a literal is
    the double nearest to its decimal value [m * 10 ^ up / 10 ^ down], where
    [m] is the integer that the digits of the mantissa spell: it is zero
    when [m] is, and also when the value is at most [2 ^ -1075], half the
    least positive double, which rounds to zero (ties go to the even
    mantissa). *)
Definition num_truthy (lit : jsstring) : bool :=
  let '(mant, expo) :=
    span (fun c => negb ((c =? ch "e") || (c =? ch "E"))) lit in
  let '(int, frac) := span (fun c => negb (c =? ch ".")) mant in
  let m := digits_value (List.filter is_digit mant) in
  let '(negative, k) := exponent_of expo in
  let up := if negative then 0 else k in
  let down := (if negative then k else 0)
              + N.of_nat (length (List.filter is_digit frac)) in
  if m =? 0 then false
  else if down <=? up then true
  else 10 ^ (down - up) <? m * 2 ^ 1075.

(** [!!v]. *)
Definition truthy (v : JsValue) : bool :=
  match v with
  | JNull => false
  | JBool b => b
  | JNum lit => num_truthy lit
  | JStr s => str_truthy s
  | JArr _ | JObj _ => true
  end.

End JS.

Import JS.

(** ** lib/azure-recommendations.ts: the defaults and the response parser *)

Module Recommendations.

(** A [RoleRecommendation] object literal. *)
Definition recommendation (title desc prof pers : string) : JsValue :=
  JObj [ (u16 "role_title", JStr (u16 title));
         (u16 "description", JStr (u16 desc));
         (u16 "why_it_fits_professionally", JStr (u16 prof));
         (u16 "why_it_fits_personally", JStr (u16 pers)) ].

Definition defaultRecommendations : list JsValue :=
  [ recommendation
      "Software Developer"
      "Software developers create applications and systems that run on computers and other devices. They design, code, test, and maintain software solutions for various problems and needs."
      "Your technical skills and problem-solving abilities would make you a strong candidate for software development roles. Your experience with analytical thinking aligns well with the core competencies needed."
      "Your interest in creating solutions and solving complex problems makes software development a fulfilling career path that matches your personal interests.";
    recommendation
      "Data Analyst"
      "Data analysts examine datasets to identify trends and draw conclusions. They present findings to help organizations make better business decisions."
      "Your analytical thinking skills and attention to detail would serve you well as a data analyst. This role leverages your abilities to find patterns and insights in complex information."
      "Your curiosity and interest in uncovering insights from information makes data analysis a personally satisfying career that aligns with your values.";
    recommendation
      "Product Manager"
      "Product managers oversee the development of products from conception to launch. They define product strategy, gather requirements, and coordinate with different teams to ensure successful delivery."
      "Your combination of technical understanding and strategic planning abilities makes product management a good professional fit. This role utilizes both your analytical and communication skills."
      "Your interest in both the business and technical aspects of products, along with your desire to create meaningful solutions, aligns well with product management." ].

(** The four regular expressions of the parser, as written in both
    [generateRoleRecommendations] and the POST handler. *)
Definition fence_json_re : regex := lits (u16 "```json") ++ [RChar LF].
Definition fence_re : regex := lits (u16 "```") ++ [RChar LF].
Definition fence_end_re : regex := RChar LF :: lits (u16 "```") ++ [REnd].
Definition array_re : regex :=
  [ RChar (ch "["); RStar is_space; RChar (ch "{"); RStar any_unit;
    RChar (ch "}"); RStar is_space; RChar (ch "]") ].

(** "Sometimes the AI adds markdown code blocks, remove them". *)
Definition strip_fences (s : jsstring) : jsstring :=
  if startsWith s (u16 "```json") then
    replace_empty fence_end_re (replace_empty fence_json_re s)
  else if startsWith s (u16 "```") then
    replace_empty fence_end_re (replace_empty fence_re s)
  else s.

(** "Try to extract just the JSON array part". *)
Definition extract_array (s : jsstring) : jsstring :=
  match str_match array_re s with
  | Some m => m
  | None => s
  end.

(** The text handed to [JSON.parse]. *)
Definition repair (raw : jsstring) : jsstring :=
  extract_array (strip_fences (trim raw)).

Inductive parse_result : Type :=
| Parsed (recs : list JsValue)
| ParseError (raw : jsstring).

(** The body of the parsing [try] block up to "Ensure it's an array"; an
    exception thrown there ([JSON.parse]'s SyntaxError or the explicit
    Error) is [ParseError], whose argument is the response content that the
    [catch] block logs. *)
Definition parse (raw : jsstring) : parse_result :=
  match JSON_parse (repair raw) with
  | None => ParseError raw
  | Some v =>
      match v with
      | JArr items => Parsed items
      | _ => if typeof_object v then Parsed [v] else ParseError raw
      end
  end.

End Recommendations.

Import Recommendations.

(** ** The world outside the program

    Every call to an external service is recorded in a trace, in the order
    the calls are made (writing to the console is not recorded).  The answers of the services are given by an
    environment; each answer may depend on the trace so far, so that the
    n-th call of a kind can be answered differently from the first. *)

Module World.

Record JsError : Type := { err_message : jsstring; err_is_Error : bool }.

Definition Error (msg : string) : JsError :=
  {| err_message := u16 msg; err_is_Error := true |}.

Definition TypeError (msg : string) : JsError := Error msg.

(** A row of the [role_recommendations] table. *)
Record RecRow : Type := {
  row_user_id : jsstring;
  row_created_at : N;
  row_role_title : JsValue;
  row_description : JsValue;
  row_why_it_fits_professionally : JsValue;
  row_why_it_fits_personally : JsValue
}.

(** The columns of the [profiles] table that the sources read and write. *)
Record Profile : Type := {
  discovery_data : JsValue;
  resume_link : option jsstring;
  resume_text : option jsstring
}.

Record Db : Type := {
  role_recommendations : list RecRow;
  profiles : gmap jsstring Profile
}.

Record File : Type := {
  file_name : jsstring;
  file_size : N;
  file_type : jsstring
}.

(** What the user message is built from: the three values given to
    [JSON.stringify] ([None] is [undefined]) and the resume text; and the
    [max_tokens] of the request. *)
Record Prompt : Type := {
  prompt_skills : option JsValue;
  prompt_interests : option JsValue;
  prompt_values : option JsValue;
  prompt_resume_text : jsstring;
  prompt_max_tokens : N
}.

(** The object passed to [insert]; [None] is an [undefined] member. *)
Record InsertPayload : Type := {
  ins_user_id : jsstring;
  ins_role_title : option JsValue;
  ins_description : option JsValue;
  ins_why_it_fits_professionally : option JsValue;
  ins_why_it_fits_personally : option JsValue
}.

Inductive Event : Type :=
| EvProfileSelect (userId : jsstring) (columns : jsstring)
| EvProfileUpdateText (userId : jsstring) (text : jsstring)
| EvProfileUpdateLink (userId : jsstring) (url : jsstring)
| EvRecsSelect (userId : jsstring)
| EvInsert (payload : InsertPayload)
| EvOcr (documentUrl apiKey : jsstring)
| EvCompletion (prompt : Prompt)
| EvApiFetch (userId : option jsstring) (resumeUrl : option jsstring)
| EvUploadFile (path : jsstring) (file : File)
| EvUploadPlaceholder (path : jsstring)
| EvRemove (path : jsstring)
| EvSignedUrl (path : jsstring) (expiresIn : N)
| EvToast (title : jsstring)
| EvTrack (name : jsstring)
| EvResumeProcessed (url : jsstring).

Definition Trace := list Event.

(** Answers of the storage service: a result object without or with an
    [error], or a rejected promise. *)
Inductive StorageAnswer : Type :=
| StorageOk
| StorageError (e : JsError)
| StorageThrows (e : JsError).

Inductive SignedAnswer : Type :=
| SignedOk (signedUrl : jsstring)
| SignedError (e : JsError).

Record Page : Type := { markdown : jsstring }.

(** Answers of the OCR endpoint: [fetch] rejects; a response that is not
    [ok], with the [message] of its body and its [statusText]; an [ok]
    response with the [pages] of its body, when it has any. *)
Inductive OcrAnswer : Type :=
| OcrRejects (e : JsError)
| OcrNotOk (message : option jsstring) (statusText : jsstring)
| OcrOk (pages : option (list Page)).

(** Answers of the completion endpoint: the call rejects; no [body]; a body
    whose [choices[0].message] cannot be read; a body with the [content] of
    the first choice, which may be [null]. *)
Inductive CompletionAnswer : Type :=
| CompletionRejects (e : JsError)
| CompletionNoBody
| CompletionNoChoices
| CompletionContent (content : option jsstring).

Record Env : Type := {
  env_mistralApiKey : option jsstring;
  env_profile_select_error : Trace -> jsstring -> bool;
  env_recs_select_error : Trace -> jsstring -> bool;
  env_insert_error : Trace -> InsertPayload -> bool;
  env_now : Trace -> N;
  env_ocr : Trace -> jsstring -> OcrAnswer;
  env_completion : Trace -> Prompt -> CompletionAnswer;
  env_api_fetch_rejects : Trace -> bool;
  env_upload_file : Trace -> jsstring -> StorageAnswer;
  env_upload_placeholder : Trace -> jsstring -> StorageAnswer;
  env_remove : Trace -> jsstring -> StorageAnswer;
  env_signed_url : Trace -> jsstring -> SignedAnswer;
  env_profile_update_error : Trace -> jsstring -> bool
}.

Inductive UploadStatus : Type := Idle | Uploading | Success | Failed.

(** The React state of the [ResumeUpload] component. *)
Record Ui : Type := {
  selectedFile : option File;
  uploadStatus : UploadStatus;
  uploadError : option jsstring
}.

Record State : Type := {
  db : Db;
  ui : Ui;
  trace : Trace
}.

(** *** A monad of state and exceptions

    [Throw] is a JavaScript exception (or a rejected promise under
    [await]); [OutOfFuel] is the model running out of recursion budget and
    is never caught. *)

Inductive Outcome (A : Type) : Type :=
| Ret (a : A)
| Throw (e : JsError)
| OutOfFuel.

Arguments Ret {A} a.
Arguments Throw {A} e.
Arguments OutOfFuel {A}.

Definition M (A : Type) : Type := State -> Outcome A * State.

Definition ret {A} (a : A) : M A := fun st => (Ret a, st).

Definition throw {A} (e : JsError) : M A := fun st => (Throw e, st).

Definition out_of_fuel {A} : M A := fun st => (OutOfFuel, st).

Definition bind {A B} (m : M A) (f : A -> M B) : M B :=
  fun st =>
    match m st with
    | (Ret a, st') => f a st'
    | (Throw e, st') => (Throw e, st')
    | (OutOfFuel, st') => (OutOfFuel, st')
    end.

(** [try { m } catch (e) { h e }]. *)
Definition try_catch {A} (m : M A) (h : JsError -> M A) : M A :=
  fun st =>
    match m st with
    | (Throw e, st') => h e st'
    | r => r
    end.

#[global] Instance M_ret : MRet M := @ret.
#[global] Instance M_bind : MBind M := fun A B f m => bind m f.

Definition get_trace : M Trace := fun st => (Ret (trace st), st).

Definition get_db : M Db := fun st => (Ret (db st), st).

Definition emit (e : Event) : M unit :=
  fun st => (Ret tt, {| db := db st; ui := ui st; trace := trace st ++ [e] |}).

Definition set_db (d : Db) : M unit :=
  fun st => (Ret tt, {| db := d; ui := ui st; trace := trace st |}).

Definition modify_ui (f : Ui -> Ui) : M unit :=
  fun st => (Ret tt, {| db := db st; ui := f (ui st); trace := trace st |}).

(** The events a run added to the trace. *)
Definition new_events (before after : State) : Trace :=
  drop (length (trace before)) (trace after).

Definition is_completion (e : Event) : bool :=
  match e with EvCompletion _ => true | _ => false end.

Definition is_insert (e : Event) : bool :=
  match e with EvInsert _ => true | _ => false end.

Definition is_upload_file (e : Event) : bool :=
  match e with EvUploadFile _ _ => true | _ => false end.

Definition is_upload_placeholder (e : Event) : bool :=
  match e with EvUploadPlaceholder _ => true | _ => false end.

Fixpoint count (p : Event -> bool) (tr : Trace) : nat :=
  match tr with
  | [] => O
  | e :: tr' => if p e then S (count p tr') else count p tr'
  end.

(** *** The Supabase tables *)

(** [profiles.select(columns).eq("id", userId).single()]: the row, or
    [None] for a result with an [error] (the service fails, or there is no
    such row). *)
Definition select_profile (env : Env) (userId columns : jsstring)
    : M (option Profile) :=
  tr ← get_trace;
  emit (EvProfileSelect userId columns);;
  d ← get_db;
  if env_profile_select_error env tr userId then ret None
  else ret (profiles d !! userId).

(** [.order("created_at", { ascending: false })]. *)
Definition newer_first (a b : RecRow) : Prop :=
  (row_created_at b <= row_created_at a).

#[global] Instance newer_first_dec : RelDecision newer_first :=
  fun a b => decide (row_created_at b <= row_created_at a).

(** [role_recommendations.select("*").eq("user_id", userId)
      .order("created_at", { ascending: false }).limit(3)]. *)
Definition recent_rows (userId : jsstring) (rows : list RecRow)
    : list RecRow :=
  take 3 (merge_sort newer_first
            (filter (fun r => row_user_id r = userId) rows)).

(** The result object of that query: [None] when it carries an [error]. *)
Definition select_recommendations (env : Env) (userId : jsstring)
    : M (option (list RecRow)) :=
  tr ← get_trace;
  emit (EvRecsSelect userId);;
  d ← get_db;
  if env_recs_select_error env tr userId then ret None
  else ret (Some (recent_rows userId (role_recommendations d))).

Definition column (v : option JsValue) : JsValue :=
  match v with Some x => x | None => JNull end.

(** [role_recommendations.insert(payload)]: the result object is returned,
    never thrown; on success the row is appended with the store's
    [created_at].  An [undefined] member is not sent and the column is
    NULL. *)
Definition insert_recommendation (env : Env) (payload : InsertPayload)
    : M unit :=
  tr ← get_trace;
  emit (EvInsert payload);;
  d ← get_db;
  if env_insert_error env tr payload then ret tt
  else
    set_db {| role_recommendations :=
                role_recommendations d ++
                [ {| row_user_id := ins_user_id payload;
                     row_created_at := env_now env tr;
                     row_role_title := column (ins_role_title payload);
                     row_description := column (ins_description payload);
                     row_why_it_fits_professionally :=
                       column (ins_why_it_fits_professionally payload);
                     row_why_it_fits_personally :=
                       column (ins_why_it_fits_personally payload) |} ];
              profiles := profiles d |}.

(** [profiles.update(change).eq("id", userId)]: the result is ignored by
    every caller. *)
Definition update_profile (env : Env) (userId : jsstring) (ev : Event)
    (change : Profile -> Profile) : M unit :=
  tr ← get_trace;
  emit ev;;
  d ← get_db;
  if env_profile_update_error env tr userId then ret tt
  else
    set_db {| role_recommendations := role_recommendations d;
              profiles := alter change userId (profiles d) |}.

End World.

Import World.

(** ** lib/resume-extractor.ts *)

Module Extractor.

(** "Combine all markdown pages into a single string": the loop
    [for (const page of data.pages) markdownContent += page.markdown + '\n\n']. *)
Definition combine_pages (pages : list Page) : jsstring :=
  fold_left (fun markdownContent page =>
               markdownContent ++ (markdown page ++ [LF; LF]))
            pages [].

(** [error.message || response.statusText]. *)
Definition ocr_failure_detail (message : option jsstring)
    (statusText : jsstring) : jsstring :=
  match message with
  | Some m => if str_truthy m then m else statusText
  | None => statusText
  end.

Definition extractResumeText (env : Env) (documentUrl : jsstring)
    (apiKey : option jsstring) : M jsstring :=
  if negb (str_truthy documentUrl) then throw (Error "Document URL is required")
  else if negb (opt_truthy apiKey) then throw (Error "Mistral API key is required")
  else
    (* the catch block of the source logs the error and throws it again *)
    try_catch
      (tr ← get_trace;
       emit (EvOcr documentUrl (default [] apiKey));;
       match env_ocr env tr documentUrl with
       | OcrRejects e => throw e
       | OcrNotOk message statusText =>
           throw {| err_message :=
                      u16 "OCR extraction failed: " ++
                      ocr_failure_detail message statusText;
                    err_is_Error := true |}
       | OcrOk None => throw (TypeError "data.pages is not iterable")
       | OcrOk (Some pages) => ret (combine_pages pages)
       end)
      (fun error => throw error).

End Extractor.

Import Extractor.

(** ** app/api/recommendations/route.ts *)

Module Route.

Record Request : Type := {
  req_userId : option jsstring;
  req_resumeUrl : option jsstring
}.

(** The three responses the handler builds. *)
Inductive Response : Type :=
| BadRequest (error : jsstring)
| Ok200 (recommendations : list JsValue)
| ServerError (error : jsstring) (recommendations : list JsValue).

Definition status (r : Response) : N :=
  match r with
  | BadRequest _ => 400
  | Ok200 _ => 200
  | ServerError _ _ => 500
  end.

(** [response.ok]. *)
Definition ok (r : Response) : bool :=
  (200 <=? status r) && (status r <=? 299).

(** [v.key] for a value that is not [null]: [None] is [undefined]. *)
Definition member (v : JsValue) (key : string) : option JsValue :=
  match v with
  | JObj ms => lookup_member (u16 key) ms
  | _ => None
  end.

(** [v?.key]. *)
Definition opt_member (v : option JsValue) (key : string) : option JsValue :=
  match v with
  | None | Some JNull => None
  | Some x => member x key
  end.

(** [v || d]. *)
Definition or_else (v : option JsValue) (d : JsValue) : JsValue :=
  match v with
  | Some x => if truthy x then x else d
  | None => d
  end.

(** One category of [formattedData]. *)
Definition formatted (discoveryData : JsValue) (category : string) : JsValue :=
  let c := opt_member (Some discoveryData) category in
  JObj [ (u16 "selected", or_else (opt_member c "selected") (JArr []));
         (u16 "additional_info",
          or_else (opt_member c "additional_info") (JStr [])) ].

Definition make_prompt (discoveryData : JsValue) (resumeText : jsstring)
    : Prompt :=
  {| prompt_skills := Some (formatted discoveryData "skills");
     prompt_interests := Some (formatted discoveryData "interests");
     prompt_values := Some (formatted discoveryData "values");
     prompt_resume_text := resumeText;
     prompt_max_tokens := 1500 |}.

(** [rec.key] in the insert loop: reading a member of [null] throws. *)
Definition read_member (rec : JsValue) (key : string) : M (option JsValue) :=
  match rec with
  | JNull =>
      throw (TypeError "Cannot read properties of null")
  | _ => ret (member rec key)
  end.

(** The body of the loop "Store recommendations in Supabase". *)
Definition store_one (env : Env) (userId : jsstring) (rec : JsValue) : M unit :=
  role_title ← read_member rec "role_title";
  description ← read_member rec "description";
  professionally ← read_member rec "why_it_fits_professionally";
  personally ← read_member rec "why_it_fits_personally";
  insert_recommendation env
    {| ins_user_id := userId;
       ins_role_title := role_title;
       ins_description := description;
       ins_why_it_fits_professionally := professionally;
       ins_why_it_fits_personally := personally |}.

Fixpoint store_all (env : Env) (userId : jsstring) (recs : list JsValue)
    : M unit :=
  match recs with
  | [] => ret tt
  | rec :: recs' => store_one env userId rec;; store_all env userId recs'
  end.

(** [response.body.choices[0].message.content]. *)
Definition read_content (answer : CompletionAnswer) : M (option jsstring) :=
  match answer with
  | CompletionContent content => ret content
  | _ => throw (TypeError "Cannot read properties of undefined")
  end.

(** The inner [try] block: "Parse the response" and store the records. *)
Definition parse_and_store (env : Env) (userId : jsstring)
    (answer : CompletionAnswer) : M (list JsValue) :=
  responseContent ← read_content answer;
  match responseContent with
  | None => throw (TypeError "Cannot read properties of null")
  | Some content =>
      match parse content with
      | ParseError _ => throw (Error "Response is not an array or object")
      | Parsed roleRecommendations =>
          store_all env userId roleRecommendations;;
          ret roleRecommendations
      end
  end.

(** The statements from "Generate role recommendations" on.  [inl] is the
    early [return] of the handler inside the [try] block. *)
Definition generate (env : Env) (userId : jsstring) (prompt : Prompt)
    : M (Response + list JsValue) :=
  try_catch
    (tr ← get_trace;
     emit (EvCompletion prompt);;
     match env_completion env tr prompt with
     | CompletionRejects e => throw e
     | CompletionNoBody => ret (inl (Ok200 defaultRecommendations))
     | answer =>
         try_catch
           (recs ← parse_and_store env userId answer; ret (inr recs))
           (fun error =>
              (* the catch block logs the response content before it
                 falls back *)
              read_content answer;;
              ret (inr defaultRecommendations))
     end)
    (fun error => ret (inr defaultRecommendations)).

(** The statements from "Fetch user profile data" to the end of "Extract
    text from resume": the values of [discoveryData] and [resumeText]. *)
Definition gather (env : Env) (userId : jsstring) (request : Request)
    : M (JsValue * jsstring) :=
  profile ← select_profile env userId (u16 "discovery_data, resume_link");
  '(discoveryData, resumeUrl) ←
    match profile with
    | None => ret (JNull, req_resumeUrl request)
    | Some profileData =>
        if negb (opt_truthy (req_resumeUrl request))
           && opt_truthy (resume_link profileData)
        then
          (* [resumeUrl = profileData.resume_link]: [resumeUrl] is declared
             with [const], the assignment throws *)
          throw (TypeError "Assignment to constant variable.")
        else ret (discovery_data profileData, req_resumeUrl request)
    end;
  resumeText ←
    (if opt_truthy resumeUrl then
       try_catch
         (text ← extractResumeText env (default [] resumeUrl)
                   (env_mistralApiKey env);
          (if str_truthy text then
             update_profile env userId (EvProfileUpdateText userId text)
               (fun p => {| discovery_data := discovery_data p;
                            resume_link := resume_link p;
                            resume_text := Some text |})
           else ret tt);;
          ret text)
         (fun error => ret [])
     else ret []);
  ret (discoveryData, resumeText).

Definition POST (env : Env) (request : Request) : M Response :=
  try_catch
    (if negb (opt_truthy (req_userId request)) then
       ret (BadRequest (u16 "Missing userId in request"))
     else
       let userId := default [] (req_userId request) in
       '(discoveryData, resumeText) ← gather env userId request;
       if negb (truthy discoveryData) && negb (str_truthy resumeText) then
         ret (Ok200 defaultRecommendations)
       else
         r ← generate env userId (make_prompt discoveryData resumeText);
         match r with
         | inl response => ret response
         | inr roleRecommendations => ret (Ok200 roleRecommendations)
         end)
    (fun error => ret (ServerError (u16 "Server error") defaultRecommendations)).

(** The [recommendations] member of the response body. *)
Definition body_recommendations (r : Response) : option (list JsValue) :=
  match r with
  | BadRequest _ => None
  | Ok200 recs => Some recs
  | ServerError _ recs => Some recs
  end.

(** [new ModelClient(azureEndpoint, new AzureKeyCredential(azureApiKey))] in
    lib/azure-recommendations.ts.  That file imports [ModelClient] by name
    (line 3), and the package [@azure-rest/ai-inference] has no value of that
    name: its client factory is the default export, which route.ts imports.
    The binding is [undefined], and [new] applied to it throws a TypeError
    once the arguments are evaluated (the construction of the credential
    has no other effect than an exception of its own).  The [catch] that
    receives the exception does not look at it. *)
Definition new_ModelClient : M unit :=
  throw (TypeError "ModelClient is not a constructor").

(** [formattedData[key] = value] in a module, which is strict code: setting
    a member of a primitive value (a boolean, a number or a string)
    throws. *)
Definition set_member (target : JsValue) : M unit :=
  match target with
  | JBool _ | JNum _ | JStr _ =>
      throw (TypeError "Cannot create property on a primitive value")
  | _ => ret tt
  end.

(** [generateRoleRecommendations] of lib/azure-recommendations.ts.  Its
    first statement, inside the outer [try], builds the client; the
    statements after it are those of the handler, without the store. *)
Definition generateRoleRecommendations (env : Env)
    (discoveryData : option JsValue) (resumeText : option jsstring)
    : M (list JsValue) :=
  let formattedData :=
    match discoveryData with
    | Some d =>
        if truthy d then d
        else JObj [ (u16 "skills", formatted JNull "skills");
                    (u16 "values", formatted JNull "values");
                    (u16 "interests", formatted JNull "interests") ]
    | None => JObj [ (u16 "skills", formatted JNull "skills");
                     (u16 "values", formatted JNull "values");
                     (u16 "interests", formatted JNull "interests") ]
    end in
  let prompt :=
    {| prompt_skills := member formattedData "skills";
       prompt_interests := member formattedData "interests";
       prompt_values := member formattedData "values";
       prompt_resume_text := default [] resumeText;
       prompt_max_tokens := 1500 |} in
  try_catch
    (new_ModelClient;;
     (if opt_truthy resumeText then set_member formattedData else ret tt);;
     tr ← get_trace;
     emit (EvCompletion prompt);;
     match env_completion env tr prompt with
     | CompletionRejects e => throw e
     | CompletionNoBody => ret defaultRecommendations
     | answer =>
         try_catch
           (responseContent ← read_content answer;
            match responseContent with
            | None => throw (TypeError "Cannot read properties of null")
            | Some content =>
                match parse content with
                | ParseError _ =>
                    throw (Error "Response is not an array or object")
                | Parsed roleRecommendations => ret roleRecommendations
                end
            end)
           (fun error => read_content answer;; ret defaultRecommendations)
     end)
    (fun error => ret defaultRecommendations).

End Route.

Import Route.

(** ** lib/recommendation-service.ts *)

Module Service.

Definition to_recommendation (item : RecRow) : JsValue :=
  JObj [ (u16 "role_title", row_role_title item);
         (u16 "description", row_description item);
         (u16 "why_it_fits_professionally", row_why_it_fits_professionally item);
         (u16 "why_it_fits_personally", row_why_it_fits_personally item) ].

(** [fetch('/api/recommendations', ...)] runs the POST handler, unless the
    request itself fails.  Of the three responses only [Ok200] is [ok]; for
    the other two the function throws the [error] of the body. *)
Definition generateRecommendations (env : Env) (userId : option jsstring)
    (resumeUrl : option jsstring) : M (list JsValue) :=
  try_catch
    (tr ← get_trace;
     emit (EvApiFetch userId resumeUrl);;
     if env_api_fetch_rejects env tr then throw (TypeError "Failed to fetch")
     else
       response ← POST env {| req_userId := userId; req_resumeUrl := resumeUrl |};
       match response with
       | Ok200 recommendations => ret recommendations
       | BadRequest error =>
           throw {| err_message := error; err_is_Error := true |}
       | ServerError error _ =>
           throw {| err_message := error; err_is_Error := true |}
       end)
    (fun error => ret defaultRecommendations).

Definition getRecommendations (env : Env) (userId : option jsstring)
    (forceRefresh : bool) : M (list JsValue) :=
  if negb (opt_truthy userId) then ret defaultRecommendations
  else
    let uid := default [] userId in
    try_catch
      (cached ←
         (if negb forceRefresh then
            existing ← select_recommendations env uid;
            match existing with
            | Some existingData =>
                if bool_decide (0 < length existingData)%nat
                then ret (Some (map to_recommendation existingData))
                else ret None
            | None => ret None
            end
          else ret None);
       match cached with
       | Some recommendations => ret recommendations
       | None =>
           profile ← select_profile env uid (u16 "resume_link");
           generateRecommendations env userId
             (match profile with
              | Some p => resume_link p
              | None => None
              end)
       end)
      (fun error => ret defaultRecommendations).

End Service.

Import Service.

(** ** components/discovery/resume-upload.tsx *)

Module Upload.

Record User : Type := { user_id : jsstring }.

Fixpoint uint_digits (d : Decimal.uint) : jsstring :=
  match d with
  | Decimal.Nil => []
  | Decimal.D0 d' => 48 :: uint_digits d'
  | Decimal.D1 d' => 49 :: uint_digits d'
  | Decimal.D2 d' => 50 :: uint_digits d'
  | Decimal.D3 d' => 51 :: uint_digits d'
  | Decimal.D4 d' => 52 :: uint_digits d'
  | Decimal.D5 d' => 53 :: uint_digits d'
  | Decimal.D6 d' => 54 :: uint_digits d'
  | Decimal.D7 d' => 55 :: uint_digits d'
  | Decimal.D8 d' => 56 :: uint_digits d'
  | Decimal.D9 d' => 57 :: uint_digits d'
  end.

(** The decimal text of a number in a template literal. *)
Definition number_text (n : N) : jsstring := uint_digits (N.to_uint n).

Definition validTypes : list jsstring :=
  [ u16 "application/pdf";
    u16 "application/vnd.openxmlformats-officedocument.wordprocessingml.document" ].

(** [validTypes.includes(t)]. *)
Definition is_valid_type (t : jsstring) : bool :=
  existsb (fun v => bool_decide (v = t)) validTypes.

Definition max_size : N := 5 * 1024 * 1024.

Definition not_found_message : jsstring := u16 "The resource was not found".

(** [error.message && error.message.includes("The resource was not found")]. *)
Definition is_not_found (error : JsError) : bool :=
  str_truthy (err_message error)
  && includes (err_message error) not_found_message.

Definition set_status (s : UploadStatus) : M unit :=
  modify_ui (fun u => {| selectedFile := selectedFile u;
                         uploadStatus := s;
                         uploadError := uploadError u |}).

Definition set_error (e : option jsstring) : M unit :=
  modify_ui (fun u => {| selectedFile := selectedFile u;
                         uploadStatus := uploadStatus u;
                         uploadError := e |}).

Definition set_selected (f : option File) : M unit :=
  modify_ui (fun u => {| selectedFile := f;
                         uploadStatus := uploadStatus u;
                         uploadError := uploadError u |}).

(** A storage call whose result object is examined: an [error] in it is
    thrown by the caller ([if (error) throw error]). *)
Definition checked (a : StorageAnswer) : M unit :=
  match a with
  | StorageOk => ret tt
  | StorageError e => throw e
  | StorageThrows e => throw e
  end.

(** A storage call whose result object is dropped: only a rejected promise
    is seen. *)
Definition unchecked (a : StorageAnswer) : M unit :=
  match a with
  | StorageOk | StorageError _ => ret tt
  | StorageThrows e => throw e
  end.

(** The body of the [try] block of [uploadFile]. *)
Definition upload_once (env : Env) (user : User) (notify : bool) (file : File)
    : M (option jsstring) :=
  let fileExt := split_pop (ch ".") (file_name file) in
  tr0 ← get_trace;
  let fileName := number_text (env_now env tr0) ++ u16 "." ++ fileExt in
  let filePath := user_id user ++ u16 "/" ++ fileName in
  emit (EvUploadFile filePath file);;
  checked (env_upload_file env tr0 filePath);;
  tr1 ← get_trace;
  emit (EvSignedUrl filePath 31536000);;
  match env_signed_url env tr1 filePath with
  | SignedError e => throw e
  | SignedOk resumeUrl =>
      update_profile env (user_id user)
        (EvProfileUpdateLink (user_id user) resumeUrl)
        (fun p => {| discovery_data := discovery_data p;
                     resume_link := Some resumeUrl;
                     resume_text := resume_text p |});;
      set_status Success;;
      emit (EvToast (u16 "Resume uploaded"));;
      emit (EvTrack (u16 "cv_uploaded"));;
      (if notify then emit (EvResumeProcessed resumeUrl) else ret tt);;
      ret (Some resumeUrl)
  end.

(** "Create the user folder by uploading a placeholder file and then
    deleting it". *)
Definition provision (env : Env) (user : User) : M unit :=
  let placeholderPath := user_id user ++ u16 "/.placeholder" in
  tr0 ← get_trace;
  emit (EvUploadPlaceholder placeholderPath);;
  unchecked (env_upload_placeholder env tr0 placeholderPath);;
  tr1 ← get_trace;
  emit (EvRemove placeholderPath);;
  unchecked (env_remove env tr1 placeholderPath).

(** [uploadFile] calls itself after provisioning; [fuel] bounds the depth of
    that recursion in the model. *)
Fixpoint uploadFile (fuel : nat) (env : Env) (user : option User)
    (notify : bool) (file : File) : M (option jsstring) :=
  match fuel with
  | O => out_of_fuel
  | S fuel' =>
      match user with
      | None =>
          emit (EvToast (u16 "Authentication required"));;
          ret None
      | Some u =>
          set_status Uploading;;
          set_error None;;
          try_catch
            (upload_once env u notify file)
            (fun error =>
               if is_not_found error then
                 try_catch
                   (provision env u;;
                    uploadFile fuel' env user notify file)
                   (fun folderError => throw folderError)
               else
                 let errorMessage :=
                   if err_is_Error error then err_message error
                   else u16 "Failed to upload resume" in
                 set_status Failed;;
                 set_error (Some errorMessage);;
                 emit (EvToast (u16 "Upload failed"));;
                 ret None)
      end
  end.

(** A call that is not awaited: the caller sees neither the result nor a
    rejection. *)
Definition detached {A} (m : M A) : M unit :=
  fun st =>
    match m st with
    | (OutOfFuel, st') => (OutOfFuel, st')
    | (_, st') => (Ret tt, st')
    end.

(** [handleFileChange] and the [onDrop] handler have the same body, on
    [e.target.files] and [e.dataTransfer.files]. *)
Definition handleFileChange (fuel : nat) (env : Env) (user : option User)
    (notify : bool) (files : list File) : M unit :=
  match files with
  | [] => ret tt
  | file :: _ =>
      if max_size <? file_size file then
        emit (EvToast (u16 "File too large"))
      else if negb (is_valid_type (file_type file)) then
        emit (EvToast (u16 "Invalid file type"))
      else
        set_selected (Some file);;
        set_status Idle;;
        set_error None;;
        detached (uploadFile fuel env user notify file)
  end.

Definition onDrop := handleFileChange.

End Upload.

Import Upload.

(** ** components/roles/role-recommendation-display.tsx *)

Module Display.

(** The React state of [RoleRecommendationsDisplay] that
    [fetchRecommendations] sets. *)
Record View : Type := {
  isLoading : bool;
  isRefreshing : bool;
  recommendations : list JsValue
}.

Definition setIsLoading (b : bool) (v : View) : View :=
  {| isLoading := b; isRefreshing := isRefreshing v;
     recommendations := recommendations v |}.

Definition setIsRefreshing (b : bool) (v : View) : View :=
  {| isLoading := isLoading v; isRefreshing := b;
     recommendations := recommendations v |}.

Definition setRecommendations (recs : list JsValue) (v : View) : View :=
  {| isLoading := isLoading v; isRefreshing := isRefreshing v;
     recommendations := recs |}.

(** The [try], [catch] and [finally] blocks follow the early return for a
    missing user. *)
Definition fetchRecommendations (env : Env) (user : option User)
    (forceRefresh : bool) (v : View) : M View :=
  match user with
  | None => ret (setIsLoading false v)
  | Some u =>
      let v1 := if forceRefresh then setIsRefreshing true v
                else setIsLoading true v in
      v2 ← try_catch
             (roleRecommendations ←
                getRecommendations env (Some (user_id u)) forceRefresh;
              ret (setRecommendations roleRecommendations v1))
             (fun error => emit (EvToast (u16 "Error"));; ret v1);
      ret (setIsRefreshing false (setIsLoading false v2))
  end.

Definition handleRefreshRecommendations (env : Env) (user : option User)
    (v : View) : M View :=
  fetchRecommendations env user true v.

End Display.

Import Display.

(** ** components/discovery/discovery-form.tsx *)

Module Discovery.

(** The state of the form that [handleSubmit] reads. *)
Record Form : Type := {
  selectedInterests : list jsstring;
  selectedSkills : list jsstring;
  selectedValues : list jsstring;
  interestsInfo : jsstring;
  skillsInfo : jsstring;
  valuesInfo : jsstring;
  resumeUrl : option jsstring
}.

(** One category of the [discoveryData] object. *)
Definition category (selected : list jsstring) (additional_info : jsstring)
    : JsValue :=
  JObj [ (u16 "selected", JArr (map JStr selected));
         (u16 "additional_info", JStr additional_info) ].

Definition discoveryData (f : Form) (timestamp : jsstring) : JsValue :=
  JObj [ (u16 "interests", category (selectedInterests f) (interestsInfo f));
         (u16 "skills", category (selectedSkills f) (skillsInfo f));
         (u16 "values", category (selectedValues f) (valuesInfo f));
         (u16 "timestamp", JStr timestamp) ].

(** The object given to [update]: [resume_link] is a member ([Some]) only
    when the form holds a resume URL. *)
Record ProfileUpdate : Type := {
  upd_discovery_data : JsValue;
  upd_discovery_done : bool;
  upd_resume_link : option jsstring
}.

Definition profileUpdate (f : Form) (timestamp : jsstring) : ProfileUpdate :=
  {| upd_discovery_data := discoveryData f timestamp;
     upd_discovery_done := true;
     upd_resume_link :=
       if opt_truthy (resumeUrl f) then resumeUrl f else None |}.

(** What [handleSubmit] does, in order. *)
Inductive Effect : Type :=
| Toast (title : jsstring)
| SetIsLoading (b : bool)
| Update (userId : jsstring) (change : ProfileUpdate)
| Track (name : jsstring)
| Push (route : jsstring).

(** [timestamp] is [new Date().toISOString()]; [update_error] tells whether
    the result of the update carries an [error]. *)
Definition handleSubmit (f : Form) (user : option User)
    (timestamp : jsstring) (update_error : bool) : list Effect :=
  if (5 <? length (selectedInterests f))%nat
     || (5 <? length (selectedSkills f))%nat
     || (5 <? length (selectedValues f))%nat
  then [Toast (u16 "Too many selections")]
  else if (length (selectedInterests f) =? 0)%nat
          || (length (selectedSkills f) =? 0)%nat
          || (length (selectedValues f) =? 0)%nat
  then [Toast (u16 "Missing information")]
  else
    match user with
    | None => [Toast (u16 "Authentication required")]
    | Some u =>
        [ SetIsLoading true;
          Update (user_id u) (profileUpdate f timestamp) ]
        ++ (if update_error then [Toast (u16 "Error")]
            else [ Toast (u16 "Discovery completed");
                   Track (if opt_truthy (resumeUrl f)
                          then u16 "discovery_completed_with_resume"
                          else u16 "discovery_completed");
                   Push (u16 "/roles") ])
        ++ [SetIsLoading false]
    end.

(** The profile row after the update; [discovery_done] is not among the
    columns of [Profile]. *)
Definition apply_update (change : ProfileUpdate) (p : Profile) : Profile :=
  {| discovery_data := upd_discovery_data change;
     resume_link := match upd_resume_link change with
                    | Some url => Some url
                    | None => resume_link p
                    end;
     resume_text := resume_text p |}.

End Discovery.

Import Discovery.

(** * Reference definitions and concrete inputs *)

(** The wording of the specification for the extraction result: the page
    contents in page order, adjacent pages separated by one blank line. *)
Fixpoint join_pages (pages : list Page) : jsstring :=
  match pages with
  | [] => []
  | [p] => markdown p
  | p :: ps => markdown p ++ [LF; LF] ++ join_pages ps
  end.

(** A record in the sense of the specification: the four members are
    present and are strings. *)
Definition is_string_member (v : JsValue) (key : string) : bool :=
  match member v key with
  | Some (JStr _) => true
  | _ => false
  end.

Definition is_record (v : JsValue) : bool :=
  is_string_member v "role_title"
  && is_string_member v "description"
  && is_string_member v "why_it_fits_professionally"
  && is_string_member v "why_it_fits_personally".

(** The wording of the specification for repair step 3: from the first
    opening square bracket that is followed (after white space) by an
    opening brace, the span up to the square bracket that closes it. *)
Fixpoint balanced_prefix (depth : nat) (s : jsstring) : option jsstring :=
  match s with
  | [] => None
  | c :: s' =>
      if c =? ch "[" then
        match balanced_prefix (S depth) s' with
        | Some m => Some (c :: m)
        | None => None
        end
      else if c =? ch "]" then
        match depth with
        | O => None
        | 1%nat => Some [c]
        | S d => match balanced_prefix d s' with
                 | Some m => Some (c :: m)
                 | None => None
                 end
        end
      else
        match balanced_prefix depth s' with
        | Some m => Some (c :: m)
        | None => None
        end
  end.

Fixpoint balanced_array_span (s : jsstring) : option jsstring :=
  match s with
  | [] => None
  | c :: s' =>
      if (c =? ch "[") && startsWith (trimStart s') [ch "{"] then
        match balanced_prefix 0 s with
        | Some m => Some m
        | None => balanced_array_span s'
        end
      else balanced_array_span s'
  end.

Definition spec_extract_array (s : jsstring) : jsstring :=
  match balanced_array_span s with
  | Some m => m
  | None => s
  end.

(** An environment in which every service answers and succeeds. *)
Definition calm_env (completion : CompletionAnswer) (ocr : OcrAnswer) : Env :=
  {| env_mistralApiKey := Some (u16 "mistral-key");
     env_profile_select_error := fun _ _ => false;
     env_recs_select_error := fun _ _ => false;
     env_insert_error := fun _ _ => false;
     env_now := fun tr => 1700000000000 + N.of_nat (length tr);
     env_ocr := fun _ _ => ocr;
     env_completion := fun _ _ => completion;
     env_api_fetch_rejects := fun _ => false;
     env_upload_file := fun _ _ => StorageOk;
     env_upload_placeholder := fun _ _ => StorageOk;
     env_remove := fun _ _ => StorageOk;
     env_signed_url := fun _ p => SignedOk (u16 "https://storage/sign/" ++ p);
     env_profile_update_error := fun _ _ => false |}.

Definition idle_ui : Ui :=
  {| selectedFile := None; uploadStatus := Idle; uploadError := None |}.

Definition state_of (d : Db) : State :=
  {| db := d; ui := idle_ui; trace := [] |}.

Definition empty_db : Db :=
  {| role_recommendations := []; profiles := ∅ |}.

Definition alice : jsstring := u16 "user-alice".

Definition one_page : list Page := [ {| markdown := u16 "# CV" |} ].

Definition pdf_type : jsstring := u16 "application/pdf".

Definition docx_type : jsstring :=
  u16 "application/vnd.openxmlformats-officedocument.wordprocessingml.document".

Definition big_pdf : File :=
  {| file_name := u16 "cv.pdf"; file_size := 5 * 1024 * 1024 + 1;
     file_type := pdf_type |}.

Definition small_png : File :=
  {| file_name := u16 "cv.png"; file_size := 1000;
     file_type := u16 "image/png" |}.

Definition small_pdf : File :=
  {| file_name := u16 "cv.final.pdf"; file_size := 1000;
     file_type := pdf_type |}.

Definition alice_user : User := {| user_id := alice |}.

(** What a rejected selection leaves behind: one toast. *)
Definition rejected_with (title : string) (st : State) : State :=
  {| db := db st; ui := ui st; trace := trace st ++ [EvToast (u16 title)] |}.

Definition touches_storage_or_profile (e : Event) : bool :=
  match e with
  | EvUploadFile _ _ | EvUploadPlaceholder _ | EvRemove _
  | EvSignedUrl _ _ | EvProfileUpdateLink _ _ | EvProfileUpdateText _ _ => true
  | _ => false
  end.

(** Events other than a completion call and an insert. *)
Definition calm (e : Event) : bool :=
  negb (is_completion e) && negb (is_insert e).

(** A computation that returns or throws, calls neither the completion
    endpoint nor [insert], and leaves the [role_recommendations] table as it
    is. *)
Definition quiet {A} (m : M A) : Prop :=
  forall st o st', m st = (o, st') ->
    o <> OutOfFuel
    /\ exists evs, trace st' = trace st ++ evs
      /\ forallb calm evs = true
      /\ role_recommendations (db st') = role_recommendations (db st).




(** A profile whose discovery data is present with empty selections. *)
Definition empty_category : JsValue :=
  JObj [ (u16 "selected", JArr []); (u16 "additional_info", JStr []) ].

Definition empty_discovery : JsValue :=
  JObj [ (u16 "skills", empty_category);
         (u16 "interests", empty_category);
         (u16 "values", empty_category) ].

Definition db_empty_selections : Db :=
  {| role_recommendations := [];
     profiles := {[ alice := {| discovery_data := empty_discovery;
                                resume_link := None;
                                resume_text := None |} ]} |}.

Definition request_alice : Request :=
  {| req_userId := Some alice; req_resumeUrl := None |}.

Definition three_roles : jsstring :=
  js "[{'role_title':'A','description':'a','why_it_fits_professionally':'p','why_it_fits_personally':'q'},{'role_title':'B','description':'b','why_it_fits_professionally':'p','why_it_fits_personally':'q'},{'role_title':'C','description':'c','why_it_fits_professionally':'p','why_it_fits_personally':'q'}]".

(** The object the insert loop builds for a record. *)
Definition payload_of (userId : jsstring) (rec : JsValue) : InsertPayload :=
  {| ins_user_id := userId;
     ins_role_title := member rec "role_title";
     ins_description := member rec "description";
     ins_why_it_fits_professionally := member rec "why_it_fits_professionally";
     ins_why_it_fits_personally := member rec "why_it_fits_personally" |}.

Definition insert_events (userId : jsstring) (recs : list JsValue) : Trace :=
  map (fun rec => EvInsert (payload_of userId rec)) recs.

(** The elements of a parsed value: those of an array, or the value itself. *)
Definition elements (v : JsValue) : list JsValue :=
  match v with
  | JArr items => items
  | _ => [v]
  end.

(** The store refuses every insert. *)
Definition failing_store_env (completion : CompletionAnswer) : Env :=
  {| env_mistralApiKey := Some (u16 "mistral-key");
     env_profile_select_error := fun _ _ => false;
     env_recs_select_error := fun _ _ => false;
     env_insert_error := fun _ _ => true;
     env_now := fun tr => 1700000000000 + N.of_nat (length tr);
     env_ocr := fun _ _ => OcrOk None;
     env_completion := fun _ _ => completion;
     env_api_fetch_rejects := fun _ => false;
     env_upload_file := fun _ _ => StorageOk;
     env_upload_placeholder := fun _ _ => StorageOk;
     env_remove := fun _ _ => StorageOk;
     env_signed_url := fun _ p => SignedOk (u16 "https://storage/sign/" ++ p);
     env_profile_update_error := fun _ _ => false |}.

Definition prose : jsstring := u16 "I am sorry, I cannot help with that.".

Definition title_only : jsstring := js "[{'role_title': null}]".

Definition parsed_of (raw : jsstring) : list JsValue :=
  match parse raw with
  | Parsed recs => recs
  | ParseError _ => []
  end.

(** A stored row whose four columns all hold [title]. *)
Definition row (userId : jsstring) (created_at : N) (title : string) : RecRow :=
  {| row_user_id := userId; row_created_at := created_at;
     row_role_title := JStr (u16 title);
     row_description := JStr (u16 title);
     row_why_it_fits_professionally := JStr (u16 title);
     row_why_it_fits_personally := JStr (u16 title) |}.

Definition db_cached : Db :=
  {| role_recommendations :=
       [ row alice 10 "Oldest"; row (u16 "user-bob") 50 "Other";
         row alice 30 "Second"; row alice 20 "Third"; row alice 40 "Newest" ];
     profiles := ∅ |}.


(** [s] has no opening square bracket followed, after white space only, by
    an opening brace. *)
Definition no_opening (s : jsstring) : Prop :=
  ~ exists a w b,
      s = a ++ [ch "["] ++ w ++ [ch "{"] ++ b
      /\ Forall (fun c => is_space c = true) w.

(** [s] has no closing brace followed, after white space only, by a closing
    square bracket. *)
Definition no_closing (s : jsstring) : Prop :=
  ~ exists a w b,
      s = a ++ [ch "}"] ++ w ++ [ch "]"] ++ b
      /\ Forall (fun c => is_space c = true) w.

(** The end of the array pattern. *)
Definition closing_re : regex :=
  [ RChar (ch "}"); RStar is_space; RChar (ch "]") ].

Definition two_arrays : jsstring := js "[{'a':1}] and [{'b':2}]".

(** Decision procedures for [no_opening] and [no_closing]. *)
Fixpoint has_opening (s : jsstring) : bool :=
  match s with
  | [] => false
  | c :: s' =>
      ((c =? ch "[") && startsWith (trimStart s') [ch "{"]) || has_opening s'
  end.

Fixpoint has_closing (s : jsstring) : bool :=
  match s with
  | [] => false
  | c :: s' =>
      ((c =? ch "}") && startsWith (trimStart s') [ch "]"]) || has_closing s'
  end.

(** The storage path of an upload attempt started in state [st]. *)
Definition upload_path (env : Env) (user : User) (file : File) (st : State)
    : jsstring :=
  user_id user ++ u16 "/"
  ++ (number_text (env_now env (trace st)) ++ u16 "."
      ++ split_pop (ch ".") (file_name file)).

Definition placeholder_path (user : User) : jsstring :=
  user_id user ++ u16 "/.placeholder".

(** The upload failed, by an error result or a rejection, with the message
    that the catch block looks for. *)
Definition answer_not_found (a : StorageAnswer) : bool :=
  match a with
  | StorageOk => false
  | StorageError e | StorageThrows e => is_not_found e
  end.

Definition signed_not_found (a : SignedAnswer) : bool :=
  match a with
  | SignedOk _ => false
  | SignedError e => is_not_found e
  end.

Definition answer_throws (a : StorageAnswer) : bool :=
  match a with
  | StorageThrows _ => true
  | _ => false
  end.

Definition is_remove (e : Event) : bool :=
  match e with EvRemove _ => true | _ => false end.

Definition not_found_error : JsError := Error "The resource was not found".

(** The storage service answers the first [n] uploads of a file with "not
    found" and accepts the following ones. *)
Definition env_not_found (n : nat) : Env :=
  {| env_mistralApiKey := Some (u16 "mistral-key");
     env_profile_select_error := fun _ _ => false;
     env_recs_select_error := fun _ _ => false;
     env_insert_error := fun _ _ => false;
     env_now := fun tr => 1700000000000 + N.of_nat (length tr);
     env_ocr := fun _ _ => OcrOk None;
     env_completion := fun _ _ => CompletionNoBody;
     env_api_fetch_rejects := fun _ => false;
     env_upload_file := fun tr _ =>
       if bool_decide (count is_upload_file tr < n)%nat
       then StorageError not_found_error else StorageOk;
     env_upload_placeholder := fun _ _ => StorageOk;
     env_remove := fun _ _ => StorageOk;
     env_signed_url := fun _ p => SignedOk (u16 "https://storage/sign/" ++ p);
     env_profile_update_error := fun _ _ => false |}.

(** The storage service never finds the location. *)
Definition env_never_found : Env :=
  {| env_mistralApiKey := Some (u16 "mistral-key");
     env_profile_select_error := fun _ _ => false;
     env_recs_select_error := fun _ _ => false;
     env_insert_error := fun _ _ => false;
     env_now := fun tr => 1700000000000 + N.of_nat (length tr);
     env_ocr := fun _ _ => OcrOk None;
     env_completion := fun _ _ => CompletionNoBody;
     env_api_fetch_rejects := fun _ => false;
     env_upload_file := fun _ _ => StorageError not_found_error;
     env_upload_placeholder := fun _ _ => StorageOk;
     env_remove := fun _ _ => StorageOk;
     env_signed_url := fun _ p => SignedOk (u16 "https://storage/sign/" ++ p);
     env_profile_update_error := fun _ _ => false |}.

(** The state in which the retry starts, after an attempt that failed with
    "not found" and the provisioning. *)
Definition after_failed_attempt (env : Env) (user : User) (file : File)
    (st : State) : State :=
  {| db := db st;
     ui := {| selectedFile := selectedFile (ui st);
              uploadStatus := Uploading;
              uploadError := None |};
     trace := trace st ++
              [ EvUploadFile (upload_path env user file st) file;
                EvUploadPlaceholder (placeholder_path user);
                EvRemove (placeholder_path user) ] |}.

(** Orders on partial parsers, for the recursion budget of [JSON_parse]:
    [g] extends [f]; [f] consumes input; and a result of [f] is found again
    with any budget of at least twice the code units consumed. *)
Definition extends {A B} (f g : A -> option B) : Prop :=
  forall x r, f x = Some r -> g x = Some r.

Definition extends2 {A B C} (f g : A -> B -> option C) : Prop :=
  forall x y r, f x y = Some r -> g x y = Some r.

Definition shrinks {A} (f : jsstring -> option (A * jsstring)) : Prop :=
  forall s v r, f s = Some (v, r) -> (length r < length s)%nat.

Definition shrinks2 {A B} (f : jsstring -> B -> option (A * jsstring)) : Prop :=
  forall s acc v r, f s acc = Some (v, r) -> (length r < length s)%nat.

Definition enough {A} (f : nat -> jsstring -> option (A * jsstring))
    (n : nat) : Prop :=
  forall s v r, f n s = Some (v, r) ->
    forall m, (2 * (length s - length r) <= m)%nat -> f m s = Some (v, r).

Definition enough2 {A B} (f : nat -> jsstring -> B -> option (A * jsstring))
    (n : nat) : Prop :=
  forall s acc v r, f n s acc = Some (v, r) ->
    forall m, (2 * (length s - length r) <= m)%nat -> f m s acc = Some (v, r).

(** The same environment with other answers to the inserts. *)
Definition with_insert_errors (f : Trace -> InsertPayload -> bool) (env : Env)
    : Env :=
  {| env_mistralApiKey := env_mistralApiKey env;
     env_profile_select_error := env_profile_select_error env;
     env_recs_select_error := env_recs_select_error env;
     env_insert_error := f;
     env_now := env_now env;
     env_ocr := env_ocr env;
     env_completion := env_completion env;
     env_api_fetch_rejects := env_api_fetch_rejects env;
     env_upload_file := env_upload_file env;
     env_upload_placeholder := env_upload_placeholder env;
     env_remove := env_remove env;
     env_signed_url := env_signed_url env;
     env_profile_update_error := env_profile_update_error env |}.

(** Two states that differ in the [role_recommendations] table only. *)
Definition same_but_rows (st st' : State) : Prop :=
  trace st = trace st' /\ ui st = ui st'
  /\ profiles (db st) = profiles (db st').

(** ** Definitions for the further properties *)

(** The state after one more call. *)
Definition after_event (e : Event) (st : State) : State :=
  {| db := db st; ui := ui st; trace := trace st ++ [e] |}.

(** Every run of [m] relates its first and last states by [R]. *)
Definition within {A} (R : State -> State -> Prop) (m : M A) : Prop :=
  forall st o st', m st = (o, st') -> R st st'.

(** The calls the POST handler makes for [userId]. *)
Definition handler_event (userId : jsstring) (e : Event) : bool :=
  match e with
  | EvProfileSelect u _ | EvProfileUpdateText u _ => bool_decide (u = userId)
  | EvInsert p => bool_decide (ins_user_id p = userId)
  | EvOcr _ _ | EvCompletion _ => true
  | _ => false
  end.

Definition set_resume_text (text : jsstring) (p : Profile) : Profile :=
  {| discovery_data := discovery_data p;
     resume_link := resume_link p;
     resume_text := Some text |}.

(** What a run of the handler for [userId] may change: nothing in the
    component state; rows of that user are added at the end of the
    [role_recommendations] table; the [resume_text] of that user's profile
    may be replaced. *)
Definition handler_frame (userId : jsstring) (st st' : State) : Prop :=
  ui st' = ui st
  /\ (exists evs, trace st' = trace st ++ evs
                  /\ forallb (handler_event userId) evs = true)
  /\ (exists added,
        role_recommendations (db st') = role_recommendations (db st) ++ added
        /\ Forall (fun r => row_user_id r = userId) added)
  /\ (profiles (db st') = profiles (db st)
      \/ exists text,
           profiles (db st')
           = alter (set_resume_text text) userId (profiles (db st))).

(** The completion endpoint gives no text: the call rejects, the response
    has no body, no first choice, or a [null] content. *)
Definition completion_fails (a : CompletionAnswer) : bool :=
  match a with
  | CompletionContent (Some _) => false
  | _ => true
  end.

(** The extraction service gives no pages. *)
Definition ocr_fails (a : OcrAnswer) : bool :=
  match a with
  | OcrOk (Some _) => false
  | _ => true
  end.

Definition is_ocr (e : Event) : bool :=
  match e with EvOcr _ _ => true | _ => false end.

Definition is_update_text (e : Event) : bool :=
  match e with EvProfileUpdateText _ _ => true | _ => false end.

(** The value of [discoveryData] after the profile read of the handler. *)
Definition stored_discovery (env : Env) (st : State) (userId : jsstring)
    : JsValue :=
  if env_profile_select_error env (trace st) userId then JNull
  else match profiles (db st) !! userId with
       | Some p => discovery_data p
       | None => JNull
       end.

(** The rows and the profiles are those of [st]; calls were added. *)
Definition same_tables (st st' : State) : Prop :=
  db st' = db st /\ ui st' = ui st
  /\ exists evs, trace st' = trace st ++ evs.


(** What the generation step may change: it calls the completion endpoint
    and [insert] only, and leaves the profiles and the component state as
    they are. *)
Definition generation_frame (st st' : State) : Prop :=
  ui st' = ui st
  /\ profiles (db st') = profiles (db st)
  /\ exists evs, trace st' = trace st ++ evs
                 /\ forallb (fun e => is_completion e || is_insert e) evs = true.

(** The columns the handler reads from the profile. *)
Definition handler_columns : jsstring := u16 "discovery_data, resume_link".

Definition profile_with_link : Profile :=
  {| discovery_data := empty_discovery;
     resume_link := Some (u16 "https://storage/sign/cv.pdf");
     resume_text := None |}.

Definition db_with_link : Db :=
  {| role_recommendations := [];
     profiles := {[ alice := profile_with_link ]} |}.

Definition request_with_resume : Request :=
  {| req_userId := Some alice;
     req_resumeUrl := Some (u16 "https://storage/sign/cv.pdf") |}.

Definition is_recs_select (e : Event) : bool :=
  match e with EvRecsSelect _ => true | _ => false end.

Definition is_api_fetch (e : Event) : bool :=
  match e with EvApiFetch _ _ => true | _ => false end.

(** The [resume_link] that [getRecommendations] reads from the profile:
    [profile?.resume_link]. *)
Definition stored_link (env : Env) (st : State) (userId : jsstring)
    : option jsstring :=
  if env_profile_select_error env (trace st) userId then None
  else match profiles (db st) !! userId with
       | Some p => resume_link p
       | None => None
       end.

(** What the client takes from a response of the handler. *)
Definition client_result (r : Response) : list JsValue :=
  match r with
  | Ok200 recs => recs
  | _ => defaultRecommendations
  end.

Definition is_toast (e : Event) : bool :=
  match e with EvToast _ => true | _ => false end.

(** The calls [getRecommendations] makes for [userId]: the two reads, the
    request to the handler, and the calls of the handler. *)
Definition client_event (userId : jsstring) (e : Event) : bool :=
  match e with
  | EvRecsSelect u => bool_decide (u = userId)
  | EvApiFetch u _ => bool_decide (u = Some userId)
  | _ => handler_event userId e
  end.

(** A run adds calls that satisfy [P] only. *)
Definition calls_only (P : Event -> bool) (st st' : State) : Prop :=
  exists evs, trace st' = trace st ++ evs /\ forallb P evs = true.

Definition set_resume_link (url : jsstring) (p : Profile) : Profile :=
  {| discovery_data := discovery_data p;
     resume_link := Some url;
     resume_text := resume_text p |}.

(** The component state with another status and error. *)
Definition with_status (s : UploadStatus) (e : option jsstring) (u : Ui) : Ui :=
  {| selectedFile := selectedFile u; uploadStatus := s; uploadError := e |}.

(** [error instanceof Error ? error.message : "Failed to upload resume"]. *)
Definition failure_message (e : JsError) : jsstring :=
  if err_is_Error e then err_message e else u16 "Failed to upload resume".

(** The calls of a successful upload attempt, in order. *)
Definition success_events (user : User) (notify : bool) (path : jsstring)
    (file : File) (url : jsstring) : Trace :=
  [ EvUploadFile path file;
    EvSignedUrl path 31536000;
    EvProfileUpdateLink (user_id user) url;
    EvToast (u16 "Resume uploaded");
    EvTrack (u16 "cv_uploaded") ]
  ++ (if notify then [EvResumeProcessed url] else []).

Definition alice_profile : Profile :=
  {| discovery_data := empty_discovery;
     resume_link := None;
     resume_text := None |}.

(** The storage service refuses the upload with another error. *)
Definition env_upload_refused (e : JsError) : Env :=
  {| env_mistralApiKey := Some (u16 "mistral-key");
     env_profile_select_error := fun _ _ => false;
     env_recs_select_error := fun _ _ => false;
     env_insert_error := fun _ _ => false;
     env_now := fun tr => 1700000000000 + N.of_nat (length tr);
     env_ocr := fun _ _ => OcrOk None;
     env_completion := fun _ _ => CompletionNoBody;
     env_api_fetch_rejects := fun _ => false;
     env_upload_file := fun _ _ => StorageError e;
     env_upload_placeholder := fun _ _ => StorageThrows e;
     env_remove := fun _ _ => StorageOk;
     env_signed_url := fun _ p => SignedOk (u16 "https://storage/sign/" ++ p);
     env_profile_update_error := fun _ _ => false |}.

(** The signing of the URL fails. *)
Definition env_signing_fails (e : JsError) : Env :=
  {| env_mistralApiKey := Some (u16 "mistral-key");
     env_profile_select_error := fun _ _ => false;
     env_recs_select_error := fun _ _ => false;
     env_insert_error := fun _ _ => false;
     env_now := fun tr => 1700000000000 + N.of_nat (length tr);
     env_ocr := fun _ _ => OcrOk None;
     env_completion := fun _ _ => CompletionNoBody;
     env_api_fetch_rejects := fun _ => false;
     env_upload_file := fun _ _ => StorageOk;
     env_upload_placeholder := fun _ _ => StorageOk;
     env_remove := fun _ _ => StorageOk;
     env_signed_url := fun _ _ => SignedError e;
     env_profile_update_error := fun _ _ => false |}.

Definition quota_error : JsError := Error "Payload too large".

(** What a call of [uploadFile] leaves as it is in the component: the
    selected file; calls are added to the trace. *)
Definition upload_frame (st st' : State) : Prop :=
  selectedFile (ui st') = selectedFile (ui st)
  /\ exists evs, trace st' = trace st ++ evs.

(** The storage service does not find the location and the provisioning
    upload is rejected. *)
Definition env_provision_rejected (e : JsError) : Env :=
  {| env_mistralApiKey := Some (u16 "mistral-key");
     env_profile_select_error := fun _ _ => false;
     env_recs_select_error := fun _ _ => false;
     env_insert_error := fun _ _ => false;
     env_now := fun tr => 1700000000000 + N.of_nat (length tr);
     env_ocr := fun _ _ => OcrOk None;
     env_completion := fun _ _ => CompletionNoBody;
     env_api_fetch_rejects := fun _ => false;
     env_upload_file := fun _ _ => StorageError not_found_error;
     env_upload_placeholder := fun _ _ => StorageThrows e;
     env_remove := fun _ _ => StorageOk;
     env_signed_url := fun _ p => SignedOk (u16 "https://storage/sign/" ++ p);
     env_profile_update_error := fun _ _ => false |}.

Definition exact_limit_docx : File :=
  {| file_name := u16 "resume"; file_size := 5 * 1024 * 1024;
     file_type := docx_type |}.

(** Every category of the form has between one and five selections. *)
Definition valid_selections (f : Form) : bool :=
  forallb (fun l => (1 <=? length l)%nat && (length l <=? 5)%nat)
    [selectedInterests f; selectedSkills f; selectedValues f].

Definition is_update (e : Effect) : bool :=
  match e with Update _ _ => true | _ => false end.

Definition sample_form : Form :=
  {| selectedInterests := [u16 "Design"];
     selectedSkills := [u16 "Writing"; u16 "Research"];
     selectedValues := [u16 "Autonomy"];
     interestsInfo := [];
     skillsInfo := u16 "ten years of editing";
     valuesInfo := [];
     resumeUrl := None |}.

Definition sample_timestamp : jsstring := u16 "2025-01-01T00:00:00.000Z".

Definition db_after_submit : Db :=
  {| role_recommendations := [];
     profiles :=
       {[ alice := apply_update (profileUpdate sample_form sample_timestamp)
                     alice_profile ]} |}.

(** The prompt built from the selections of a form. *)
Definition form_prompt (f : Form) (resumeText : jsstring) : Prompt :=
  {| prompt_skills := Some (category (selectedSkills f) (skillsInfo f));
     prompt_interests :=
       Some (category (selectedInterests f) (interestsInfo f));
     prompt_values := Some (category (selectedValues f) (valuesInfo f));
     prompt_resume_text := resumeText;
     prompt_max_tokens := 1500 |}.

Definition record_then_null : jsstring :=
  js "[{'role_title':'A','description':'a','why_it_fits_professionally':'p','why_it_fits_personally':'q'}, null]".

(** A JSON object: a value written with braces.  [null] is not one, though
    [typeof null] is ['object']. *)
Definition is_object (v : JsValue) : bool :=
  match v with JObj _ => true | _ => false end.

(** The failure of the specification's parser, in its words: the strict
    parse of the repaired text fails, or yields a value that is neither an
    object nor an array. *)
Definition spec_parse_error (raw : jsstring) : Prop :=
  JSON_parse (repair raw) = None
  \/ exists v, JSON_parse (repair raw) = Some v
               /\ is_object v = false /\ isArray v = false.

(** The strict parse of the repaired text yields an array that has a null
    element. *)
Definition null_element (raw : jsstring) : Prop :=
  exists items, JSON_parse (repair raw) = Some (JArr items) /\ JNull ∈ items.

(** The block "Parse the response" of the handler, which ends with the
    insert loop, run on the completion text [raw] in state [st], ends in
    its [catch]. *)
Definition parsing_fails (env : Env) (userId raw : jsstring) (st : State)
    : Prop :=
  exists e st',
    parse_and_store env userId (CompletionContent (Some raw)) st
    = (Throw e, st').



(** The state in which attempt [i + 1] of an upload starts, when the [i]
    attempts before it failed at the upload with "not found". *)
Definition attempt_state (env : Env) (user : User) (file : File) (st : State)
    (i : nat) : State :=
  Nat.iter i (after_failed_attempt env user file) st.

(** The upload attempt started in state [st] fails with a "not found"
    message: at the upload of the file, or, the file once stored, at the
    signing of its URL. *)
Definition fails_not_found (env : Env) (user : User) (file : File)
    (st : State) : bool :=
  let path := upload_path env user file st in
  match env_upload_file env (trace st) path with
  | StorageOk =>
      signed_not_found
        (env_signed_url env (trace st ++ [EvUploadFile path file]) path)
  | answer => answer_not_found answer
  end.

(** The signed URL that the upload attempt started in state [st] obtains,
    when the storage service accepts the file and signs its URL; none when
    one of the two calls fails. *)
Definition attempt_url (env : Env) (user : User) (file : File) (st : State)
    : option jsstring :=
  let path := upload_path env user file st in
  match env_upload_file env (trace st) path with
  | StorageOk =>
      match env_signed_url env (trace st ++ [EvUploadFile path file]) path with
      | SignedOk url => Some url
      | SignedError _ => None
      end
  | _ => None
  end.

(** The state in which the retry starts when the signing step failed with
    "not found": the file is stored, and the location was provisioned. *)
Definition after_failed_signing (env : Env) (user : User) (file : File)
    (st : State) : State :=
  {| db := db st;
     ui := with_status Uploading None (ui st);
     trace := trace st ++
              [ EvUploadFile (upload_path env user file st) file;
                EvSignedUrl (upload_path env user file st) 31536000;
                EvUploadPlaceholder (placeholder_path user);
                EvRemove (placeholder_path user) ] |}.

(** The signing of the URL fails once with "not found". *)
Definition env_signing_not_found : Env :=
  {| env_mistralApiKey := Some (u16 "mistral-key");
     env_profile_select_error := fun _ _ => false;
     env_recs_select_error := fun _ _ => false;
     env_insert_error := fun _ _ => false;
     env_now := fun tr => 1700000000000 + N.of_nat (length tr);
     env_ocr := fun _ _ => OcrOk None;
     env_completion := fun _ _ => CompletionNoBody;
     env_api_fetch_rejects := fun _ => false;
     env_upload_file := fun _ _ => StorageOk;
     env_upload_placeholder := fun _ _ => StorageOk;
     env_remove := fun _ _ => StorageOk;
     env_signed_url := fun tr p =>
       if bool_decide (count is_upload_file tr < 2)%nat
       then SignedError not_found_error
       else SignedOk (u16 "https://storage/sign/" ++ p);
     env_profile_update_error := fun _ _ => false |}.

(** The four fields of a record as they are read back from the store: a
    field the record does not have is NULL. *)
Definition four_fields (rec : JsValue) : JsValue :=
  JObj [ (u16 "role_title", column (member rec "role_title"));
         (u16 "description", column (member rec "description"));
         (u16 "why_it_fits_professionally",
          column (member rec "why_it_fits_professionally"));
         (u16 "why_it_fits_personally",
          column (member rec "why_it_fits_personally")) ].

(** The calls of the extraction step of the handler: none; the OCR call;
    or the OCR call and the update of [resume_text]. *)
Definition extraction_calls (userId : jsstring) (evs : Trace) : Prop :=
  evs = []
  \/ exists url key,
       evs = [EvOcr url key]
       \/ exists text, evs = [EvOcr url key; EvProfileUpdateText userId text].

(** The calls of the generation step: none; or the completion call and
    then inserts of records, for the user of the request. *)
Definition generation_calls (userId : jsstring) (evs : Trace) : Prop :=
  evs = []
  \/ exists prompt stored,
       evs = EvCompletion prompt :: insert_events userId stored.

(** The calls of a run of the handler, in order. *)
Definition handler_calls (userId : jsstring) (evs : Trace) : Prop :=
  evs = []
  \/ exists extraction generation,
       evs = EvProfileSelect userId handler_columns
               :: extraction ++ generation
       /\ extraction_calls userId extraction
       /\ generation_calls userId generation.

(** * Properties *)

Arguments u16 _ : simpl never.
Arguments defaultRecommendations : simpl never.

(** ** Truthiness of numbers *)

(** Zero in any spelling is falsy, and so is a literal whose value rounds
    to zero: [2 ^ -1075] lies between [247e-326] and [248e-326]. *)
Example zero_literals_are_falsy :
  map (fun lit => truthy (JNum (u16 lit)))
    [ "0"; "-0"; "0.0"; "0e5"; "1e-400"; "247e-326" ]%string
  = [ false; false; false; false; false; false ].
Proof. reflexivity. Qed.

Example other_literals_are_truthy :
  map (fun lit => truthy (JNum (u16 lit)))
    [ "1"; "-1"; "0.5"; "1E5"; "0.001e3"; "5e-324"; "248e-326" ]%string
  = [ true; true; true; true; true; true; true ].
Proof. vm_compute. reflexivity. Qed.

Lemma digits_spans (digits : jsstring) :
  Forall (fun c => is_digit c = true) digits ->
  span (fun c => negb ((c =? ch "e") || (c =? ch "E"))) digits = (digits, [])
  /\ span (fun c => negb (c =? ch ".")) digits = (digits, [])
  /\ List.filter is_digit digits = digits.
Proof.
  assert (Hc : forall c, is_digit c = true ->
                 (c =? ch "e") = false /\ (c =? ch "E") = false
                 /\ (c =? ch ".") = false).
  { intros c Hc. unfold is_digit in Hc. apply andb_true_iff in Hc as [H1 H2].
    apply N.leb_le in H1, H2.
    repeat split; apply N.eqb_neq; intros ->;
      vm_compute in H1, H2; congruence. }
  induction 1 as [|c cs Hd _ (IH1 & IH2 & IH3)]; [done|].
  cbn [span List.filter]. rewrite IH1, IH2, IH3, Hd.
  by destruct (Hc c Hd) as (-> & -> & ->).
Qed.

(** A literal with a non-zero digit and no negative power of ten to divide
    by is truthy. *)
Lemma integer_literal_truthy (digits : jsstring) :
  Forall (fun c => is_digit c = true) digits ->
  digits_value digits <> 0 ->
  num_truthy digits = true.
Proof.
  intros Hd Hv. unfold num_truthy.
  destruct (digits_spans digits Hd) as (-> & -> & Hf).
  cbn [exponent_of List.filter length N.of_nat]. rewrite Hf.
  by rewrite (proj2 (N.eqb_neq _ _) Hv).
Qed.

(** ** C9: the text of the pages *)

Lemma fold_combine (pages : list Page) (acc : jsstring) :
  fold_left (fun markdownContent page =>
               markdownContent ++ (markdown page ++ [LF; LF])) pages acc
  = acc ++ concat (map (fun p => markdown p ++ [LF; LF]) pages).
Proof.
  revert acc. induction pages as [|p ps IH]; intros acc; simpl.
  - by rewrite app_nil_r.
  - rewrite IH. by rewrite <- !app_assoc.
Qed.

Lemma combine_pages_concat (pages : list Page) :
  combine_pages pages = concat (map (fun p => markdown p ++ [LF; LF]) pages).
Proof. unfold combine_pages. by rewrite fold_combine. Qed.

Lemma combine_pages_join (pages : list Page) :
  combine_pages pages
  = join_pages pages ++ (match pages with [] => [] | _ => [LF; LF] end).
Proof.
  rewrite combine_pages_concat.
  induction pages as [|p ps IH]; [done|].
  destruct ps as [|q ps]; [simpl; by rewrite app_nil_r|].
  change (concat (map _ (p :: q :: ps)))
    with ((markdown p ++ [LF; LF]) ++ concat (map (fun p => markdown p ++ [LF; LF]) (q :: ps))).
  rewrite IH. simpl. by rewrite <- !app_assoc.
Qed.

(** C9, as stated, fails: for a response with the single page "# CV" the
    function returns the page followed by a blank line, not the page
    alone. *)
Lemma C9_counterexample :
  let env := calm_env CompletionNoBody (OcrOk (Some one_page)) in
  (extractResumeText env (u16 "https://cv") (Some (u16 "k")) (state_of empty_db)).1
    = Ret (u16 "# CV" ++ [LF; LF])
  /\ (extractResumeText env (u16 "https://cv") (Some (u16 "k")) (state_of empty_db)).1
    <> Ret (join_pages one_page).
Proof. split; [reflexivity | discriminate]. Qed.

(** C9, amended: on a successful response with a sequence of pages,
    [extractResumeText] returns each page's markdown in page order, each
    page -- the last one too -- followed by one blank line; that is the
    pages separated by one blank line, and a trailing blank line when there
    is at least one page. *)
Theorem C9_extract_pages (env : Env) (documentUrl apiKey : jsstring)
    (pages : list Page) (st : State) :
  str_truthy documentUrl = true ->
  str_truthy apiKey = true ->
  env_ocr env (trace st) documentUrl = OcrOk (Some pages) ->
  (extractResumeText env documentUrl (Some apiKey) st).1
    = Ret (concat (map (fun p => markdown p ++ [LF; LF]) pages))
  /\ concat (map (fun p => markdown p ++ [LF; LF]) pages)
     = join_pages pages ++ (match pages with [] => [] | _ => [LF; LF] end).
Proof.
  intros Hu Hk Hocr. split.
  - unfold extractResumeText. rewrite Hu. simpl. rewrite Hk. simpl.
    unfold try_catch, mbind, M_bind, bind, get_trace, emit. simpl.
    rewrite Hocr. simpl. by rewrite combine_pages_concat.
  - rewrite <- combine_pages_concat. apply combine_pages_join.
Qed.

Lemma C9_extract_pages_witness :
  (extractResumeText (calm_env CompletionNoBody (OcrOk (Some one_page)))
     (u16 "https://cv") (Some (u16 "k")) (state_of empty_db)).1
    = Ret (concat (map (fun p => markdown p ++ [LF; LF]) one_page))
  /\ concat (map (fun p => markdown p ++ [LF; LF]) one_page)
     = join_pages one_page ++ [LF; LF].
Proof.
  apply (C9_extract_pages (calm_env CompletionNoBody (OcrOk (Some one_page)))
           (u16 "https://cv") (u16 "k") one_page (state_of empty_db));
    reflexivity.
Defined.

(** ** C10: the size and type gate of the file input *)

Lemma is_valid_type_false (t : jsstring) :
  t <> pdf_type -> t <> docx_type -> is_valid_type t = false.
Proof.
  intros H1 H2. unfold is_valid_type, validTypes. simpl.
  rewrite !bool_decide_eq_false_2; [done | | ]; intros E; symmetry in E; done.
Qed.

Lemma new_events_app (st : State) (d : Db) (u : Ui) (evs : Trace) :
  new_events st {| db := d; ui := u; trace := trace st ++ evs |} = evs.
Proof. unfold new_events. simpl. by rewrite drop_app_length. Qed.

(** C10: a selected file larger than 5*1024*1024 bytes, or whose MIME type
    is neither PDF nor DOCX, is rejected with a toast by [handleFileChange]
    (and by the drop handler, which has the same body): the run makes no
    storage upload, mints no signed URL, writes no profile, and leaves the
    database and the component state as they were. *)
Theorem C10_rejected_before_upload (fuel : nat) (env : Env)
    (user : option User) (notify : bool) (file : File) (others : list File)
    (st : State) :
  (5 * 1024 * 1024 < file_size file
   \/ (file_type file <> pdf_type /\ file_type file <> docx_type)) ->
  exists title,
    handleFileChange fuel env user notify (file :: others) st
      = (Ret tt, rejected_with title st)
    /\ onDrop fuel env user notify (file :: others) st
      = (Ret tt, rejected_with title st)
    /\ count touches_storage_or_profile
         (new_events st (rejected_with title st)) = O
    /\ db (rejected_with title st) = db st
    /\ ui (rejected_with title st) = ui st.
Proof.
  intros H. unfold onDrop, handleFileChange.
  destruct (max_size <? file_size file) eqn:Hsize.
  - exists "File too large"%string. repeat split.
    unfold rejected_with. by rewrite new_events_app.
  - destruct H as [Hbig | [Hpdf Hdocx]].
    + apply N.ltb_ge in Hsize. unfold max_size in Hsize. lia.
    + rewrite (is_valid_type_false _ Hpdf Hdocx). simpl.
      exists "Invalid file type"%string. repeat split.
      unfold rejected_with. by rewrite new_events_app.
Qed.

Lemma C10_rejected_before_upload_witness :
  (exists title,
    handleFileChange 3 (calm_env CompletionNoBody (OcrOk None))
      (Some alice_user) true [big_pdf] (state_of empty_db)
      = (Ret tt, rejected_with title (state_of empty_db))
    /\ onDrop 3 (calm_env CompletionNoBody (OcrOk None))
      (Some alice_user) true [big_pdf] (state_of empty_db)
      = (Ret tt, rejected_with title (state_of empty_db))
    /\ count touches_storage_or_profile
         (new_events (state_of empty_db)
            (rejected_with title (state_of empty_db))) = O
    /\ db (rejected_with title (state_of empty_db)) = db (state_of empty_db)
    /\ ui (rejected_with title (state_of empty_db)) = ui (state_of empty_db))
  /\
  (exists title,
    handleFileChange 3 (calm_env CompletionNoBody (OcrOk None))
      (Some alice_user) true [small_png] (state_of empty_db)
      = (Ret tt, rejected_with title (state_of empty_db))
    /\ onDrop 3 (calm_env CompletionNoBody (OcrOk None))
      (Some alice_user) true [small_png] (state_of empty_db)
      = (Ret tt, rejected_with title (state_of empty_db))
    /\ count touches_storage_or_profile
         (new_events (state_of empty_db)
            (rejected_with title (state_of empty_db))) = O
    /\ db (rejected_with title (state_of empty_db)) = db (state_of empty_db)
    /\ ui (rejected_with title (state_of empty_db)) = ui (state_of empty_db)).
Proof.
  split.
  - apply (C10_rejected_before_upload 3 _ (Some alice_user) true big_pdf []).
    left. reflexivity.
  - apply (C10_rejected_before_upload 3 _ (Some alice_user) true small_png []).
    right. split; discriminate.
Defined.

(** An accepted file does reach the storage service. *)
Example accepted_file_is_uploaded :
  count is_upload_file
    (trace (handleFileChange 3 (calm_env CompletionNoBody (OcrOk None))
              (Some alice_user) true [small_pdf] (state_of empty_db)).2)
  = 1%nat.
Proof. reflexivity. Qed.

(** ** Running the monad *)

Lemma run_bind_ret {A B} (m : M A) (f : A -> M B) st a st1 :
  m st = (Ret a, st1) -> (m ≫= f) st = f a st1.
Proof. intros H. unfold mbind, M_bind, bind. by rewrite H. Qed.

Lemma run_bind_throw {A B} (m : M A) (f : A -> M B) st e st1 :
  m st = (Throw e, st1) -> (m ≫= f) st = (Throw e, st1).
Proof. intros H. unfold mbind, M_bind, bind. by rewrite H. Qed.

Lemma run_try_ret {A} (m : M A) h st a st1 :
  m st = (Ret a, st1) -> try_catch m h st = (Ret a, st1).
Proof. intros H. unfold try_catch. by rewrite H. Qed.

Lemma run_try_throw {A} (m : M A) h st e st1 :
  m st = (Throw e, st1) -> try_catch m h st = h e st1.
Proof. intros H. unfold try_catch. by rewrite H. Qed.

Lemma count_app (p : Event -> bool) (a b : Trace) :
  count p (a ++ b) = (count p a + count p b)%nat.
Proof. induction a as [|e a IH]; simpl; [done|]. destruct (p e); lia. Qed.

Lemma count_calm_completion (evs : Trace) :
  forallb calm evs = true -> count is_completion evs = O.
Proof.
  induction evs as [|e evs IH]; simpl; [done|].
  intros [He Hr]%andb_true_iff. unfold calm in He.
  apply andb_true_iff in He as [He _]. apply negb_true_iff in He.
  rewrite He. auto.
Qed.

Lemma count_calm_insert (evs : Trace) :
  forallb calm evs = true -> count is_insert evs = O.
Proof.
  induction evs as [|e evs IH]; simpl; [done|].
  intros [He Hr]%andb_true_iff. unfold calm in He.
  apply andb_true_iff in He as [_ He]. apply negb_true_iff in He.
  rewrite He. auto.
Qed.

Lemma new_events_trace (st st' : State) (evs : Trace) :
  trace st' = trace st ++ evs -> new_events st st' = evs.
Proof. intros H. unfold new_events. rewrite H. by rewrite drop_app_length. Qed.

(** ** Quiet computations *)

Lemma quiet_ret {A} (a : A) : quiet (ret a).
Proof.
  intros st o st' [= <- <-]. split; [done|]. exists []. by rewrite app_nil_r.
Qed.

Lemma quiet_throw {A} (e : JsError) : quiet (throw e : M A).
Proof.
  intros st o st' [= <- <-]. split; [done|]. exists []. by rewrite app_nil_r.
Qed.

Lemma quiet_get_trace : quiet get_trace.
Proof.
  intros st o st' [= <- <-]. split; [done|]. exists []. by rewrite app_nil_r.
Qed.

Lemma quiet_emit (e : Event) : calm e = true -> quiet (emit e).
Proof.
  intros He st o st' [= <- <-]. split; [done|]. exists [e]. simpl.
  by rewrite He.
Qed.

Lemma quiet_bind {A B} (m : M A) (f : A -> M B) :
  quiet m -> (forall a, quiet (f a)) -> quiet (m ≫= f).
Proof.
  intros Hm Hf st o st' H. unfold mbind, M_bind, bind in H.
  destruct (m st) as [[a|e|] st1] eqn:E.
  - destruct (Hm _ _ _ E) as (_ & evs1 & T1 & C1 & D1).
    destruct (Hf a _ _ _ H) as (N2 & evs2 & T2 & C2 & D2).
    split; [done|].
    exists (evs1 ++ evs2). rewrite T2, T1, app_assoc, forallb_app, C1, C2.
    repeat split; congruence.
  - injection H as <- <-. destruct (Hm _ _ _ E) as (_ & Hq). by split.
  - by destruct (Hm _ _ _ E) as (N1 & _).
Qed.

Lemma quiet_try_catch {A} (m : M A) (h : JsError -> M A) :
  quiet m -> (forall e, quiet (h e)) -> quiet (try_catch m h).
Proof.
  intros Hm Hh st o st' H. unfold try_catch in H.
  destruct (m st) as [[a|e|] st1] eqn:E.
  - injection H as <- <-. destruct (Hm _ _ _ E) as (_ & Hq). by split.
  - destruct (Hm _ _ _ E) as (_ & evs1 & T1 & C1 & D1).
    destruct (Hh e _ _ _ H) as (N2 & evs2 & T2 & C2 & D2).
    split; [done|].
    exists (evs1 ++ evs2). rewrite T2, T1, app_assoc, forallb_app, C1, C2.
    repeat split; congruence.
  - by destruct (Hm _ _ _ E) as (N1 & _).
Qed.

Lemma quiet_select_profile env userId columns :
  quiet (select_profile env userId columns).
Proof.
  intros st o st' H. unfold select_profile in H.
  unfold mbind, M_bind, bind, get_trace, emit, get_db, ret in H. simpl in H.
  destruct (env_profile_select_error env (trace st) userId);
    injection H as <- <-; (split; [done|]);
    by exists [EvProfileSelect userId columns].
Qed.

Lemma quiet_update_profile env userId text change :
  quiet (update_profile env userId (EvProfileUpdateText userId text) change).
Proof.
  intros st o st' H. unfold update_profile in H.
  unfold mbind, M_bind, bind, get_trace, emit, get_db, set_db, ret in H.
  simpl in H.
  destruct (env_profile_update_error env (trace st) userId);
    injection H as <- <-; (split; [done|]);
    by exists [EvProfileUpdateText userId text].
Qed.

Lemma quiet_extractResumeText env documentUrl apiKey :
  quiet (extractResumeText env documentUrl apiKey).
Proof.
  unfold extractResumeText.
  destruct (negb (str_truthy documentUrl)); [apply quiet_throw|].
  destruct (negb (opt_truthy apiKey)); [apply quiet_throw|].
  apply quiet_try_catch; [|intros; apply quiet_throw].
  apply quiet_bind; [apply quiet_get_trace|]. intros tr.
  apply quiet_bind; [by apply quiet_emit|]. intros _.
  destruct (env_ocr env tr documentUrl) as [e|msg stt|[pages|]];
    try apply quiet_throw. apply quiet_ret.
Qed.

Lemma quiet_gather env userId request : quiet (gather env userId request).
Proof.
  unfold gather.
  apply quiet_bind; [apply quiet_select_profile|]. intros profile.
  apply quiet_bind.
  { destruct profile as [p|]; [|apply quiet_ret].
    destruct (negb _ && _); [apply quiet_throw | apply quiet_ret]. }
  intros [discoveryData resumeUrl].
  apply quiet_bind; [|intros; apply quiet_ret].
  destruct (opt_truthy resumeUrl); [|apply quiet_ret].
  apply quiet_try_catch; [|intros; apply quiet_ret].
  apply quiet_bind; [apply quiet_extractResumeText|]. intros text.
  apply quiet_bind; [|intros; apply quiet_ret].
  destruct (str_truthy text); [apply quiet_update_profile | apply quiet_ret].
Qed.

(** ** C8: a request without userId *)

Lemma ok_only_200 (r : Response) :
  ok r = true <-> exists recs, r = Ok200 recs.
Proof.
  destruct r; unfold ok; simpl; split; try discriminate; eauto;
    intros [recs H]; discriminate.
Qed.

(** C8, as stated, fails on [getRecommendations]: without a userId (an
    empty or an absent one) it returns the default recommendations, and no
    error reaches the caller. *)
Lemma C8_counterexample :
  getRecommendations (calm_env CompletionNoBody (OcrOk None)) (Some [])
      false (state_of empty_db)
    = (Ret defaultRecommendations, state_of empty_db)
  /\ getRecommendations (calm_env CompletionNoBody (OcrOk None)) None
      false (state_of empty_db)
    = (Ret defaultRecommendations, state_of empty_db).
Proof. split; reflexivity. Qed.

(** C8, amended: the POST handler answers a request without userId with
    the error response of status 400, whose body has the error message and
    no recommendations, and it calls no service; the default
    recommendations are not put in the place of that error by the handler.
    The client function [getRecommendations], called without userId,
    returns the default recommendations and calls no service either. *)
Theorem C8_missing_userId (env : Env) (request : Request)
    (forceRefresh : bool) (st : State) :
  opt_truthy (req_userId request) = false ->
  POST env request st = (Ret (BadRequest (u16 "Missing userId in request")), st)
  /\ status (BadRequest (u16 "Missing userId in request")) = 400
  /\ ok (BadRequest (u16 "Missing userId in request")) = false
  /\ body_recommendations (BadRequest (u16 "Missing userId in request")) = None
  /\ getRecommendations env (req_userId request) forceRefresh st
     = (Ret defaultRecommendations, st).
Proof.
  intros H. repeat split.
  - unfold POST, try_catch. by rewrite H.
  - unfold getRecommendations. by rewrite H.
Qed.

Lemma C8_missing_userId_witness :
  let request := {| req_userId := None; req_resumeUrl := Some (u16 "https://cv") |} in
  let env := calm_env CompletionNoBody (OcrOk None) in
  POST env request (state_of empty_db)
    = (Ret (BadRequest (u16 "Missing userId in request")), state_of empty_db)
  /\ status (BadRequest (u16 "Missing userId in request")) = 400
  /\ ok (BadRequest (u16 "Missing userId in request")) = false
  /\ body_recommendations (BadRequest (u16 "Missing userId in request")) = None
  /\ getRecommendations env (req_userId request) false (state_of empty_db)
     = (Ret defaultRecommendations, state_of empty_db).
Proof.
  apply (C8_missing_userId (calm_env CompletionNoBody (OcrOk None))
           {| req_userId := None; req_resumeUrl := Some (u16 "https://cv") |}
           false (state_of empty_db)).
  reflexivity.
Defined.

(** ** C2: nothing to analyze *)







(** ** The insert loop and the generation step *)

Lemma store_one_run env userId rec st :
  rec <> JNull ->
  exists st',
    store_one env userId rec st = (Ret tt, st')
    /\ trace st' = trace st ++ [EvInsert (payload_of userId rec)].
Proof.
  intros Hrec. unfold store_one, read_member.
  assert (E : forall key,
             match rec with
             | JNull => throw (TypeError "Cannot read properties of null")
             | _ => ret (member rec key)
             end = (ret (member rec key) : M (option JsValue))).
  { intros key. by destruct rec. }
  rewrite !E. unfold insert_recommendation.
  unfold mbind, M_bind, bind, ret, get_trace, emit, get_db, set_db. simpl.
  fold (payload_of userId rec).
  match goal with |- context [if ?b then _ else _] => destruct b end;
    eexists; split; reflexivity.
Qed.

Lemma store_all_run env userId recs st :
  Forall (fun rec => rec <> JNull) recs ->
  exists st',
    store_all env userId recs st = (Ret tt, st')
    /\ trace st' = trace st ++ insert_events userId recs.
Proof.
  intros H. revert st. induction H as [|rec recs Hrec _ IH]; intros st.
  - exists st. split; [done|]. by rewrite app_nil_r.
  - destruct (store_one_run env userId rec st Hrec) as (st1 & R1 & T1).
    destruct (IH st1) as (st2 & R2 & T2).
    exists st2. split.
    + simpl. by rewrite (run_bind_ret _ _ _ _ _ R1).
    + rewrite T2, T1. by rewrite <- app_assoc.
Qed.

Lemma generate_parsed env userId prompt st raw recs :
  env_completion env (trace st) prompt = CompletionContent (Some raw) ->
  parse raw = Parsed recs ->
  Forall (fun rec => rec <> JNull) recs ->
  exists st',
    generate env userId prompt st = (Ret (inr recs), st')
    /\ trace st' = trace st ++ EvCompletion prompt :: insert_events userId recs.
Proof.
  intros Hc Hp Hn.
  destruct (store_all_run env userId recs
              {| db := db st; ui := ui st;
                 trace := trace st ++ [EvCompletion prompt] |} Hn)
    as (st' & R & T).
  exists st'. split.
  - unfold generate, try_catch at 1.
    unfold mbind at 1 2, M_bind at 1 2, bind at 1 2, get_trace, emit.
    simpl. rewrite Hc. unfold try_catch, parse_and_store, read_content.
    unfold mbind at 1 2, M_bind at 1 2, bind at 1 2, ret at 1. simpl.
    rewrite Hp.
    by rewrite (run_bind_ret _ _ _ _ _ R).
  - rewrite T. simpl. by rewrite <- app_assoc.
Qed.

Lemma generate_parse_error env userId prompt st raw r :
  env_completion env (trace st) prompt = CompletionContent (Some raw) ->
  parse raw = ParseError r ->
  generate env userId prompt st
  = (Ret (inr defaultRecommendations),
     {| db := db st; ui := ui st; trace := trace st ++ [EvCompletion prompt] |}).
Proof.
  intros Hc Hp.
  unfold generate, try_catch at 1.
  unfold mbind at 1 2, M_bind at 1 2, bind at 1 2, get_trace, emit.
  simpl. rewrite Hc. unfold try_catch, parse_and_store, read_content.
  unfold mbind, M_bind, bind, ret, throw. simpl.
  by rewrite Hp.
Qed.

Lemma store_all_null env userId good rest st :
  Forall (fun rec => rec <> JNull) good ->
  exists e st',
    store_all env userId (good ++ JNull :: rest) st = (Throw e, st')
    /\ trace st' = trace st ++ insert_events userId good.
Proof.
  intros H. revert st. induction H as [|rec recs Hrec _ IH]; intros st.
  - eexists _, st. split; [reflexivity|]. by rewrite app_nil_r.
  - destruct (store_one_run env userId rec st Hrec) as (st1 & R1 & T1).
    destruct (IH st1) as (e & st2 & R2 & T2).
    exists e, st2. split.
    + simpl. by rewrite (run_bind_ret _ _ _ _ _ R1).
    + rewrite T2, T1. by rewrite <- app_assoc.
Qed.

Lemma generate_null_element env userId prompt st raw good rest :
  env_completion env (trace st) prompt = CompletionContent (Some raw) ->
  parse raw = Parsed (good ++ JNull :: rest) ->
  Forall (fun rec => rec <> JNull) good ->
  exists st',
    generate env userId prompt st = (Ret (inr defaultRecommendations), st')
    /\ trace st' = trace st ++ EvCompletion prompt :: insert_events userId good.
Proof.
  intros Hc Hp Hn.
  destruct (store_all_null env userId good rest
              {| db := db st; ui := ui st;
                 trace := trace st ++ [EvCompletion prompt] |} Hn)
    as (e & st' & R & T).
  exists st'. split.
  - unfold generate, try_catch at 1.
    unfold mbind at 1 2, M_bind at 1 2, bind at 1 2, get_trace, emit.
    simpl. rewrite Hc. unfold try_catch, parse_and_store, read_content.
    unfold mbind at 1 2, M_bind at 1 2, bind at 1 2, ret at 1. simpl.
    rewrite Hp.
    by rewrite (run_bind_throw _ _ _ _ _ R).
  - rewrite T. simpl. by rewrite <- app_assoc.
Qed.

Lemma count_insert_events userId recs :
  count is_insert (insert_events userId recs) = length recs.
Proof. induction recs as [|r recs IH]; simpl; [done|]. by rewrite IH. Qed.

Lemma count_completion_insert_events userId recs :
  count is_completion (insert_events userId recs) = O.
Proof. induction recs as [|r recs IH]; simpl; done. Qed.

(** The handler, once [gather] has returned. *)
Lemma POST_after_gather env request st d t st1 :
  opt_truthy (req_userId request) = true ->
  gather env (default [] (req_userId request)) request st = (Ret (d, t), st1) ->
  POST env request st
  = try_catch
      (if negb (truthy d) && negb (str_truthy t) then
         ret (Ok200 defaultRecommendations)
       else
         r ← generate env (default [] (req_userId request)) (make_prompt d t);
         match r with
         | inl response => ret response
         | inr roleRecommendations => ret (Ok200 roleRecommendations)
         end)
      (fun error => ret (ServerError (u16 "Server error") defaultRecommendations))
      st1.
Proof.
  intros Hu G. unfold POST. rewrite Hu. simpl negb. cbv iota.
  unfold try_catch. by rewrite (run_bind_ret _ _ _ _ _ G).
Qed.

Lemma POST_gather_throws env request st e st1 :
  opt_truthy (req_userId request) = true ->
  gather env (default [] (req_userId request)) request st = (Throw e, st1) ->
  POST env request st
  = (Ret (ServerError (u16 "Server error") defaultRecommendations), st1).
Proof.
  intros Hu G. unfold POST. rewrite Hu. simpl negb. cbv iota.
  unfold try_catch. by rewrite (run_bind_throw _ _ _ _ _ G).
Qed.

(** ** C4: parse errors *)

Lemma parse_error_iff (raw : jsstring) :
  (exists r, parse raw = ParseError r)
  <-> (JSON_parse (repair raw) = None
       \/ exists v, JSON_parse (repair raw) = Some v
                    /\ isArray v = false /\ typeof_object v = false).
Proof.
  unfold parse. destruct (JSON_parse (repair raw)) as [v|].
  - split.
    + intros [r H]. right. exists v. destruct v; simpl in *; done.
    + intros [H|(v' & [= <-] & Ha & Ho)]; [done|].
      exists raw. destruct v; simpl in *; done.
  - split; [by left | by exists raw].
Qed.

Lemma parse_error_raw (raw r : jsstring) : parse raw = ParseError r -> r = raw.
Proof.
  unfold parse. destruct (JSON_parse (repair raw)) as [v|]; [|congruence].
  destruct v; simpl; congruence.
Qed.

(** X7: what the code does: [parse] fails with [ParseError] (which carries the
    raw text) exactly when [JSON.parse] of the repaired text fails or gives
    a value that passes neither [Array.isArray] nor the test
    [typeof v === 'object'].  When the completion text does not parse, the
    handler answers with the default recommendations, attempts no insert
    and leaves the table as it was; and [generateRoleRecommendations]
    returns the defaults. *)
Theorem parse_error_exactly (raw : jsstring) (env : Env) (request : Request)
    (st : State) (discoveryData : option JsValue)
    (resumeText : option jsstring) :
  ((exists r, parse raw = ParseError r)
   <-> (JSON_parse (repair raw) = None
        \/ exists v, JSON_parse (repair raw) = Some v
                     /\ isArray v = false /\ typeof_object v = false))
  /\ ((exists r, parse raw = ParseError r) ->
      opt_truthy (req_userId request) = true ->
      (forall tr p, env_completion env tr p = CompletionContent (Some raw)) ->
      parse raw = ParseError raw
      /\ (exists resp st',
            POST env request st = (Ret resp, st')
            /\ body_recommendations resp = Some defaultRecommendations
            /\ count is_insert (new_events st st') = O
            /\ role_recommendations (db st') = role_recommendations (db st))
      /\ (generateRoleRecommendations env discoveryData resumeText st).1
         = Ret defaultRecommendations).
Proof.
  split; [apply parse_error_iff|].
  intros [r Hp] Hu Hc.
  pose proof (parse_error_raw _ _ Hp) as ->. split; [done|]. split.
  - destruct (gather env (default [] (req_userId request)) request st)
      as [[[d t]|e|] st1] eqn:G;
      destruct (quiet_gather _ _ _ _ _ _ G) as (NF & evs & T & C & D);
      [| |done].
    + rewrite (POST_after_gather _ _ _ _ _ _ Hu G).
      destruct (negb (truthy d) && negb (str_truthy t)).
      * exists (Ok200 defaultRecommendations), st1. repeat split; [|done].
        rewrite (new_events_trace _ _ _ T). by apply count_calm_insert.
      * eexists (Ok200 defaultRecommendations), _. split.
        { unfold try_catch.
          rewrite (run_bind_ret _ _ _ _ _
                     (generate_parse_error env _ _ st1 raw raw (Hc _ _) Hp)).
          reflexivity. }
        split; [done|]. split; [|done].
        erewrite new_events_trace; [|simpl; rewrite T, <- app_assoc; done].
        rewrite count_app, (count_calm_insert _ C). done.
    + rewrite (POST_gather_throws _ _ _ _ _ Hu G).
      eexists _, st1. repeat split; [|done].
      rewrite (new_events_trace _ _ _ T). by apply count_calm_insert.
  - reflexivity.
Qed.

Example prose_falls_back :
  parse prose = ParseError prose
  /\ (exists resp st',
        POST (calm_env (CompletionContent (Some prose)) (OcrOk None))
             request_alice (state_of db_empty_selections) = (Ret resp, st')
        /\ body_recommendations resp = Some defaultRecommendations
        /\ count is_insert (new_events (state_of db_empty_selections) st') = O
        /\ role_recommendations (db st')
           = role_recommendations (db (state_of db_empty_selections)))
  /\ (generateRoleRecommendations
        (calm_env (CompletionContent (Some prose)) (OcrOk None))
        (Some empty_discovery) None (state_of db_empty_selections)).1
     = Ret defaultRecommendations.
Proof.
  apply (parse_error_exactly prose
           (calm_env (CompletionContent (Some prose)) (OcrOk None))
           request_alice (state_of db_empty_selections)
           (Some empty_discovery) None).
  - exists prose. reflexivity.
  - reflexivity.
  - reflexivity.
Defined.

(** The completion endpoint is reached in that run: the fallback comes from
    the parse error, not from an earlier stage. *)
Example prose_reaches_the_endpoint :
  let run := POST (calm_env (CompletionContent (Some prose)) (OcrOk None))
               request_alice (state_of db_empty_selections) in
  run.1 = Ret (Ok200 defaultRecommendations)
  /\ count is_completion (trace run.2) = 1%nat.
Proof. split; reflexivity. Qed.

(** The completion text [null].  [JSON.parse] gives [null], which is
    neither an object nor an array; [typeof null] is ['object'], so the test
    of the source lets it through and the value is wrapped.  The insert
    loop then throws on the null record, before any insert, and the catch
    block of the parser answers with the default set. *)
Example null_is_wrapped :
  let env := calm_env (CompletionContent (Some (u16 "null"))) (OcrOk None) in
  let run := POST env request_alice (state_of db_empty_selections) in
  JSON_parse (repair (u16 "null")) = Some JNull
  /\ isArray JNull = false
  /\ typeof_object JNull = true
  /\ parse (u16 "null") = Parsed [JNull]
  /\ run.1 = Ret (Ok200 defaultRecommendations)
  /\ count is_insert (trace run.2) = O.
Proof. repeat split; reflexivity. Qed.

Lemma null_or_not (recs : list JsValue) :
  Forall (fun rec => rec <> JNull) recs
  \/ exists good rest,
       recs = good ++ JNull :: rest
       /\ Forall (fun rec => rec <> JNull) good.
Proof.
  induction recs as [|rec recs IH]; [by left|].
  assert (Hcase : rec = JNull \/ rec <> JNull) by (destruct rec; auto).
  destruct Hcase as [-> | Hrec].
  - right. by exists [], recs.
  - destruct IH as [IH|(good & rest & -> & Hg)].
    + left. by constructor.
    + right. exists (rec :: good), rest. split; [done|by constructor].
Qed.

(** The insert loop throws exactly when a record is [null]. *)
Lemma store_all_throws env userId recs st :
  (exists e st', store_all env userId recs st = (Throw e, st'))
  <-> JNull ∈ recs.
Proof.
  destruct (null_or_not recs) as [H|(good & rest & -> & Hg)]; split.
  - intros (e & st' & R).
    destruct (store_all_run env userId recs st H) as (st1 & R1 & _).
    congruence.
  - intros Hin. rewrite Forall_forall in H. by destruct (H _ Hin).
  - intros _. apply elem_of_app. right. apply list_elem_of_here.
  - intros _.
    destruct (store_all_null env userId good rest st Hg) as (e & st' & R & _).
    eauto.
Qed.

Lemma parse_and_store_content env userId raw st :
  parse_and_store env userId (CompletionContent (Some raw)) st
  = match parse raw with
    | ParseError _ => throw (Error "Response is not an array or object") st
    | Parsed recs => (store_all env userId recs;; ret recs) st
    end.
Proof.
  unfold parse_and_store, read_content.
  unfold mbind at 1, M_bind at 1, bind at 1, ret at 1.
  by destruct (parse raw).
Qed.

Lemma parsing_fails_iff env userId raw st :
  parsing_fails env userId raw st
  <-> spec_parse_error raw \/ null_element raw.
Proof.
  unfold parsing_fails, spec_parse_error, null_element.
  rewrite parse_and_store_content. unfold parse.
  destruct (JSON_parse (repair raw)) as [v|] eqn:HJ.
  2:{ split; [by auto|]. intros _. by eexists _, _. }
  assert (Hrun : forall recs,
            (exists e st', (store_all env userId recs;; ret recs) st
                           = (Throw e, st'))
            <-> JNull ∈ recs).
  { intros recs. rewrite <- (store_all_throws env userId recs st).
    unfold mbind, M_bind, bind.
    destruct (store_all env userId recs st) as [[[]|e|] st1]; split;
      intros (e' & st' & H); try discriminate; eauto. }
  destruct v as [|b|lit|str|items|members]; cbn [typeof_object].
  - rewrite Hrun. split; [|intros _; apply list_elem_of_here].
    intros _. left. right. by exists JNull.
  - split; [|intros _; by eexists _, _].
    intros _. left. right. by eexists.
  - split; [|intros _; by eexists _, _].
    intros _. left. right. by eexists.
  - split; [|intros _; by eexists _, _].
    intros _. left. right. by eexists.
  - rewrite Hrun. split.
    + intros Hin. right. by exists items.
    + intros [[?|(v & [= <-] & _ & ?)]|(items' & [= <-] & Hin)]; done.
  - rewrite Hrun. split.
    + intros Hin. apply list_elem_of_singleton in Hin. discriminate.
    + intros [[?|(v & [= <-] & ? & _)]|(items' & ? & _)]; done.
Qed.

(** When the strict parse fails in the specification's sense, the block
    throws before it has made a call. *)
Lemma parse_and_store_spec_error env userId raw st :
  spec_parse_error raw ->
  exists e,
    parse_and_store env userId (CompletionContent (Some raw)) st = (Throw e, st).
Proof.
  rewrite parse_and_store_content. unfold parse.
  intros [->|(v & -> & Ho & Ha)]; [by eexists|].
  destruct v; try discriminate; by eexists.
Qed.

Lemma generate_fails env userId prompt st raw e st' :
  env_completion env (trace st) prompt = CompletionContent (Some raw) ->
  parse_and_store env userId (CompletionContent (Some raw))
    {| db := db st; ui := ui st; trace := trace st ++ [EvCompletion prompt] |}
  = (Throw e, st') ->
  generate env userId prompt st = (Ret (inr defaultRecommendations), st').
Proof.
  intros Hc H.
  unfold generate, try_catch at 1.
  unfold mbind at 1 2, M_bind at 1 2, bind at 1 2, get_trace, emit.
  simpl. rewrite Hc. unfold try_catch.
  by rewrite (run_bind_throw _ _ _ _ _ H).
Qed.

(** If the parsing block fails wherever it is run, the response carries the
    default recommendations. *)
Lemma POST_fallback env request st raw :
  opt_truthy (req_userId request) = true ->
  (forall tr p, env_completion env tr p = CompletionContent (Some raw)) ->
  (forall st0, parsing_fails env (default [] (req_userId request)) raw st0) ->
  exists resp,
    (POST env request st).1 = Ret resp
    /\ body_recommendations resp = Some defaultRecommendations.
Proof.
  intros Hu Hc Hfail.
  destruct (gather env (default [] (req_userId request)) request st)
    as [[[d t]|e|] st1] eqn:G;
    destruct (quiet_gather _ _ _ _ _ _ G) as (NF & evs & T & C & D);
    [| |done].
  - rewrite (POST_after_gather _ _ _ _ _ _ Hu G).
    destruct (negb (truthy d) && negb (str_truthy t)).
    + by exists (Ok200 defaultRecommendations).
    + destruct (Hfail {| db := db st1; ui := ui st1;
                         trace := trace st1 ++ [EvCompletion (make_prompt d t)] |})
        as (e & st2 & R).
      exists (Ok200 defaultRecommendations). split; [|done].
      unfold try_catch.
      by rewrite (run_bind_ret _ _ _ _ _
                    (generate_fails env _ _ st1 raw e st2 (Hc _ _) R)).
  - rewrite (POST_gather_throws _ _ _ _ _ Hu G). by eexists.
Qed.

(** If the parsing block throws before it has made a call, the run attempts
    no insert and leaves the stored recommendations as they were. *)
Lemma POST_nothing_stored env request st raw :
  opt_truthy (req_userId request) = true ->
  (forall tr p, env_completion env tr p = CompletionContent (Some raw)) ->
  spec_parse_error raw ->
  count is_insert (new_events st (POST env request st).2) = O
  /\ role_recommendations (db (POST env request st).2)
     = role_recommendations (db st).
Proof.
  intros Hu Hc Hspec.
  destruct (gather env (default [] (req_userId request)) request st)
    as [[[d t]|e|] st1] eqn:G;
    destruct (quiet_gather _ _ _ _ _ _ G) as (NF & evs & T & C & D);
    [| |done].
  - rewrite (POST_after_gather _ _ _ _ _ _ Hu G).
    destruct (negb (truthy d) && negb (str_truthy t)).
    + simpl. split; [|done].
      rewrite (new_events_trace _ _ _ T). by apply count_calm_insert.
    + destruct (parse_and_store_spec_error env
                  (default [] (req_userId request)) raw
                  {| db := db st1; ui := ui st1;
                     trace := trace st1 ++ [EvCompletion (make_prompt d t)] |}
                  Hspec) as (e & R).
      unfold try_catch.
      rewrite (run_bind_ret _ _ _ _ _
                 (generate_fails env _ _ st1 raw e _ (Hc _ _) R)).
      simpl. split; [|done].
      erewrite new_events_trace; [|cbn [trace]; rewrite T, <- app_assoc; done].
      rewrite count_app, (count_calm_insert _ C). done.
  - rewrite (POST_gather_throws _ _ _ _ _ Hu G). simpl. split; [|done].
    rewrite (new_events_trace _ _ _ T). by apply count_calm_insert.
Qed.

(** With a null element among the records, a run that reaches the
    completion endpoint attempts the inserts of the records before the
    first null. *)
Lemma POST_null_element env request st raw good rest :
  opt_truthy (req_userId request) = true ->
  (forall tr p, env_completion env tr p = CompletionContent (Some raw)) ->
  parse raw = Parsed (good ++ JNull :: rest) ->
  Forall (fun rec => rec <> JNull) good ->
  count is_completion (new_events st (POST env request st).2) <> O ->
  count is_insert (new_events st (POST env request st).2) = length good.
Proof.
  intros Hu Hc Hp Hn Hreach.
  destruct (gather env (default [] (req_userId request)) request st)
    as [[[d t]|e|] st1] eqn:G;
    destruct (quiet_gather _ _ _ _ _ _ G) as (NF & evs & T & C & D);
    [| |done].
  - rewrite (POST_after_gather _ _ _ _ _ _ Hu G) in *.
    destruct (negb (truthy d) && negb (str_truthy t)).
    + exfalso. apply Hreach. simpl.
      rewrite (new_events_trace _ _ _ T). by apply count_calm_completion.
    + destruct (generate_null_element env (default [] (req_userId request))
                  (make_prompt d t) st1 raw good rest (Hc _ _) Hp Hn)
        as (st2 & R & T2).
      unfold try_catch in *. rewrite (run_bind_ret _ _ _ _ _ R) in *.
      simpl.
      assert (E : new_events st st2
                  = evs ++ EvCompletion (make_prompt d t)
                        :: insert_events (default [] (req_userId request)) good).
      { apply new_events_trace. rewrite T2, T. by rewrite <- app_assoc. }
      rewrite E, count_app, (count_calm_insert _ C). simpl.
      by rewrite count_insert_events.
  - rewrite (POST_gather_throws _ _ _ _ _ Hu G) in *.
    exfalso. apply Hreach. simpl.
    rewrite (new_events_trace _ _ _ T). by apply count_calm_completion.
Qed.

(** C4, as stated, fails: on the completion text [record_then_null] the
    strict parse of the repaired text succeeds and yields an array, so the
    claim has no parse failure there; yet the parsing block of the handler
    ends in its [catch], the response carries the default set, and the
    record before the null element has been inserted by then: a partly
    accepted batch. *)
Lemma C4_counterexample :
  let raw := record_then_null in
  let env := calm_env (CompletionContent (Some raw)) (OcrOk None) in
  let st := state_of db_empty_selections in
  let run := POST env request_alice st in
  JSON_parse (repair raw)
  = Some (JArr [recommendation "A" "a" "p" "q"; JNull])
  /\ ~ spec_parse_error raw
  /\ parsing_fails env alice raw st
  /\ run.1 = Ret (Ok200 defaultRecommendations)
  /\ count is_insert (new_events st run.2) = 1%nat
  /\ map to_recommendation (role_recommendations (db run.2))
     = [recommendation "A" "a" "p" "q"].
Proof.
  split; [reflexivity|]. split.
  { intros [H|(v & H & Ho & Ha)]; vm_compute in H; [discriminate|].
    injection H as <-. discriminate. }
  split; [by eexists _, _|]. repeat split; reflexivity.
Qed.

(** C4, amended: for every completion text, the parsing block of the
    handler (from the reading of the text to the end of the insert loop)
    ends in its [catch] exactly when the strict parse of the repaired text
    fails, or yields a value that is neither an object nor an array (a
    string, a number, a boolean or [null]), or yields an array that has a
    null element.  On every such failure the response carries the default
    recommendations.  When the strict parse fails or yields a value that is
    neither an object nor an array, no insert is attempted and the stored
    recommendations are left as they were.  When the array has a null
    element, a run that reaches the completion endpoint has attempted, by
    then, one insert for each record before the first null. *)
Theorem C4_parsing_fails_exactly (raw : jsstring) (env : Env)
    (request : Request) (st : State) :
  opt_truthy (req_userId request) = true ->
  (forall tr p, env_completion env tr p = CompletionContent (Some raw)) ->
  let userId : jsstring := default [] (req_userId request) in
  let run := POST env request st in
  (forall st0,
     parsing_fails env userId raw st0
     <-> spec_parse_error raw \/ null_element raw)
  /\ (spec_parse_error raw \/ null_element raw ->
      exists resp,
        run.1 = Ret resp
        /\ body_recommendations resp = Some defaultRecommendations)
  /\ (spec_parse_error raw ->
      count is_insert (new_events st run.2) = O
      /\ role_recommendations (db run.2) = role_recommendations (db st))
  /\ (forall good rest,
        JSON_parse (repair raw) = Some (JArr (good ++ JNull :: rest)) ->
        Forall (fun rec => rec <> JNull) good ->
        count is_completion (new_events st run.2) <> O ->
        count is_insert (new_events st run.2) = length good).
Proof.
  intros Hu Hc userId run.
  split; [intros st0; apply parsing_fails_iff|].
  split; [|split].
  - intros H. apply (POST_fallback env request st raw Hu Hc).
    intros st0. by apply parsing_fails_iff.
  - by apply POST_nothing_stored.
  - intros good rest HJ Hg Hreach.
    apply (POST_null_element env request st raw good rest Hu Hc); [|done..].
    unfold parse. by rewrite HJ.
Qed.

Lemma C4_parsing_fails_exactly_witness :
  let raw := u16 "null" in
  let env := calm_env (CompletionContent (Some raw)) (OcrOk None) in
  let st := state_of db_empty_selections in
  let run := POST env request_alice st in
  (forall st0,
     parsing_fails env alice raw st0
     <-> spec_parse_error raw \/ null_element raw)
  /\ (spec_parse_error raw \/ null_element raw ->
      exists resp,
        run.1 = Ret resp
        /\ body_recommendations resp = Some defaultRecommendations)
  /\ (spec_parse_error raw ->
      count is_insert (new_events st run.2) = O
      /\ role_recommendations (db run.2) = role_recommendations (db st))
  /\ (forall good rest,
        JSON_parse (repair raw) = Some (JArr (good ++ JNull :: rest)) ->
        Forall (fun rec => rec <> JNull) good ->
        count is_completion (new_events st run.2) <> O ->
        count is_insert (new_events st run.2) = length good).
Proof.
  apply (C4_parsing_fails_exactly (u16 "null")
           (calm_env (CompletionContent (Some (u16 "null"))) (OcrOk None))
           request_alice (state_of db_empty_selections)).
  - reflexivity.
  - intros tr p. reflexivity.
Defined.

(** A batch with a null element after a record: the record is stored, the
    loop throws on the null element, and the response is the default set. *)
Example null_element_after_a_record :
  let raw :=
    js "[{'role_title':'A','description':'a','why_it_fits_professionally':'p','why_it_fits_personally':'q'}, null]" in
  let run := POST (calm_env (CompletionContent (Some raw)) (OcrOk None))
               request_alice (state_of db_empty_selections) in
  run.1 = Ret (Ok200 defaultRecommendations)
  /\ length (role_recommendations (db run.2)) = 1%nat.
Proof. split; reflexivity. Qed.

(** ** C7: failed inserts *)

Lemma gather_with_insert_errors f env userId request :
  gather (with_insert_errors f env) userId request = gather env userId request.
Proof. reflexivity. Qed.

Lemma store_one_sim f env userId rec st st' :
  same_but_rows st st' ->
  (store_one (with_insert_errors f env) userId rec st).1
    = (store_one env userId rec st').1
  /\ same_but_rows (store_one (with_insert_errors f env) userId rec st).2
                   (store_one env userId rec st').2.
Proof.
  intros (T & U & P).
  assert (Hcase : rec = JNull \/ rec <> JNull) by (destruct rec; auto).
  destruct Hcase as [-> | Hrec]; [done|].
  unfold store_one, read_member.
  assert (E : forall key,
             match rec with
             | JNull => throw (TypeError "Cannot read properties of null")
             | _ => ret (member rec key)
             end = (ret (member rec key) : M (option JsValue))).
  { intros key. by destruct rec. }
  rewrite !E. unfold insert_recommendation.
  unfold mbind, M_bind, bind, ret, get_trace, emit, get_db, set_db.
  cbn [trace db ui with_insert_errors env_insert_error env_now].
  fold (payload_of userId rec).
  destruct (f (trace st) (payload_of userId rec)),
    (env_insert_error env (trace st') (payload_of userId rec));
    cbn [fst snd trace db ui profiles]; unfold same_but_rows;
    cbn [trace db ui profiles]; rewrite T; done.
Qed.

Lemma store_all_sim f env userId recs st st' :
  same_but_rows st st' ->
  (store_all (with_insert_errors f env) userId recs st).1
    = (store_all env userId recs st').1
  /\ same_but_rows (store_all (with_insert_errors f env) userId recs st).2
                   (store_all env userId recs st').2.
Proof.
  revert st st'. induction recs as [|rec recs IH]; intros st st' H; [done|].
  simpl. unfold mbind, M_bind, bind.
  destruct (store_one_sim f env userId rec st st' H) as (E1 & S1).
  destruct (store_one (with_insert_errors f env) userId rec st) as [o1 s1].
  destruct (store_one env userId rec st') as [o2 s2].
  simpl in E1, S1. subst o2.
  destruct o1 as [[]|e|]; [by apply IH|done|done].
Qed.

Lemma same_but_rows_refl st : same_but_rows st st.
Proof. done. Qed.

Lemma generate_sim f env userId prompt st :
  (generate (with_insert_errors f env) userId prompt st).1
    = (generate env userId prompt st).1
  /\ same_but_rows (generate (with_insert_errors f env) userId prompt st).2
                   (generate env userId prompt st).2.
Proof.
  unfold generate, try_catch, parse_and_store, read_content.
  unfold mbind, M_bind, bind, get_trace, emit, ret, throw.
  cbn [trace db ui with_insert_errors env_completion].
  set (st0 := {| db := db st; ui := ui st;
                 trace := trace st ++ [EvCompletion prompt] |}).
  destruct (env_completion env (trace st) prompt) as [e| | |[content|]];
    try done.
  destruct (parse content) as [recs|raw]; [|done].
  destruct (store_all_sim f env userId recs st0 st0 (same_but_rows_refl st0))
    as (E & S).
  destruct (store_all (with_insert_errors f env) userId recs st0) as [o1 s1].
  destruct (store_all env userId recs st0) as [o2 s2].
  simpl in E, S. subst o2. by destruct o1 as [[]|e|].
Qed.

(** The answers of the store to the inserts change neither the response of
    the handler nor the calls that it makes. *)
Lemma POST_insert_errors f env request st :
  (POST (with_insert_errors f env) request st).1 = (POST env request st).1
  /\ trace (POST (with_insert_errors f env) request st).2
     = trace (POST env request st).2.
Proof.
  unfold POST.
  destruct (negb (opt_truthy (req_userId request))); [done|].
  unfold try_catch, mbind, M_bind, bind.
  rewrite gather_with_insert_errors.
  destruct (gather env (default [] (req_userId request)) request st)
    as [[[d t]|e|] st1]; [|done|done].
  destruct (negb (truthy d) && negb (str_truthy t)); [done|].
  destruct (generate_sim f env (default [] (req_userId request))
              (make_prompt d t) st1) as (E & T & _).
  destruct (generate (with_insert_errors f env) _ _ st1) as [o1 s1].
  destruct (generate env _ _ st1) as [o2 s2].
  simpl in E, T. subst o2. by destruct o1 as [[r|r]|e|].
Qed.

(** The records that a run parsed from the completion are returned, and
    one insert per record is attempted, in order, after the completion
    call. *)
Lemma parsed_records_returned (env : Env) (request : Request)
    (st : State) (raw : jsstring) (recs : list JsValue)
    (o : Outcome Response) (st' : State) :
  opt_truthy (req_userId request) = true ->
  (forall tr p, env_completion env tr p = CompletionContent (Some raw)) ->
  parse raw = Parsed recs ->
  Forall (fun rec => rec <> JNull) recs ->
  POST env request st = (o, st') ->
  count is_completion (new_events st st') <> O ->
  o = Ret (Ok200 recs)
  /\ (exists evs p,
        new_events st st'
        = evs ++ EvCompletion p
              :: insert_events (default [] (req_userId request)) recs
        /\ forallb calm evs = true)
  /\ count is_insert (new_events st st') = length recs.
Proof.
  intros Hu Hc Hp Hn HP Hreach.
  destruct (gather env (default [] (req_userId request)) request st)
    as [[[d t]|e|] st1] eqn:G;
    destruct (quiet_gather _ _ _ _ _ _ G) as (NF & evs & T & C & D);
    [| |done].
  - rewrite (POST_after_gather _ _ _ _ _ _ Hu G) in HP.
    destruct (negb (truthy d) && negb (str_truthy t)).
    + injection HP as <- <-.
      rewrite (new_events_trace _ _ _ T) in Hreach.
      by rewrite (count_calm_completion _ C) in Hreach.
    + destruct (generate_parsed env (default [] (req_userId request))
                  (make_prompt d t) st1 raw recs (Hc _ _) Hp Hn)
        as (st2 & R & T2).
      unfold try_catch in HP. rewrite (run_bind_ret _ _ _ _ _ R) in HP.
      injection HP as <- <-.
      assert (E : new_events st st2
                  = evs ++ EvCompletion (make_prompt d t)
                        :: insert_events (default [] (req_userId request)) recs).
      { apply new_events_trace. rewrite T2, T. by rewrite <- app_assoc. }
      split; [done|]. split; [by eauto|].
      rewrite E, count_app, (count_calm_insert _ C). simpl.
      by rewrite count_insert_events.
  - rewrite (POST_gather_throws _ _ _ _ _ Hu G) in HP.
    injection HP as <- <-.
    rewrite (new_events_trace _ _ _ T) in Hreach.
    by rewrite (count_calm_completion _ C) in Hreach.
Qed.

(** C7: the answers of the store to the inserts change neither the response
    of the handler nor the calls it makes: under any other pattern [f] of
    failing inserts the same inserts are attempted and the same response is
    given.  In particular a run that reaches the completion endpoint and
    parses its answer into records attempts one insert per record, in
    order, and responds with exactly the parsed records, whichever inserts
    fail. *)
Theorem C7_insert_failures_ignored (env : Env)
    (f : Trace -> InsertPayload -> bool) (request : Request)
    (st : State) (raw : jsstring) (recs : list JsValue) :
  ((POST (with_insert_errors f env) request st).1 = (POST env request st).1
   /\ trace (POST (with_insert_errors f env) request st).2
      = trace (POST env request st).2)
  /\ (opt_truthy (req_userId request) = true ->
      (forall tr p, env_completion env tr p = CompletionContent (Some raw)) ->
      parse raw = Parsed recs ->
      Forall (fun rec => rec <> JNull) recs ->
      count is_completion (new_events st (POST env request st).2) <> O ->
      (POST (with_insert_errors f env) request st).1 = Ret (Ok200 recs)
      /\ count is_insert
           (new_events st (POST (with_insert_errors f env) request st).2)
         = length recs
      /\ exists evs p,
           new_events st (POST (with_insert_errors f env) request st).2
           = evs ++ EvCompletion p
                 :: insert_events (default [] (req_userId request)) recs
           /\ forallb calm evs = true).
Proof.
  destruct (POST_insert_errors f env request st) as (E1 & E2).
  split; [done|].
  intros Hu Hc Hp Hn Hreach.
  destruct (POST env request st) as [o st'] eqn:HP.
  destruct (parsed_records_returned env request st raw recs o st'
              Hu Hc Hp Hn HP Hreach) as (Ho & Hev & Hcount).
  simpl in E1, E2, Hreach.
  assert (Hnew : new_events st (POST (with_insert_errors f env) request st).2
                 = new_events st st').
  { unfold new_events. by rewrite E2. }
  rewrite Hnew, E1. done.
Qed.

Lemma C7_insert_failures_ignored_witness :
  let env := calm_env (CompletionContent (Some three_roles)) (OcrOk None) in
  let failing := with_insert_errors (fun _ _ => true) env in
  (POST failing request_alice (state_of db_empty_selections)).1
    = Ret (Ok200 (parsed_of three_roles))
  /\ count is_insert
       (new_events (state_of db_empty_selections)
          (POST failing request_alice (state_of db_empty_selections)).2)
     = length (parsed_of three_roles)
  /\ exists evs p,
       new_events (state_of db_empty_selections)
         (POST failing request_alice (state_of db_empty_selections)).2
       = evs ++ EvCompletion p :: insert_events alice (parsed_of three_roles)
       /\ forallb calm evs = true.
Proof.
  apply (C7_insert_failures_ignored
           (calm_env (CompletionContent (Some three_roles)) (OcrOk None))
           (fun _ _ => true) request_alice (state_of db_empty_selections)
           three_roles (parsed_of three_roles)).
  - reflexivity.
  - reflexivity.
  - reflexivity.
  - repeat constructor; discriminate.
  - vm_compute. discriminate.
Defined.

(** With every insert refused nothing is stored, and the three parsed
    records are returned all the same. *)
Example all_inserts_fail :
  let env := failing_store_env (CompletionContent (Some three_roles)) in
  let run := POST env request_alice (state_of db_empty_selections) in
  role_recommendations (db run.2) = []
  /\ length (parsed_of three_roles) = 3%nat
  /\ run.1 = Ret (Ok200 (parsed_of three_roles)).
Proof. repeat split; reflexivity. Qed.

(** ** Runs that reach the completion endpoint *)

Lemma store_one_trace env userId rec st o st' :
  store_one env userId rec st = (o, st') ->
  o <> OutOfFuel
  /\ exists evs, trace st' = trace st ++ evs /\ count is_completion evs = O.
Proof.
  intros H.
  assert (Hcase : rec = JNull \/ rec <> JNull) by (destruct rec; auto).
  destruct Hcase as [-> | Hrec].
  - injection H as <- <-. split; [done|]. exists []. by rewrite app_nil_r.
  - destruct (store_one_run env userId rec st Hrec) as (st2 & R & T).
    rewrite R in H. injection H as <- <-. split; [done|]. by eexists [_].
Qed.

Lemma store_all_trace env userId recs st o st' :
  store_all env userId recs st = (o, st') ->
  o <> OutOfFuel
  /\ exists evs, trace st' = trace st ++ evs /\ count is_completion evs = O.
Proof.
  revert st. induction recs as [|rec recs IH]; intros st H.
  - injection H as <- <-. split; [done|]. exists []. by rewrite app_nil_r.
  - simpl in H. unfold mbind, M_bind, bind in H.
    destruct (store_one env userId rec st) as [[[]|e|] st1] eqn:E1;
      destruct (store_one_trace _ _ _ _ _ _ E1) as (N1 & evs1 & T1 & C1);
      [| |done].
    + destruct (IH _ H) as (N2 & evs2 & T2 & C2). split; [done|].
      exists (evs1 ++ evs2). rewrite T2, T1, count_app, C1, C2.
      by rewrite <- app_assoc.
    + injection H as <- <-. split; [done|]. by exists evs1.
Qed.

Lemma generate_calls_endpoint env userId prompt st o st' :
  generate env userId prompt st = (o, st') ->
  (exists r, o = Ret r)
  /\ exists evs, trace st' = trace st ++ EvCompletion prompt :: evs
                 /\ count is_completion evs = O.
Proof.
  unfold generate, try_catch at 1.
  unfold mbind at 1 2, M_bind at 1 2, bind at 1 2, get_trace, emit.
  cbn [trace db ui].
  set (st0 := {| db := db st; ui := ui st;
                 trace := trace st ++ [EvCompletion prompt] |}).
  assert (Base0 : exists evs,
            trace st0 = trace st ++ EvCompletion prompt :: evs
            /\ count is_completion evs = O) by (by exists []).
  destruct (env_completion env (trace st) prompt) as [e| | |[content|]];
    unfold try_catch, parse_and_store, read_content;
    unfold mbind, M_bind, bind, ret, throw; cbn beta iota zeta;
    try (intros [= <- <-]; split; [by eexists | exact Base0]).
  destruct (parse content) as [recs|raw].
  - destruct (store_all env userId recs st0) as [[[]|e|] st1] eqn:E;
      destruct (store_all_trace _ _ _ _ _ _ E) as (N1 & evs & T & C);
      [| |done];
      intros [= <- <-]; (split; [by eexists|]);
      exists evs; rewrite T; subst st0; cbn [trace];
      by rewrite <- app_assoc.
  - intros [= <- <-]. split; [by eexists | exact Base0].
Qed.

(** The other side of C2: a run in which [gather] returns discovery data or
    a resume text calls the completion endpoint, once. *)
Lemma signal_reaches_endpoint env request st d t st1 :
  opt_truthy (req_userId request) = true ->
  gather env (default [] (req_userId request)) request st = (Ret (d, t), st1) ->
  truthy d || str_truthy t = true ->
  exists resp st',
    POST env request st = (Ret resp, st')
    /\ count is_completion (new_events st st') = 1%nat.
Proof.
  intros Hu G Hsig.
  destruct (quiet_gather _ _ _ _ _ _ G) as (_ & evs & T & C & _).
  rewrite (POST_after_gather _ _ _ _ _ _ Hu G).
  replace (negb (truthy d) && negb (str_truthy t)) with false
    by (by destruct (truthy d), (str_truthy t)).
  unfold try_catch, mbind, M_bind, bind.
  destruct (generate env (default [] (req_userId request)) (make_prompt d t) st1)
    as [o st2] eqn:E.
  destruct (generate_calls_endpoint _ _ _ _ _ _ E) as ([r ->] & evs2 & T2 & C2).
  assert (Hc : count is_completion (new_events st st2) = 1%nat).
  { erewrite new_events_trace; [|rewrite T2, T, <- app_assoc; reflexivity].
    rewrite count_app, (count_calm_completion _ C). simpl. by rewrite C2. }
  destruct r as [resp|recs]; eexists _, st2; split; try reflexivity; done.
Qed.

(** ** C6: what a successful parse returns *)

(** C6, as stated, fails: the text [[{"role_title": null}]] parses, and the
    one record returned has a null title and lacks the other three fields;
    the handler stores it and returns it. *)
Lemma C6_counterexample :
  let rec := JObj [ (u16 "role_title", JNull) ] in
  parse title_only = Parsed [rec]
  /\ is_record rec = false
  /\ (POST (calm_env (CompletionContent (Some title_only)) (OcrOk None))
           request_alice (state_of db_empty_selections)).1
     = Ret (Ok200 [rec]).
Proof. repeat split; reflexivity. Qed.

(** C6, amended: when [parse] succeeds, the records returned are exactly
    the elements of the parsed array, or the single parsed value when it is
    not an array, in order, none rejected and none changed.  The parser does
    not look at the four fields: all returned records have them as strings
    exactly when all parsed elements do. *)
Theorem C6_parsed_unvalidated (raw : jsstring) (recs : list JsValue) :
  parse raw = Parsed recs ->
  exists v,
    JSON_parse (repair raw) = Some v
    /\ (isArray v = true \/ typeof_object v = true)
    /\ recs = elements v
    /\ forallb is_record recs = forallb is_record (elements v).
Proof.
  unfold parse. destruct (JSON_parse (repair raw)) as [v|]; [|discriminate].
  intros H. exists v. split; [done|].
  assert (E : (isArray v = true \/ typeof_object v = true)
              /\ recs = elements v).
  { destruct v; simpl in *; try discriminate;
      injection H as <-; split; auto. }
  destruct E as [E ->]. done.
Qed.

Lemma C6_parsed_unvalidated_witness :
  exists v,
    JSON_parse (repair title_only) = Some v
    /\ (isArray v = true \/ typeof_object v = true)
    /\ [JObj [ (u16 "role_title", JNull) ]] = elements v
    /\ forallb is_record [JObj [ (u16 "role_title", JNull) ]]
       = forallb is_record (elements v).
Proof.
  apply (C6_parsed_unvalidated title_only [JObj [ (u16 "role_title", JNull) ]]).
  reflexivity.
Defined.

(** The records the model was asked for do come back as records. *)
Example three_roles_are_records :
  forallb is_record (parsed_of three_roles) = true
  /\ length (parsed_of three_roles) = 3%nat.
Proof. split; reflexivity. Qed.

(** ** C1: the cache check *)

#[local] Instance newer_first_trans : Transitive newer_first.
Proof. intros a b c. unfold newer_first. lia. Qed.

#[local] Instance newer_first_total : Total newer_first.
Proof. intros a b. unfold newer_first. lia. Qed.

Lemma recent_rows_length userId rows :
  length (recent_rows userId rows)
  = (3 `min` length (filter (fun r => row_user_id r = userId) rows))%nat.
Proof.
  unfold recent_rows. rewrite length_take.
  by rewrite (Permutation_length (merge_sort_Permutation _ _)).
Qed.






(** Of the four rows of the user the three newest are returned, newest
    first; the row of the other user is not. *)
Example cached_rows_returned :
  (getRecommendations
     (calm_env (CompletionContent (Some three_roles)) (OcrOk None))
     (Some alice) false (state_of db_cached)).1
  = Ret (map to_recommendation
           [ row alice 40 "Newest"; row alice 30 "Second"; row alice 20 "Third" ]).
Proof. reflexivity. Qed.

(** With [forceRefresh = true] the same call goes to the handler. *)
Example forced_refresh_skips_the_cache :
  count (fun e => match e with EvApiFetch _ _ => true | _ => false end)
    (trace (getRecommendations
              (calm_env (CompletionContent (Some three_roles)) (OcrOk None))
              (Some alice) true (state_of db_cached)).2)
  = 1%nat.
Proof. reflexivity. Qed.

(** ** C5: the array pattern *)

Arguments ch _ : simpl never.
Arguments N.eqb _ _ : simpl never.

Lemma star_match_sound p k s r :
  star_match p k s = Some r ->
  exists w t, s = w ++ t /\ Forall (fun c => p c = true) w /\ k t = Some r.
Proof.
  revert r. induction s as [|c s IH]; intros r H; simpl in H.
  - exists [], []. done.
  - destruct (p c) eqn:Hc.
    + destruct (star_match p k s) as [r'|] eqn:Hs.
      * injection H as ->. destruct (IH _ eq_refl) as (w & t & -> & Hw & Hk).
        exists (c :: w), t. repeat split; [|done]. by constructor.
      * exists [], (c :: s). done.
    + exists [], (c :: s). done.
Qed.

(** A star over white space before something that no white space starts:
    all the white space is taken. *)
Lemma star_space_skip k w t :
  Forall (fun c => is_space c = true) w ->
  (forall c t', is_space c = true -> k (c :: t') = None) ->
  star_match is_space k (w ++ t) = star_match is_space k t.
Proof.
  intros Hw Hk. induction Hw as [|c w Hc _ IH]; simpl; [done|].
  rewrite Hc, IH. destruct (star_match is_space k t); [done|]. by apply Hk.
Qed.

(** The greedy star over every code unit keeps the last place where the
    rest of the pattern matches. *)
Lemma star_any_keeps_last k a b r :
  star_match any_unit k b = Some r ->
  star_match any_unit k (a ++ b) = Some r.
Proof.
  intros H. induction a as [|c a IH]; [done|]. simpl. by rewrite IH.
Qed.

Lemma star_any_none k s :
  (forall a t, s = a ++ t -> k t = None) ->
  star_match any_unit k s = None.
Proof.
  induction s as [|c s IH]; intros H; simpl.
  - by apply (H []).
  - rewrite IH; [by apply (H [])|].
    intros a t ->. by apply (H (c :: a)).
Qed.

Lemma closing_sound t r :
  match_here closing_re t = Some r ->
  exists w, t = [ch "}"] ++ w ++ [ch "]"] ++ r
            /\ Forall (fun c => is_space c = true) w.
Proof.
  unfold closing_re. simpl. destruct t as [|c t]; [done|].
  destruct (ch "}" =? c) eqn:Hc; [|done].
  apply N.eqb_eq in Hc as <-. intros H.
  apply star_match_sound in H as (w & t' & -> & Hw & H).
  destruct t' as [|d t']; [done|].
  destruct (ch "]" =? d) eqn:Hd; [|done].
  apply N.eqb_eq in Hd as <-. injection H as ->.
  by exists w.
Qed.

Lemma space_is_not (x c : N) :
  is_space x = false -> is_space c = true -> (x =? c) = false.
Proof. intros Hx Hc. apply N.eqb_neq. intros ->. congruence. Qed.

Lemma closing_complete w post :
  Forall (fun c => is_space c = true) w ->
  match_here closing_re ([ch "}"] ++ w ++ [ch "]"] ++ post) = Some post.
Proof.
  intros Hw. unfold closing_re. simpl. rewrite ?N.eqb_refl.
  rewrite star_space_skip; [|done|].
  - simpl. change (is_space (ch "]")) with false. cbv iota.
    by rewrite ?N.eqb_refl.
  - intros c t' Hc. simpl. by rewrite (space_is_not (ch "]") c).
Qed.

(** Two ways to cut one text, at [x] and at [y]: when only units
    satisfying [P] come before [x], and [y] neither satisfies [P] nor is
    [x], then [y] comes after [x]. *)
Lemma cut_after (P : N -> Prop) w x b a y t :
  w ++ x :: b = a ++ y :: t ->
  Forall P w -> ~ P y -> x <> y ->
  exists a', a = w ++ x :: a' /\ b = a' ++ y :: t.
Proof.
  intros E Hw Hy Hxy. revert a E.
  induction Hw as [|c w Hc _ IH]; intros a E.
  - destruct a as [|z a]; simpl in E; injection E as -> E; [done|].
    by exists a.
  - destruct a as [|z a]; simpl in E; injection E as -> E; [done|].
    destruct (IH a E) as (a' & -> & ->). by exists a'.
Qed.

Lemma cut_before (P : N -> Prop) w x b a y t :
  w ++ x :: b = a ++ y :: t ->
  Forall P w -> ~ P y -> x <> y ->
  exists b', a = w ++ x :: b'.
Proof.
  intros E Hw Hy Hxy.
  destruct (cut_after P w x b a y t E Hw Hy Hxy) as (a' & -> & _).
  by exists a'.
Qed.

Lemma closing_fails_after w post a t :
  Forall (fun c => is_space c = true) w ->
  no_closing post ->
  w ++ [ch "]"] ++ post = a ++ t ->
  match_here closing_re t = None.
Proof.
  intros Hw Hpost E.
  destruct (match_here closing_re t) as [r|] eqn:Hm; [|done].
  apply closing_sound in Hm as (w' & -> & Hw').
  exfalso.
  destruct (cut_after (fun c => is_space c = true) w (ch "]") post a
              (ch "}") (w' ++ [ch "]"] ++ r) E Hw) as (a' & _ & Ep);
    [done | done |].
  apply Hpost. by exists a', w', r.
Qed.

(** The array pattern matched at an opening: the match runs to the last
    closing. *)
Lemma array_re_at_opening ws1 mid ws2 post :
  Forall (fun c => is_space c = true) ws1 ->
  Forall (fun c => is_space c = true) ws2 ->
  no_closing post ->
  match_here array_re
    ([ch "["] ++ ws1 ++ [ch "{"] ++ mid ++ [ch "}"] ++ ws2 ++ [ch "]"] ++ post)
  = Some post.
Proof.
  intros H1 H2 Hpost. unfold array_re. simpl. rewrite ?N.eqb_refl.
  rewrite star_space_skip; [|done|].
  2:{ intros c t' Hc. simpl. by rewrite (space_is_not (ch "{") c). }
  simpl. change (is_space (ch "{")) with false. cbv iota.
  rewrite ?N.eqb_refl.
  change (star_match any_unit ?k ?s)
    with (star_match any_unit (match_here closing_re) s).
  apply star_any_keeps_last. simpl.
  rewrite star_any_none.
  - apply (closing_complete ws2 post H2).
  - intros a t E. by apply (closing_fails_after ws2 post a t).
Qed.

Lemma array_re_sound t r :
  match_here array_re t = Some r ->
  exists w b, t = [ch "["] ++ w ++ [ch "{"] ++ b
              /\ Forall (fun c => is_space c = true) w.
Proof.
  unfold array_re. simpl. destruct t as [|c t]; [done|].
  destruct (ch "[" =? c) eqn:Hc; [|done].
  apply N.eqb_eq in Hc as <-. intros H.
  apply star_match_sound in H as (w & t' & -> & Hw & H).
  destruct t' as [|d t']; [done|].
  destruct (ch "{" =? d) eqn:Hd; [|done].
  apply N.eqb_eq in Hd as <-.
  by exists w, t'.
Qed.

(** No match starts inside a prefix without opening, when the text after the
    prefix starts with a square bracket. *)
Lemma array_re_fails_before pre1 pre2 rest :
  no_opening (pre1 ++ pre2) ->
  pre2 <> [] ->
  match_here array_re (pre2 ++ [ch "["] ++ rest) = None.
Proof.
  intros Hpre Hne.
  destruct (match_here array_re (pre2 ++ [ch "["] ++ rest)) as [r|] eqn:Hm;
    [|done].
  exfalso. apply array_re_sound in Hm as (w & b & E & Hw).
  destruct pre2 as [|x pre2]; [done|].
  simpl in E. injection E as -> E. symmetry in E.
  destruct (cut_before (fun c => is_space c = true) w (ch "{") b pre2
              (ch "[") rest E Hw) as (b' & ->); [done | done |].
  apply Hpre. by exists pre1, w, b'.
Qed.

Lemma exec_from_skip r acc pre rest :
  (forall pre1 pre2, pre = pre1 ++ pre2 -> pre2 <> [] ->
     match_here r (pre2 ++ rest) = None) ->
  exec_from r acc (pre ++ rest) = exec_from r (rev pre ++ acc) rest.
Proof.
  revert acc. induction pre as [|c pre IH]; intros acc H; [done|].
  simpl. pose proof (H [] (c :: pre) eq_refl) as H0. simpl in H0.
  rewrite H0; [|done].
  rewrite IH.
  - by rewrite <- app_assoc.
  - intros pre1 pre2 -> Hne. by apply (H (c :: pre1)).
Qed.

Lemma exec_from_here r acc s rest :
  match_here r s = Some rest ->
  exec_from r acc s = Some (rev acc, take (length s - length rest) s, rest).
Proof. intros H. destruct s; simpl; by rewrite H. Qed.

(** C5, as stated, fails: in a text with two arrays of objects the
    parser's pattern runs from the first opening to the last closing, and
    what is kept is not the first balanced span; [JSON.parse] then rejects
    it, while it accepts the balanced span. *)
Lemma C5_counterexample :
  balanced_array_span two_arrays = Some (js "[{'a':1}]")
  /\ extract_array two_arrays = two_arrays
  /\ extract_array two_arrays <> spec_extract_array two_arrays
  /\ JSON_parse (extract_array two_arrays) = None
  /\ JSON_parse (spec_extract_array two_arrays)
     = Some (JArr [JObj [ (u16 "a", JNum (u16 "1")) ]]).
Proof. repeat split; try reflexivity. discriminate. Qed.

(** C5, amended: repair step 3 keeps the text from the first opening
    square bracket that is followed, after white space only, by an opening
    brace, up to the last closing square bracket that is preceded, after
    white space only, by a closing brace; the text before and after is
    discarded.  The brackets in between are not counted. *)
Theorem C5_first_opening_to_last_closing
    (pre ws1 mid ws2 post : jsstring) :
  no_opening pre ->
  Forall (fun c => is_space c = true) ws1 ->
  Forall (fun c => is_space c = true) ws2 ->
  no_closing post ->
  extract_array
    (pre ++ [ch "["] ++ ws1 ++ [ch "{"] ++ mid
         ++ [ch "}"] ++ ws2 ++ [ch "]"] ++ post)
  = [ch "["] ++ ws1 ++ [ch "{"] ++ mid ++ [ch "}"] ++ ws2 ++ [ch "]"].
Proof.
  intros Hpre H1 H2 Hpost.
  set (span := [ch "["] ++ ws1 ++ [ch "{"] ++ mid ++ [ch "}"] ++ ws2 ++ [ch "]"]).
  assert (Es : [ch "["] ++ ws1 ++ [ch "{"] ++ mid
                 ++ [ch "}"] ++ ws2 ++ [ch "]"] ++ post = span ++ post).
  { unfold span. by rewrite <- !app_assoc. }
  pose proof (array_re_at_opening ws1 mid ws2 post H1 H2 Hpost) as Hm.
  unfold extract_array, str_match, exec.
  rewrite exec_from_skip.
  - rewrite (exec_from_here _ _ _ _ Hm). rewrite Es.
    rewrite length_app, Nat.add_sub. by rewrite take_app_length.
  - intros pre1 pre2 -> Hne.
    change ([ch "["] ++ ws1 ++ ?t) with ([ch "["] ++ (ws1 ++ t)).
    by apply (array_re_fails_before pre1 pre2).
Qed.

Lemma trimStart_spaces w x b :
  Forall (fun c => is_space c = true) w ->
  is_space x = false ->
  trimStart (w ++ x :: b) = x :: b.
Proof.
  intros Hw Hx. induction Hw as [|c w Hc _ IH]; simpl.
  - by rewrite Hx.
  - by rewrite Hc.
Qed.

Lemma has_opening_false s : has_opening s = false -> no_opening s.
Proof.
  intros H (a & w & b & -> & Hw). revert H.
  induction a as [|x a IH]; simpl.
  - rewrite ?N.eqb_refl, trimStart_spaces; [|done|done].
    simpl. by rewrite ?N.eqb_refl.
  - intros [_ H]%orb_false_iff. by apply IH.
Qed.

Lemma has_closing_false s : has_closing s = false -> no_closing s.
Proof.
  intros H (a & w & b & -> & Hw). revert H.
  induction a as [|x a IH]; simpl.
  - rewrite ?N.eqb_refl, trimStart_spaces; [|done|done].
    simpl. by rewrite ?N.eqb_refl.
  - intros [_ H]%orb_false_iff. by apply IH.
Qed.

Lemma C5_first_opening_to_last_closing_witness :
  extract_array
    (u16 "See [1]: " ++ [ch "["] ++ [32] ++ [ch "{"] ++ js "'a':[1]},{'b':2"
       ++ [ch "}"] ++ [LF] ++ [ch "]"] ++ u16 " Done {}.")
  = [ch "["] ++ [32] ++ [ch "{"] ++ js "'a':[1]},{'b':2"
       ++ [ch "}"] ++ [LF] ++ [ch "]"].
Proof.
  apply (C5_first_opening_to_last_closing
           (u16 "See [1]: ") [32] (js "'a':[1]},{'b':2") [LF]
           (u16 " Done {}.")).
  - apply has_opening_false. reflexivity.
  - repeat constructor.
  - repeat constructor.
  - apply has_closing_false. reflexivity.
Defined.

Lemma exec_from_none r s :
  (forall pre1 pre2, s = pre1 ++ pre2 -> match_here r pre2 = None) ->
  forall acc, exec_from r acc s = None.
Proof.
  induction s as [|c s IH]; intros G acc; simpl.
  - by rewrite (G [] [] eq_refl).
  - rewrite (G [] (c :: s) eq_refl). apply IH.
    intros pre1 pre2 ->. by apply (G (c :: pre1)).
Qed.

(** A text without opening is left as it is. *)
Lemma extract_array_unchanged (s : jsstring) :
  no_opening s -> extract_array s = s.
Proof.
  intros Hs. unfold extract_array, str_match, exec.
  rewrite exec_from_none; [done|].
  intros pre1 pre2 ->.
  destruct (match_here array_re pre2) as [r|] eqn:Hm; [|done].
  exfalso. apply array_re_sound in Hm as (w & b & -> & Hw).
  apply Hs. by exists pre1, w, b.
Qed.

(** ** C3: the retry of the upload *)

Lemma upload_once_throws env user notify file st e :
  (env_upload_file env (trace st) (upload_path env user file st)
     = StorageError e
   \/ env_upload_file env (trace st) (upload_path env user file st)
     = StorageThrows e) ->
  upload_once env user notify file st
  = (Throw e,
     {| db := db st; ui := ui st;
        trace := trace st ++ [EvUploadFile (upload_path env user file st) file] |}).
Proof.
  intros H. unfold upload_once, upload_path in *.
  unfold mbind, M_bind, bind, get_trace, emit. cbn [trace db ui].
  by destruct H as [-> | ->].
Qed.

Lemma provision_runs env user st :
  (forall tr p, answer_throws (env_upload_placeholder env tr p) = false) ->
  (forall tr p, answer_throws (env_remove env tr p) = false) ->
  provision env user st
  = (Ret tt,
     {| db := db st; ui := ui st;
        trace := (trace st ++ [EvUploadPlaceholder (placeholder_path user)])
                 ++ [EvRemove (placeholder_path user)] |}).
Proof.
  intros Hp Hr. unfold provision, placeholder_path.
  unfold mbind, M_bind, bind, get_trace, emit. cbn [trace db ui].
  match goal with
  | |- context [env_upload_placeholder env ?tr ?p] =>
      pose proof (Hp tr p) as Hp';
      destruct (env_upload_placeholder env tr p); [| |done]
  end;
  cbn [unchecked ret trace db ui];
  match goal with
  | |- context [env_remove env ?tr ?p] =>
      pose proof (Hr tr p) as Hr';
      destruct (env_remove env tr p); [| |done]
  end; reflexivity.
Qed.

Lemma try_rethrow {A} (m : M A) st :
  try_catch m (fun e => throw e) st = m st.
Proof. unfold try_catch, throw. by destruct (m st) as [[?|?|] ?]. Qed.

Lemma attempt_not_found fuel env user notify file st :
  answer_not_found
    (env_upload_file env (trace st) (upload_path env user file st)) = true ->
  (forall tr p, answer_throws (env_upload_placeholder env tr p) = false) ->
  (forall tr p, answer_throws (env_remove env tr p) = false) ->
  uploadFile (S fuel) env (Some user) notify file st
  = uploadFile fuel env (Some user) notify file
      (after_failed_attempt env user file st).
Proof.
  intros Hnf Hp Hr. cbn [uploadFile].
  erewrite run_bind_ret by reflexivity.
  erewrite run_bind_ret by reflexivity.
  assert (exists e,
            (env_upload_file env (trace st) (upload_path env user file st)
               = StorageError e
             \/ env_upload_file env (trace st) (upload_path env user file st)
               = StorageThrows e)
            /\ is_not_found e = true) as (e & He & Hnf').
  { destruct (env_upload_file env (trace st) (upload_path env user file st))
      as [|e|e]; [done| |]; exists e; auto. }
  erewrite run_try_throw.
  2:{ apply upload_once_throws. cbn [trace]. exact He. }
  rewrite Hnf'. rewrite try_rethrow.
  erewrite run_bind_ret by (by apply provision_runs).
  cbn [trace db ui]. unfold after_failed_attempt.
  by rewrite <- !app_assoc.
Qed.

(** An attempt that does not fail with "not found" ends the call: with
    the signed URL and the status "success" when the file is stored and its
    URL signed, with [null] and the status "error" otherwise. *)
Lemma attempt_last fuel env user notify file st :
  fails_not_found env user file st = false ->
  exists st' evs,
    uploadFile (S fuel) env (Some user) notify file st
    = (Ret (attempt_url env user file st), st')
    /\ trace st' = trace st ++ EvUploadFile (upload_path env user file st) file :: evs
    /\ count is_upload_file evs = O
    /\ count is_upload_placeholder evs = O
    /\ count is_remove evs = O
    /\ uploadStatus (ui st')
       = match attempt_url env user file st with
         | Some _ => Success
         | None => Failed
         end.
Proof.
  unfold fails_not_found, attempt_url. cbv zeta.
  intros Hnf. cbn [uploadFile].
  erewrite run_bind_ret by reflexivity.
  erewrite run_bind_ret by reflexivity.
  destruct (env_upload_file env (trace st) (upload_path env user file st))
    as [|e|e] eqn:Ha; simpl in Hnf.
  - (* the upload is accepted *)
    unfold try_catch, upload_once. unfold upload_path in *.
    unfold mbind, M_bind, bind, get_trace, emit.
    cbn [trace db ui selectedFile uploadStatus uploadError].
    rewrite Ha. cbn [checked ret trace].
    destruct (env_signed_url env _ _) as [url|e] eqn:Hu.
    + unfold update_profile, set_status, modify_ui, mbind, M_bind, bind,
        get_trace, emit, get_db, set_db, ret. cbn [trace db ui].
      destruct (env_profile_update_error env _ _), notify;
        cbn [trace db ui];
        eexists _, _; (split; [reflexivity|]);
        (split; [cbn [trace]; rewrite <- !app_assoc; reflexivity|]);
        repeat split; reflexivity.
    + cbn [throw]. simpl in Hnf. rewrite Hnf.
      unfold set_status, set_error, modify_ui, mbind, M_bind, bind, emit, ret.
      cbn [trace db ui].
      eexists _, _; (split; [reflexivity|]).
      split; [cbn [trace]; rewrite <- !app_assoc; reflexivity|].
      repeat split; reflexivity.
  - erewrite run_try_throw.
    2:{ apply upload_once_throws. cbn [trace]. left. exact Ha. }
    rewrite Hnf.
    unfold set_status, set_error, modify_ui, mbind, M_bind, bind, emit, ret.
    cbn [trace db ui].
    eexists _, _; (split; [reflexivity|]).
    split; [cbn [trace]; rewrite <- !app_assoc; reflexivity|].
    repeat split; reflexivity.
  - erewrite run_try_throw.
    2:{ apply upload_once_throws. cbn [trace]. right. exact Ha. }
    rewrite Hnf.
    unfold set_status, set_error, modify_ui, mbind, M_bind, bind, emit, ret.
    cbn [trace db ui].
    eexists _, _; (split; [reflexivity|]).
    split; [cbn [trace]; rewrite <- !app_assoc; reflexivity|].
    repeat split; reflexivity.
Qed.

Lemma attempt_state_S env user file st i :
  attempt_state env user file (after_failed_attempt env user file st) i
  = attempt_state env user file st (S i).
Proof. unfold attempt_state. by rewrite Nat.iter_succ_r. Qed.

Lemma upload_retries env user notify file n :
  (forall tr p, answer_throws (env_upload_placeholder env tr p) = false) ->
  (forall tr p, answer_throws (env_remove env tr p) = false) ->
  forall fuel st,
    (n < fuel)%nat ->
    (forall i,
       (i < n)%nat ->
       answer_not_found
         (env_upload_file env (trace (attempt_state env user file st i))
            (upload_path env user file (attempt_state env user file st i)))
       = true) ->
    fails_not_found env user file (attempt_state env user file st n) = false ->
    exists st' evs,
      uploadFile fuel env (Some user) notify file st
      = (Ret (attempt_url env user file (attempt_state env user file st n)), st')
      /\ trace st' = trace st ++ evs
      /\ count is_upload_file evs = S n
      /\ count is_upload_placeholder evs = n
      /\ count is_remove evs = n
      /\ uploadStatus (ui st')
         = match attempt_url env user file (attempt_state env user file st n) with
           | Some _ => Success
           | None => Failed
           end.
Proof.
  intros Hp Hr. induction n as [|n IH]; intros fuel st Hfuel Hfail Hlast.
  - destruct fuel as [|fuel]; [lia|].
    destruct (attempt_last fuel env user notify file st Hlast)
      as (st' & evs & R & T & C1 & C2 & C3 & Hres).
    exists st', (EvUploadFile (upload_path env user file st) file :: evs).
    repeat split; try done. simpl. by rewrite C1.
  - destruct fuel as [|fuel]; [lia|].
    rewrite attempt_not_found; [|apply (Hfail O); lia|done|done].
    destruct (IH fuel (after_failed_attempt env user file st))
      as (st' & evs & R & T & C1 & C2 & C3 & Hres).
    + lia.
    + intros i Hi. rewrite attempt_state_S. apply Hfail. lia.
    + by rewrite attempt_state_S.
    + rewrite attempt_state_S in R, Hres.
      exists st',
        ([ EvUploadFile (upload_path env user file st) file;
           EvUploadPlaceholder (placeholder_path user);
           EvRemove (placeholder_path user) ] ++ evs).
      split; [done|]. split.
      { rewrite T. unfold after_failed_attempt. cbn [trace].
        by rewrite <- app_assoc. }
      rewrite !count_app, C1, C2, C3. repeat split; done.
Qed.

(** C3, as stated, fails: after two consecutive "not found" failures the
    upload is attempted a third time, and its success is what the caller
    gets; the second failure is not surfaced. *)
Lemma C3_counterexample :
  let run := uploadFile 5 (env_not_found 2) (Some alice_user) true small_pdf
               (state_of empty_db) in
  (exists url, run.1 = Ret (Some url))
  /\ uploadStatus (ui run.2) = Success
  /\ count is_upload_file (trace run.2) = 3%nat
  /\ count is_upload_placeholder (trace run.2) = 2%nat.
Proof. split; [eexists; reflexivity|]. repeat split; reflexivity. Qed.

(** While the storage service keeps answering "not found", [uploadFile]
    keeps provisioning and calling itself: no recursion budget is enough
    for it to return. *)
Lemma upload_retries_without_bound (fuel : nat) (st : State) :
  exists st' evs,
    uploadFile fuel env_never_found (Some alice_user) true small_pdf st
      = (OutOfFuel, st')
    /\ trace st' = trace st ++ evs
    /\ count is_upload_file evs = fuel.
Proof.
  revert st. induction fuel as [|fuel IH]; intros st.
  - exists st, []. split; [done|]. by rewrite app_nil_r.
  - rewrite attempt_not_found; [|done..].
    destruct (IH (after_failed_attempt env_never_found alice_user small_pdf st))
      as (st' & evs & R & T & C).
    eexists st', (_ ++ evs). split; [done|]. split.
    + rewrite T. unfold after_failed_attempt. cbn [trace].
      by rewrite <- app_assoc.
    + rewrite count_app, C. done.
Qed.

(** C3, amended: as long as no provisioning call (the upload of the
    placeholder, its removal) is rejected, each upload of the file that
    fails with a message saying that the resource was not found is followed
    by the provisioning of the location and by a new call of [uploadFile],
    with no bound on the number of retries.  When the uploads of the first
    [n] attempts fail that way and attempt [n + 1] does not fail with "not
    found" (neither at the upload nor at the signing of the URL), the call
    ends with that attempt, after exactly [n + 1] uploads of the file and
    [n] provisionings: it returns the signed URL, with the status
    "success", when the upload and the signing of attempt [n + 1]
    succeeded, and [null], with the status "error", when one of them
    failed.  A second consecutive "not found" failure is provisioned and
    retried like the first, not surfaced. *)
Theorem C3_retries_until_found (env : Env) (user : User) (notify : bool)
    (file : File) (n fuel : nat) (st : State) :
  let attempt := attempt_state env user file st in
  (n < fuel)%nat ->
  (forall tr p, answer_throws (env_upload_placeholder env tr p) = false) ->
  (forall tr p, answer_throws (env_remove env tr p) = false) ->
  (forall i,
     (i < n)%nat ->
     answer_not_found
       (env_upload_file env (trace (attempt i))
          (upload_path env user file (attempt i))) = true) ->
  fails_not_found env user file (attempt n) = false ->
  exists st',
    uploadFile fuel env (Some user) notify file st
    = (Ret (attempt_url env user file (attempt n)), st')
    /\ uploadStatus (ui st')
       = match attempt_url env user file (attempt n) with
         | Some _ => Success
         | None => Failed
         end
    /\ count is_upload_file (new_events st st') = S n
    /\ count is_upload_placeholder (new_events st st') = n
    /\ count is_remove (new_events st st') = n.
Proof.
  intros attempt Hfuel Hp Hr Hfail Hlast.
  destruct (upload_retries env user notify file n Hp Hr fuel st
              Hfuel Hfail Hlast)
    as (st' & evs & R & T & C1 & C2 & C3 & Hres).
  exists st'. rewrite (new_events_trace _ _ _ T). done.
Qed.

Lemma C3_retries_until_found_witness :
  let env := env_not_found 1 in
  let st := state_of empty_db in
  let attempt := attempt_state env alice_user small_pdf st in
  exists st',
    uploadFile 5 env (Some alice_user) true small_pdf st
    = (Ret (attempt_url env alice_user small_pdf (attempt 1%nat)), st')
    /\ uploadStatus (ui st')
       = match attempt_url env alice_user small_pdf (attempt 1%nat) with
         | Some _ => Success
         | None => Failed
         end
    /\ count is_upload_file (new_events st st') = 2%nat
    /\ count is_upload_placeholder (new_events st st') = 1%nat
    /\ count is_remove (new_events st st') = 1%nat.
Proof.
  apply (C3_retries_until_found (env_not_found 1) alice_user true small_pdf
           1 5 (state_of empty_db)).
  - lia.
  - done.
  - done.
  - intros i Hi. destruct i as [|i]; [reflexivity|lia].
  - reflexivity.
Defined.

(** The last attempt decides the outcome: here the second upload is
    accepted and signed, under the name made from the clock of that moment,
    and its URL is what the call returns. *)
Example second_attempt_decides :
  attempt_url (env_not_found 1) alice_user small_pdf
    (attempt_state (env_not_found 1) alice_user small_pdf (state_of empty_db) 1)
  = Some (u16 "https://storage/sign/user-alice/1700000000003.pdf").
Proof. reflexivity. Qed.

(** One "not found" failure: the upload succeeds at the second attempt, and
    the caller gets the signed URL of the path of that attempt. *)
Example one_failure_then_success :
  let run := uploadFile 5 (env_not_found 1) (Some alice_user) true small_pdf
               (state_of empty_db) in
  run.1 = Ret (Some (u16 "https://storage/sign/user-alice/1700000000003.pdf"))
  /\ uploadStatus (ui run.2) = Success
  /\ count is_upload_file (trace run.2) = 2%nat
  /\ count is_upload_placeholder (trace run.2) = 1%nat.
Proof. repeat split; reflexivity. Qed.

(** ** The parser on the inputs of the specification's test list *)

Example fenced_array_is_unwrapped :
  parse (u16 "```json" ++ [LF] ++ three_roles ++ [LF] ++ u16 "```")
  = Parsed (parsed_of three_roles)
  /\ length (parsed_of three_roles) = 3%nat.
Proof. split; reflexivity. Qed.

Example bare_object_is_wrapped :
  parse (js "{'role_title':'A'}")
  = Parsed [JObj [ (u16 "role_title", JStr (u16 "A")) ]].
Proof. reflexivity. Qed.

Example prose_is_a_parse_error : parse prose = ParseError prose.
Proof. reflexivity. Qed.

(** ** The recursion budget of [JSON_parse] *)

Lemma value_step_mono elems elems' membs membs' s r :
  extends2 elems elems' -> extends2 membs membs' ->
  value_step elems membs s = Some r ->
  value_step elems' membs' s = Some r.
Proof.
  intros He Hm. unfold value_step.
  repeat case_match; auto; try discriminate.
Qed.

Lemma elements_step_mono value value' elems elems' s acc r :
  extends value value' -> extends2 elems elems' ->
  elements_step value elems s acc = Some r ->
  elements_step value' elems' s acc = Some r.
Proof.
  intros Hv He. unfold elements_step.
  destruct (value s) as [[v r1]|] eqn:E; [|discriminate].
  rewrite (Hv _ _ E). repeat case_match; auto; try discriminate.
Qed.

Lemma members_step_mono value value' membs membs' s acc r :
  extends value value' -> extends2 membs membs' ->
  members_step value membs s acc = Some r ->
  members_step value' membs' s acc = Some r.
Proof.
  intros Hv Hm. unfold members_step.
  destruct (skip_ws s) as [|q t]; [discriminate|].
  destruct (q =? QUOTE); [|discriminate].
  destruct (parse_string t []) as [[key r0]|]; [|discriminate].
  destruct (skip_ws r0) as [|c r1]; [discriminate|].
  destruct (c =? ch ":"); [|discriminate].
  destruct (value r1) as [[v r2]|] eqn:E; [|discriminate].
  rewrite (Hv _ _ E). repeat case_match; auto; try discriminate.
Qed.

Lemma parse_mono_S n :
  extends (parse_value n) (parse_value (S n))
  /\ extends2 (parse_elements n) (parse_elements (S n))
  /\ extends2 (parse_members n) (parse_members (S n)).
Proof.
  induction n as [|n (IHv & IHe & IHm)].
  - repeat split; intros ?; intros; discriminate.
  - split; [|split].
    + intros s r. apply value_step_mono; assumption.
    + intros s acc r. apply elements_step_mono; assumption.
    + intros s acc r. apply members_step_mono; assumption.
Qed.

Lemma parse_mono n m :
  (n <= m)%nat ->
  extends (parse_value n) (parse_value m)
  /\ extends2 (parse_elements n) (parse_elements m)
  /\ extends2 (parse_members n) (parse_members m).
Proof.
  induction 1 as [|m _ (IHv & IHe & IHm)].
  - repeat split; intros ?; intros; assumption.
  - destruct (parse_mono_S m) as (Sv & Se & Sm).
    split; [|split]; intros ?; intros; auto.
Qed.

Lemma skip_ws_length s : (length (skip_ws s) <= length s)%nat.
Proof.
  induction s as [|c s IH]; simpl; [lia|].
  destruct (is_json_ws c); simpl; lia.
Qed.

Lemma skip_ws_cons s c t :
  skip_ws s = c :: t -> (length t < length s)%nat.
Proof.
  intros H. pose proof (skip_ws_length s) as L. rewrite H in L. simpl in L. lia.
Qed.

Lemma parse_string_length s acc str r :
  parse_string s acc = Some (str, r) -> (length r < length s)%nat.
Proof.
  remember (length s) as n eqn:Hn. revert s acc Hn.
  induction n as [n IH] using lt_wf_ind. intros s acc -> H.
  destruct s as [|c t]; [discriminate|]. simpl in H.
  destruct (c =? QUOTE).
  { injection H as _ <-. simpl. lia. }
  destruct (c =? ch "\").
  - destruct t as [|e t']; [discriminate|].
    destruct (e =? ch "u").
    + destruct t' as [|h1 [|h2 [|h3 [|h4 t'']]]]; try discriminate.
      destruct (hex4 h1 h2 h3 h4); [|discriminate].
      apply (IH (length t'')) in H; simpl; [lia | lia | done].
    + destruct (unescape e); [|discriminate].
      apply (IH (length t')) in H; simpl; [lia | lia | done].
  - destruct (c <? 32); [discriminate|].
    apply (IH (length t)) in H; simpl; [lia | lia | done].
Qed.

Lemma span_length p s a b :
  span p s = (a, b) -> (length s = length a + length b)%nat.
Proof.
  revert a b. induction s as [|c s IH]; intros a b H; simpl in H.
  - by injection H as <- <-.
  - destruct (p c).
    + destruct (span p s) as [a' b']. injection H as <- <-.
      simpl. by rewrite (IH a' b' eq_refl).
    + by injection H as <- <-.
Qed.

Lemma parse_number_length s lit r :
  parse_number s = Some (lit, r) -> (length r < length s)%nat.
Proof.
  unfold parse_number.
  set (p := match s with
            | c :: t => if c =? ch "-" then ([c], t) else ([], s)
            | [] => ([], s)
            end).
  assert (Hp : (length p.2 <= length s)%nat).
  { subst p. destruct s as [|c t]; simpl; [lia|].
    destruct (c =? ch "-"); simpl; lia. }
  destruct p as [sign s1]. simpl in Hp.
  destruct (span is_digit s1) as [int s2] eqn:E1.
  apply span_length in E1.
  destruct int as [|d ds]; [discriminate|]. simpl in E1.
  destruct ((d =? ch "0") && str_truthy ds); [discriminate|].
  assert (Hfrac : forall fr s3,
            match s2 with
            | c :: t =>
                if c =? ch "." then
                  let '(fr, s3) := span is_digit t in
                  if str_truthy fr then Some (c :: fr, s3) else None
                else Some ([], s2)
            | [] => Some ([], s2)
            end = Some (fr, s3) -> (length s3 <= length s2)%nat).
  { intros fr s3 H. destruct s2 as [|c t]; [by injection H as _ <-|].
    destruct (c =? ch ".").
    - destruct (span is_digit t) as [fr' s3'] eqn:E2.
      apply span_length in E2.
      destruct (str_truthy fr'); [|discriminate].
      injection H as _ <-. simpl. lia.
    - by injection H as _ <-. }
  destruct (match s2 with
            | c :: t => _
            | [] => _
            end) as [[fr s3]|]; [|discriminate].
  pose proof (Hfrac _ _ eq_refl) as Ef.
  destruct s3 as [|c t]; [intros [= _ <-]; simpl in *; lia|].
  destruct ((c =? ch "e") || (c =? ch "E")).
  - set (q := match t with
              | g :: t' =>
                  if (g =? ch "+") || (g =? ch "-") then ([g], t') else ([], t)
              | [] => ([], t)
              end).
    assert (Hq : (length q.2 <= length t)%nat).
    { subst q. destruct t as [|g t']; simpl; [lia|].
      destruct ((g =? ch "+") || (g =? ch "-")); simpl; lia. }
    destruct q as [sg t1]. simpl in Hq.
    destruct (span is_digit t1) as [ex s4] eqn:E3.
    apply span_length in E3.
    destruct (str_truthy ex); [|discriminate].
    intros [= _ <-]. simpl in *. lia.
  - intros [= _ <-]. simpl in *. lia.
Qed.

Lemma startsWith_length s p :
  startsWith s p = true -> (length p <= length s)%nat.
Proof.
  revert s. induction p as [|a p IH]; intros s H; simpl; [lia|].
  destruct s as [|b s]; [discriminate|]. simpl in H.
  apply andb_true_iff in H as [_ H]. apply IH in H. simpl. lia.
Qed.

Lemma expect_length lit v s v' r :
  lit <> [] -> expect lit v s = Some (v', r) -> (length r < length s)%nat.
Proof.
  intros Hl. unfold expect. destruct (startsWith s lit) eqn:E; [|discriminate].
  intros [= _ <-]. apply startsWith_length in E. rewrite length_drop.
  destruct lit; [done|]. simpl in *. lia.
Qed.

Lemma value_step_shrinks elems membs :
  shrinks2 elems -> shrinks2 membs -> shrinks (value_step elems membs).
Proof.
  intros He Hm s v r. unfold value_step.
  destruct (skip_ws s) as [|c t] eqn:Es; [discriminate|].
  apply skip_ws_cons in Es.
  destruct (c =? ch "[").
  { destruct (skip_ws t) as [|c' t'] eqn:Et; [discriminate|].
    apply skip_ws_cons in Et.
    destruct (c' =? ch "]").
    - intros [= _ <-]. lia.
    - intros H%He. lia. }
  destruct (c =? ch "{").
  { destruct (skip_ws t) as [|c' t'] eqn:Et; [discriminate|].
    apply skip_ws_cons in Et.
    destruct (c' =? ch "}").
    - intros [= _ <-]. lia.
    - intros H%Hm. lia. }
  destruct (c =? QUOTE).
  { destruct (parse_string t []) as [[str r0]|] eqn:E; [|discriminate].
    apply parse_string_length in E. intros [= _ <-]. lia. }
  assert (L : forall lit w, lit <> [] ->
                expect lit w (c :: t) = Some (v, r) ->
                (length r < length s)%nat).
  { intros lit w Hl H%expect_length; [|done]. simpl in H. lia. }
  destruct (c =? ch "t"); [by apply L|].
  destruct (c =? ch "f"); [by apply L|].
  destruct (c =? ch "n"); [by apply L|].
  destruct (parse_number (c :: t)) as [[lit r0]|] eqn:E; [|discriminate].
  apply parse_number_length in E. intros [= _ <-]. simpl in E. lia.
Qed.

Lemma elements_step_shrinks value elems :
  shrinks value -> shrinks2 elems -> shrinks2 (elements_step value elems).
Proof.
  intros Hv He s acc v r. unfold elements_step.
  destruct (value s) as [[v1 r1]|] eqn:E; [|discriminate].
  apply Hv in E.
  destruct (skip_ws r1) as [|c r'] eqn:Er; [discriminate|].
  apply skip_ws_cons in Er.
  destruct (c =? ch ",").
  - intros H%He. lia.
  - destruct (c =? ch "]"); [|discriminate]. intros [= _ <-]. lia.
Qed.

Lemma members_step_shrinks value membs :
  shrinks value -> shrinks2 membs -> shrinks2 (members_step value membs).
Proof.
  intros Hv Hm s acc v r. unfold members_step.
  destruct (skip_ws s) as [|q t] eqn:Es; [discriminate|].
  apply skip_ws_cons in Es.
  destruct (q =? QUOTE); [|discriminate].
  destruct (parse_string t []) as [[key r0]|] eqn:Ek; [|discriminate].
  apply parse_string_length in Ek.
  destruct (skip_ws r0) as [|c r1] eqn:E0; [discriminate|].
  apply skip_ws_cons in E0.
  destruct (c =? ch ":"); [|discriminate].
  destruct (value r1) as [[v1 r2]|] eqn:E; [|discriminate].
  apply Hv in E.
  destruct (skip_ws r2) as [|d r3] eqn:E2; [discriminate|].
  apply skip_ws_cons in E2.
  destruct (d =? ch ",").
  - intros H%Hm. lia.
  - destruct (d =? ch "}"); [|discriminate]. intros [= _ <-]. lia.
Qed.

Lemma parse_shrinks n :
  shrinks (parse_value n) /\ shrinks2 (parse_elements n)
  /\ shrinks2 (parse_members n).
Proof.
  induction n as [|n (IHv & IHe & IHm)].
  - repeat split; intros ?; intros; discriminate.
  - split; [|split]; cbn [parse_value parse_elements parse_members].
    + by apply value_step_shrinks.
    + by apply elements_step_shrinks.
    + by apply members_step_shrinks.
Qed.

Lemma parse_enough n :
  enough parse_value n /\ enough2 parse_elements n /\ enough2 parse_members n.
Proof.
  induction n as [|n (IHv & IHe & IHm)].
  - repeat split; intros ?; intros; discriminate.
  - destruct (parse_shrinks n) as (Sv & Se & Sm).
    split; [|split].
    + intros s v r H m Hm.
      pose proof (proj1 (parse_shrinks (S n)) _ _ _ H) as Hlt.
      destruct m as [|m]; [lia|].
      cbn [parse_value] in *. unfold value_step in *.
      destruct (skip_ws s) as [|c t] eqn:Es; [discriminate|].
      apply skip_ws_cons in Es.
      destruct (c =? ch "[").
      { destruct (skip_ws t) as [|c' t'] eqn:Et; [discriminate|].
        destruct (c' =? ch "]"); [done|].
        apply (IHe _ _ _ _ H). lia. }
      destruct (c =? ch "{").
      { destruct (skip_ws t) as [|c' t'] eqn:Et; [discriminate|].
        destruct (c' =? ch "}"); [done|].
        apply (IHm _ _ _ _ H). lia. }
      done.
    + intros s acc v r H m Hm.
      pose proof (proj1 (proj2 (parse_shrinks (S n))) _ _ _ _ H) as Hlt.
      destruct m as [|m]; [lia|].
      cbn [parse_elements] in *. unfold elements_step in *.
      destruct (parse_value n s) as [[v1 r1]|] eqn:E; [|discriminate].
      pose proof (Sv _ _ _ E) as L1.
      destruct (skip_ws r1) as [|c r'] eqn:Er; [discriminate|].
      pose proof (skip_ws_cons _ _ _ Er) as L2.
      assert (Hr : (length r <= length r')%nat).
      { destruct (c =? ch ",").
        - apply Se in H. lia.
        - destruct (c =? ch "]"); [|discriminate]. injection H as _ <-. lia. }
      rewrite (IHv _ _ _ E m) by lia. rewrite Er.
      destruct (c =? ch ","); [|done].
      apply (IHe _ _ _ _ H). lia.
    + intros s acc v r H m Hm.
      pose proof (proj2 (proj2 (parse_shrinks (S n))) _ _ _ _ H) as Hlt.
      destruct m as [|m]; [lia|].
      cbn [parse_members] in *. unfold members_step in *.
      destruct (skip_ws s) as [|q t] eqn:Es; [discriminate|].
      apply skip_ws_cons in Es.
      destruct (q =? QUOTE); [|discriminate].
      destruct (parse_string t []) as [[key r0]|] eqn:Ek; [|discriminate].
      apply parse_string_length in Ek.
      destruct (skip_ws r0) as [|c r1] eqn:E0; [discriminate|].
      apply skip_ws_cons in E0.
      destruct (c =? ch ":"); [|discriminate].
      destruct (parse_value n r1) as [[v1 r2]|] eqn:E; [|discriminate].
      pose proof (Sv _ _ _ E) as L1.
      destruct (skip_ws r2) as [|d r3] eqn:E2; [discriminate|].
      pose proof (skip_ws_cons _ _ _ E2) as L2.
      assert (Hr : (length r <= length r3)%nat).
      { destruct (d =? ch ",").
        - apply Sm in H. lia.
        - destruct (d =? ch "}"); [|discriminate]. injection H as _ <-. lia. }
      rewrite (IHv _ _ _ E m) by lia. rewrite E2.
      destruct (d =? ch ","); [|done].
      apply (IHm _ _ _ _ H). lia.
Qed.

(** The budget that [JSON_parse] gives is enough: a larger one gives the
    same result. *)
Theorem JSON_parse_budget (s : jsstring) (n : nat) :
  (2 * length s + 2 <= n)%nat ->
  parse_value n s = parse_value (2 * length s + 2) s.
Proof.
  intros Hn.
  destruct (parse_value (2 * length s + 2) s) as [[v r]|] eqn:E.
  - by apply (proj1 (parse_mono _ _ Hn)).
  - destruct (parse_value n s) as [[v r]|] eqn:E'; [|done].
    rewrite (proj1 (parse_enough n) _ _ _ E') in E; [done|lia].
Qed.

(** * Further properties of the code *)

(** ** Frames *)

Section Within.
Context (R : State -> State -> Prop) `{!PreOrder R}.

Lemma within_ret {A} (a : A) : within R (ret a).
Proof. intros st o st' [= <- <-]. reflexivity. Qed.

Lemma within_throw {A} (e : JsError) : within R (throw e : M A).
Proof. intros st o st' [= <- <-]. reflexivity. Qed.

Lemma within_get_trace : within R get_trace.
Proof. intros st o st' [= <- <-]. reflexivity. Qed.

Lemma within_get_db : within R get_db.
Proof. intros st o st' [= <- <-]. reflexivity. Qed.

Lemma within_bind {A B} (m : M A) (f : A -> M B) :
  within R m -> (forall a, within R (f a)) -> within R (m ≫= f).
Proof.
  intros Hm Hf st o st'. unfold mbind, M_bind, bind.
  destruct (m st) as [[a|e|] st1] eqn:E; intros H.
  - etransitivity; [exact (Hm _ _ _ E)|exact (Hf _ _ _ _ H)].
  - injection H as <- <-. exact (Hm _ _ _ E).
  - injection H as <- <-. exact (Hm _ _ _ E).
Qed.

Lemma within_try_catch {A} (m : M A) (h : JsError -> M A) :
  within R m -> (forall e, within R (h e)) -> within R (try_catch m h).
Proof.
  intros Hm Hh st o st'. unfold try_catch.
  destruct (m st) as [[a|e|] st1] eqn:E; intros H.
  - injection H as <- <-. exact (Hm _ _ _ E).
  - etransitivity; [exact (Hm _ _ _ E)|exact (Hh _ _ _ _ H)].
  - injection H as <- <-. exact (Hm _ _ _ E).
Qed.

Lemma within_read_member rec key : within R (read_member rec key).
Proof.
  destruct rec; first [apply within_throw | apply within_ret].
Qed.

Lemma within_read_content answer : within R (read_content answer).
Proof.
  destruct answer; first [apply within_throw | apply within_ret].
Qed.

Context (env : Env) (userId : jsstring).
Context (R_completion : forall p, within R (emit (EvCompletion p))).
Context (R_insert : forall payload,
           ins_user_id payload = userId ->
           within R (insert_recommendation env payload)).

Lemma within_store_one rec : within R (store_one env userId rec).
Proof.
  unfold store_one.
  do 4 (apply within_bind; [apply within_read_member|]; intros ?).
  by apply R_insert.
Qed.

Lemma within_store_all recs : within R (store_all env userId recs).
Proof.
  induction recs as [|rec recs IH]; simpl; [apply within_ret|].
  apply within_bind; [apply within_store_one|]. by intros _.
Qed.

Lemma within_generate prompt : within R (generate env userId prompt).
Proof.
  unfold generate.
  apply within_try_catch; [|intros e; apply within_ret].
  apply within_bind; [apply within_get_trace|]. intros tr.
  apply within_bind; [apply R_completion|]. intros _.
  assert (forall answer,
    within R
      (try_catch
         (recs ← parse_and_store env userId answer; ret (inr recs))
         (fun _ => read_content answer;;
                   ret (inr defaultRecommendations)
                   : M (Response + list JsValue)))) as Hinner.
  { intros answer. apply within_try_catch.
    - apply within_bind; [|intros r; apply within_ret].
      unfold parse_and_store.
      apply within_bind; [apply within_read_content|].
      intros [content|]; [|apply within_throw].
      destruct (parse content); [|apply within_throw].
      apply within_bind; [apply within_store_all|].
      intros _. apply within_ret.
    - intros e. apply within_bind; [apply within_read_content|].
      intros _. apply within_ret. }
  destruct (env_completion env tr prompt) as [e| | |c];
    [apply within_throw|apply within_ret|apply Hinner|apply Hinner].
Qed.
End Within.

(** ** The frame of the POST handler *)

Lemma set_resume_text_twice (t1 t2 userId : jsstring)
    (m : gmap jsstring Profile) :
  alter (set_resume_text t2) userId (alter (set_resume_text t1) userId m)
  = alter (set_resume_text t2) userId m.
Proof.
  rewrite alter_alter_eq. by apply alter_ext.
Qed.

#[local] Instance handler_frame_preorder userId : PreOrder (handler_frame userId).
Proof.
  split.
  - intros st. split; [done|]. split; [exists []; by rewrite app_nil_r|].
    split; [exists []; by rewrite app_nil_r|]. by left.
  - intros st1 st2 st3 (U1 & (e1 & T1 & P1) & (a1 & D1 & F1) & Q1)
                       (U2 & (e2 & T2 & P2) & (a2 & D2 & F2) & Q2).
    split; [congruence|]. split.
    { exists (e1 ++ e2). rewrite T2, T1, <- app_assoc. split; [done|].
      rewrite forallb_app. by rewrite P1, P2. }
    split.
    { exists (a1 ++ a2). rewrite D2, D1, <- app_assoc. split; [done|].
      by apply Forall_app. }
    destruct Q1 as [Q1|[t1 Q1]], Q2 as [Q2|[t2 Q2]].
    + left. congruence.
    + right. exists t2. congruence.
    + right. exists t1. congruence.
    + right. exists t2. rewrite Q2, Q1. apply set_resume_text_twice.
Qed.

Lemma frame_emit userId e :
  handler_event userId e = true -> within (handler_frame userId) (emit e).
Proof.
  intros He st o st' [= <- <-]. split; [done|]. split.
  - exists [e]. simpl. by rewrite He.
  - split; [exists []; by rewrite app_nil_r|]. by left.
Qed.

Lemma frame_select_profile env userId columns :
  within (handler_frame userId) (select_profile env userId columns).
Proof.
  unfold select_profile.
  apply within_bind; [apply _|apply within_get_trace; apply _|]. intros tr.
  apply within_bind; [apply _| |].
  { apply frame_emit. simpl. by apply bool_decide_eq_true. }
  intros _. apply within_bind; [apply _|apply within_get_db; apply _|].
  intros d. destruct (env_profile_select_error env tr userId);
    apply within_ret; apply _.
Qed.

Lemma frame_update_text env userId text :
  within (handler_frame userId)
    (update_profile env userId (EvProfileUpdateText userId text)
       (set_resume_text text)).
Proof.
  intros st o st'. unfold update_profile.
  unfold mbind, M_bind, bind, get_trace, emit, get_db, set_db, ret. simpl.
  destruct (env_profile_update_error env (trace st) userId);
    intros [= <- <-]; (split; [done|]); simpl.
  - split; [exists [EvProfileUpdateText userId text]; simpl;
            by rewrite bool_decide_eq_true_2|].
    split; [exists []; by rewrite app_nil_r|]. by left.
  - split; [exists [EvProfileUpdateText userId text]; simpl;
            by rewrite bool_decide_eq_true_2|].
    split; [exists []; by rewrite app_nil_r|]. right. by exists text.
Qed.

Lemma frame_insert env payload :
  within (handler_frame (ins_user_id payload))
    (insert_recommendation env payload).
Proof.
  intros st o st'. unfold insert_recommendation.
  unfold mbind, M_bind, bind, get_trace, emit, get_db, set_db, ret. simpl.
  destruct (env_insert_error env (trace st) payload);
    intros [= <- <-]; (split; [done|]); simpl.
  - split; [exists [EvInsert payload]; simpl;
            by rewrite bool_decide_eq_true_2|].
    split; [exists []; by rewrite app_nil_r|]. by left.
  - split; [exists [EvInsert payload]; simpl;
            by rewrite bool_decide_eq_true_2|].
    split; [|by left]. eexists. split; [done|]. by apply Forall_singleton.
Qed.

Lemma frame_extract env userId documentUrl apiKey :
  within (handler_frame userId) (extractResumeText env documentUrl apiKey).
Proof.
  unfold extractResumeText.
  destruct (negb (str_truthy documentUrl)); [apply within_throw; apply _|].
  destruct (negb (opt_truthy apiKey)); [apply within_throw; apply _|].
  apply within_try_catch; [apply _| |intros e; apply within_throw; apply _].
  apply within_bind; [apply _|apply within_get_trace; apply _|]. intros tr.
  apply within_bind; [apply _|by apply frame_emit|]. intros _.
  destruct (env_ocr env tr documentUrl) as [e|m s|[pages|]];
    first [apply within_throw; apply _ | apply within_ret; apply _].
Qed.

Lemma frame_gather env userId request :
  within (handler_frame userId) (gather env userId request).
Proof.
  unfold gather.
  apply within_bind; [apply _|apply frame_select_profile|]. intros profile.
  apply within_bind; [apply _| |].
  { destruct profile as [p|]; [|apply within_ret; apply _].
    destruct (negb (opt_truthy (req_resumeUrl request))
              && opt_truthy (resume_link p));
      [apply within_throw|apply within_ret]; apply _. }
  intros [d resumeUrl].
  apply within_bind; [apply _| |intros t; apply within_ret; apply _].
  destruct (opt_truthy resumeUrl); [|apply within_ret; apply _].
  apply within_try_catch; [apply _| |intros e; apply within_ret; apply _].
  apply within_bind; [apply _|apply frame_extract|]. intros text.
  apply within_bind; [apply _| |intros _; apply within_ret; apply _].
  destruct (str_truthy text); [apply frame_update_text|apply within_ret; apply _].
Qed.

Lemma frame_generate env userId prompt :
  within (handler_frame userId) (generate env userId prompt).
Proof.
  apply within_generate; [apply _| |].
  - intros p. by apply frame_emit.
  - intros payload <-. apply frame_insert.
Qed.

Lemma frame_POST env request :
  within (handler_frame (default [] (req_userId request))) (POST env request).
Proof.
  unfold POST.
  apply within_try_catch; [apply _| |intros e; apply within_ret; apply _].
  destruct (negb (opt_truthy (req_userId request)));
    [apply within_ret; apply _|].
  apply within_bind; [apply _|apply frame_gather|]. intros [d t].
  destruct (negb (truthy d) && negb (str_truthy t));
    [apply within_ret; apply _|].
  apply within_bind; [apply _|apply frame_generate|].
  intros [r|r]; apply within_ret; apply _.
Qed.

(** X4: whatever the services answer, a run of the POST handler changes
    nothing in the component state, calls only the profile read, the OCR
    service, the update of [resume_text], the completion endpoint and
    [insert], each for the [userId] of the request; it deletes and changes
    no row of [role_recommendations] and adds rows of that user only; and in
    the [profiles] table it changes at most the [resume_text] of that
    user. *)
Theorem POST_changes_only_its_user (env : Env) (request : Request)
    (st : State) :
  let userId := default [] (req_userId request) in
  let st' := (POST env request st).2 in
  ui st' = ui st
  /\ (exists evs, trace st' = trace st ++ evs
                  /\ forallb (handler_event userId) evs = true)
  /\ (exists added,
        role_recommendations (db st') = role_recommendations (db st) ++ added
        /\ Forall (fun r => row_user_id r = userId) added)
  /\ (profiles (db st') = profiles (db st)
      \/ exists text,
           profiles (db st')
           = alter (set_resume_text text) userId (profiles (db st))).
Proof.
  intros userId st'. subst st'.
  destruct (POST env request st) as [o st'] eqn:E.
  exact (frame_POST _ _ _ _ _ E).
Qed.

(** ** The responses of the handler *)

Lemma generate_early_return env userId prompt st response st' :
  generate env userId prompt st = (Ret (inl response), st') ->
  response = Ok200 defaultRecommendations.
Proof.
  unfold generate, try_catch at 1.
  unfold mbind at 1 2, M_bind at 1 2, bind at 1 2, get_trace, emit. simpl.
  destruct (env_completion env (trace st) prompt) as [e| | |c]; simpl.
  - unfold throw, ret. congruence.
  - unfold ret. congruence.
  - unfold try_catch, read_content, parse_and_store, read_content.
    unfold mbind, M_bind, bind, throw, ret. simpl. congruence.
  - unfold try_catch.
    destruct ((recs ← parse_and_store env userId (CompletionContent c);
               ret (inr recs)) _) as [[[r|r]|e|] st1] eqn:E.
    + exfalso. revert E. unfold mbind, M_bind, bind.
      destruct (parse_and_store _ _ _ _) as [[x|x|] ?]; unfold ret; congruence.
    + congruence.
    + unfold read_content, mbind, M_bind, bind, ret. congruence.
    + congruence.
Qed.

(** X3: the POST handler answers every request: it never throws.  The
    answer is the 400 error exactly when the request has no userId;
    otherwise it is a 200 response with a list of recommendations or the
    500 response, which carries the default recommendations. *)
Theorem POST_always_responds (env : Env) (request : Request) (st : State) :
  exists resp st',
    POST env request st = (Ret resp, st')
    /\ (opt_truthy (req_userId request) = false
        <-> resp = BadRequest (u16 "Missing userId in request"))
    /\ (resp = BadRequest (u16 "Missing userId in request")
        \/ (exists recs, resp = Ok200 recs)
        \/ resp = ServerError (u16 "Server error") defaultRecommendations).
Proof.
  destruct (opt_truthy (req_userId request)) eqn:Hu.
  - destruct (gather env (default [] (req_userId request)) request st)
      as [[[d t]|e|] st1] eqn:G.
    + rewrite (POST_after_gather _ _ _ _ _ _ Hu G).
      destruct (negb (truthy d) && negb (str_truthy t)).
      { eexists _, _. split; [reflexivity|]. split; [split; discriminate|].
        right. left. by eexists. }
      destruct (generate env (default [] (req_userId request))
                  (make_prompt d t) st1) as [o st2] eqn:E.
      destruct (generate_calls_endpoint _ _ _ _ _ _ E) as [[r ->] _].
      unfold try_catch. rewrite (run_bind_ret _ _ _ _ _ E).
      destruct r as [response|recs].
      * rewrite (generate_early_return _ _ _ _ _ _ E).
        eexists _, _. split; [reflexivity|]. split; [split; discriminate|].
        right. left. by eexists.
      * eexists _, _. split; [reflexivity|]. split; [split; discriminate|].
        right. left. by eexists.
    + rewrite (POST_gather_throws _ _ _ _ _ Hu G).
      eexists _, _. split; [reflexivity|]. split; [split; discriminate|].
      by right; right.
    + by destruct (quiet_gather _ _ _ _ _ _ G) as (N & _).
  - exists (BadRequest (u16 "Missing userId in request")), st.
    split; [|split; [done|by left]].
    unfold POST. by rewrite Hu.
Qed.

(** ** The generation step *)

#[local] Instance generation_frame_preorder : PreOrder generation_frame.
Proof.
  split.
  - intros st. split; [done|]. split; [done|]. exists []. by rewrite app_nil_r.
  - intros st1 st2 st3 (U1 & Q1 & e1 & T1 & P1) (U2 & Q2 & e2 & T2 & P2).
    split; [congruence|]. split; [congruence|].
    exists (e1 ++ e2). rewrite T2, T1, <- app_assoc. split; [done|].
    rewrite forallb_app. by rewrite P1, P2.
Qed.

Lemma generation_frame_generate env userId prompt :
  within generation_frame (generate env userId prompt).
Proof.
  apply within_generate with (userId := userId); [apply _| |].
  - intros p st o st' [= <- <-]. split; [done|]. split; [done|].
    by exists [EvCompletion p].
  - intros payload _ st o st'. unfold insert_recommendation.
    unfold mbind, M_bind, bind, get_trace, emit, get_db, set_db, ret. simpl.
    destruct (env_insert_error env (trace st) payload);
      intros [= <- <-]; (split; [done|]); (split; [done|]);
      by exists [EvInsert payload].
Qed.

Lemma generate_without_text env userId prompt st :
  completion_fails (env_completion env (trace st) prompt) = true ->
  exists r,
    generate env userId prompt st
      = (Ret r, after_event (EvCompletion prompt) st)
    /\ (r = inl (Ok200 defaultRecommendations)
        \/ r = inr defaultRecommendations).
Proof.
  intros H. unfold generate, try_catch at 1.
  unfold mbind at 1 2, M_bind at 1 2, bind at 1 2, get_trace, emit. simpl.
  destruct (env_completion env (trace st) prompt) as [e| | |[c|]];
    try discriminate.
  - eexists. split; [reflexivity|]. by right.
  - eexists. split; [reflexivity|]. by left.
  - eexists. split; [reflexivity|]. by right.
  - eexists. split; [reflexivity|]. by right.
Qed.

Lemma count_update_text_generation evs :
  forallb (fun e => is_completion e || is_insert e) evs = true ->
  count is_update_text evs = O.
Proof.
  induction evs as [|e evs IH]; simpl; [done|].
  intros [He H]%andb_prop. rewrite (IH H). by destruct e.
Qed.

Lemma count_ocr_generation evs :
  forallb (fun e => is_completion e || is_insert e) evs = true ->
  count is_ocr evs = O.
Proof.
  induction evs as [|e evs IH]; simpl; [done|].
  intros [He H]%andb_prop. rewrite (IH H). by destruct e.
Qed.

(** X6: when the completion endpoint gives no text (the call rejects, the
    response has no body or no first choice, or the content is null), the
    handler answers with the default recommendations, attempts no insert
    and leaves the table as it is; [generateRoleRecommendations] returns the
    defaults as well. *)
Theorem completion_failure_gives_defaults (env : Env) (request : Request)
    (st : State) (discoveryData : option JsValue)
    (resumeText : option jsstring) :
  opt_truthy (req_userId request) = true ->
  (forall tr p, completion_fails (env_completion env tr p) = true) ->
  (exists resp st',
     POST env request st = (Ret resp, st')
     /\ body_recommendations resp = Some defaultRecommendations
     /\ count is_insert (new_events st st') = O
     /\ role_recommendations (db st') = role_recommendations (db st))
  /\ (generateRoleRecommendations env discoveryData resumeText st).1
     = Ret defaultRecommendations.
Proof.
  intros Hu Hc. split.
  - destruct (gather env (default [] (req_userId request)) request st)
      as [[[d t]|e|] st1] eqn:G;
      destruct (quiet_gather _ _ _ _ _ _ G) as (NF & evs & T & C & D);
      [| |done].
    + rewrite (POST_after_gather _ _ _ _ _ _ Hu G).
      destruct (negb (truthy d) && negb (str_truthy t)).
      * exists (Ok200 defaultRecommendations), st1. repeat split; [|done].
        rewrite (new_events_trace _ _ _ T). by apply count_calm_insert.
      * destruct (generate_without_text env (default [] (req_userId request))
                    (make_prompt d t) st1 (Hc _ _)) as (r & E & Hr).
        unfold try_catch. rewrite (run_bind_ret _ _ _ _ _ E).
        exists (Ok200 defaultRecommendations), (after_event (EvCompletion (make_prompt d t)) st1).
        split; [by destruct Hr as [-> | ->]|]. split; [done|]. split; [|done].
        erewrite new_events_trace; [|simpl; rewrite T, <- app_assoc; done].
        rewrite count_app, (count_calm_insert _ C). done.
    + rewrite (POST_gather_throws _ _ _ _ _ Hu G).
      eexists _, st1. repeat split; [|done].
      rewrite (new_events_trace _ _ _ T). by apply count_calm_insert.
  - reflexivity.
Qed.

Lemma completion_failure_gives_defaults_witness :
  (exists resp st',
     POST (calm_env CompletionNoChoices (OcrOk None)) request_alice
       (state_of db_empty_selections) = (Ret resp, st')
     /\ body_recommendations resp = Some defaultRecommendations
     /\ count is_insert (new_events (state_of db_empty_selections) st') = O
     /\ role_recommendations (db st')
        = role_recommendations (db (state_of db_empty_selections)))
  /\ (generateRoleRecommendations (calm_env CompletionNoChoices (OcrOk None))
        (Some empty_discovery) None (state_of db_empty_selections)).1
     = Ret defaultRecommendations.
Proof.
  apply (completion_failure_gives_defaults
           (calm_env CompletionNoChoices (OcrOk None)) request_alice
           (state_of db_empty_selections) (Some empty_discovery) None).
  - reflexivity.
  - intros tr p. reflexivity.
Defined.

(** ** The profile read and the resume *)

Lemma select_profile_run env userId columns st :
  select_profile env userId columns st
  = (Ret (if env_profile_select_error env (trace st) userId then None
          else profiles (db st) !! userId),
     after_event (EvProfileSelect userId columns) st).
Proof.
  unfold select_profile, mbind, M_bind, bind, get_trace, emit, get_db, ret.
  simpl. by destruct (env_profile_select_error env (trace st) userId).
Qed.

(** X10: the handler cannot fall back on the resume link of the profile.
    When the request names no resume and the profile that is read has a
    [resume_link], the assignment [resumeUrl = profileData.resume_link]
    to the [const] binding throws: the handler answers 500 "Server error"
    with the default recommendations, and the profile read is the only
    call of the run. *)
Theorem stored_link_ends_in_server_error (env : Env) (request : Request)
    (st : State) (profileData : Profile) :
  let userId : jsstring := default [] (req_userId request) in
  opt_truthy (req_userId request) = true ->
  opt_truthy (req_resumeUrl request) = false ->
  env_profile_select_error env (trace st) userId = false ->
  profiles (db st) !! userId = Some profileData ->
  opt_truthy (resume_link profileData) = true ->
  POST env request st
  = (Ret (ServerError (u16 "Server error") defaultRecommendations),
     after_event (EvProfileSelect userId handler_columns) st)
  /\ status (ServerError (u16 "Server error") defaultRecommendations) = 500.
Proof.
  intros userId Hu Hr He Hp Hl. subst userId. split; [|done].
  apply POST_gather_throws with (e := TypeError "Assignment to constant variable.");
    [done|].
  unfold gather.
  erewrite run_bind_ret; [|apply select_profile_run].
  rewrite He, Hp. rewrite Hr, Hl. reflexivity.
Qed.

Lemma stored_link_ends_in_server_error_witness :
  POST (calm_env (CompletionContent (Some three_roles)) (OcrOk (Some one_page)))
       request_alice (state_of db_with_link)
  = (Ret (ServerError (u16 "Server error") defaultRecommendations),
     after_event (EvProfileSelect alice handler_columns)
       (state_of db_with_link))
  /\ status (ServerError (u16 "Server error") defaultRecommendations) = 500.
Proof.
  apply (stored_link_ends_in_server_error
           (calm_env (CompletionContent (Some three_roles))
              (OcrOk (Some one_page)))
           request_alice (state_of db_with_link) profile_with_link);
    reflexivity.
Defined.

Lemma gather_with_resume env userId request st :
  opt_truthy (req_resumeUrl request) = true ->
  gather env userId request st
  = (resumeText ←
       try_catch
         (text ← extractResumeText env (default [] (req_resumeUrl request))
                   (env_mistralApiKey env);
          (if str_truthy text then
             update_profile env userId (EvProfileUpdateText userId text)
               (set_resume_text text)
           else ret tt);;
          ret text)
         (fun error => ret []);
     ret (stored_discovery env st userId, resumeText))
      (after_event (EvProfileSelect userId handler_columns) st).
Proof.
  intros Hr. unfold gather.
  erewrite run_bind_ret; [|apply select_profile_run].
  unfold stored_discovery.
  destruct (env_profile_select_error env (trace st) userId).
  - erewrite run_bind_ret; [|reflexivity]. cbv beta iota. by rewrite Hr.
  - destruct (profiles (db st) !! userId) as [p|].
    + rewrite Hr. simpl negb. cbv iota.
      erewrite run_bind_ret; [|reflexivity]. cbv beta iota. by rewrite Hr.
    + erewrite run_bind_ret; [|reflexivity]. cbv beta iota. by rewrite Hr.
Qed.

Lemma extract_fails env documentUrl apiKey st :
  opt_truthy apiKey = false
  \/ ocr_fails (env_ocr env (trace st) documentUrl) = true ->
  exists e evs,
    extractResumeText env documentUrl apiKey st
    = (Throw e, {| db := db st; ui := ui st; trace := trace st ++ evs |})
    /\ forallb is_ocr evs = true.
Proof.
  intros H. unfold extractResumeText.
  destruct (str_truthy documentUrl); simpl negb; cbv iota.
  2:{ eexists _, []. rewrite app_nil_r. split; [|done]. by destruct st. }
  destruct (opt_truthy apiKey) eqn:K; simpl negb; cbv iota.
  2:{ eexists _, []. rewrite app_nil_r. split; [|done]. by destruct st. }
  destruct H as [H|H]; [done|].
  unfold try_catch, mbind, M_bind, bind, get_trace, emit. simpl.
  destruct (env_ocr env (trace st) documentUrl) as [e|m s|[pages|]];
    try discriminate; eexists _, [_]; (split; [reflexivity|done]).
Qed.

Lemma gather_extraction_fails env userId request st :
  opt_truthy (req_resumeUrl request) = true ->
  (opt_truthy (env_mistralApiKey env) = false
   \/ forall tr url, ocr_fails (env_ocr env tr url) = true) ->
  exists evs,
    gather env userId request st
    = (Ret (stored_discovery env st userId, []),
       {| db := db st; ui := ui st;
          trace := trace st ++ EvProfileSelect userId handler_columns :: evs |})
    /\ forallb is_ocr evs = true.
Proof.
  intros Hr Hf. rewrite (gather_with_resume _ _ _ _ Hr).
  destruct (extract_fails env (default [] (req_resumeUrl request))
              (env_mistralApiKey env)
              (after_event (EvProfileSelect userId handler_columns) st))
    as (e & evs & E & P).
  { destruct Hf as [Hf|Hf]; [by left|right; apply Hf]. }
  exists evs. split; [|done].
  erewrite run_bind_ret.
  2:{ erewrite run_try_throw; [reflexivity|].
      erewrite run_bind_throw; [reflexivity|exact E]. }
  simpl. by rewrite <- app_assoc.
Qed.

Lemma count_update_text_ocr evs :
  forallb is_ocr evs = true -> count is_update_text evs = O.
Proof.
  induction evs as [|e evs IH]; simpl; [done|].
  intros [He H]%andb_prop. rewrite (IH H). by destruct e.
Qed.

Lemma count_completion_ocr evs :
  forallb is_ocr evs = true -> count is_completion evs = O.
Proof.
  induction evs as [|e evs IH]; simpl; [done|].
  intros [He H]%andb_prop. rewrite (IH H). by destruct e.
Qed.

(** X11: a failed extraction does not fail the request.  When the request
    names a resume and the extraction gives no text (no API key is
    configured, the OCR call rejects, its response is not ok or has no
    pages), the handler goes on with an empty resume text: nothing is
    written to the profile; with discovery data in the profile the
    completion endpoint is called with that data and the empty text, and
    the answer is a 200 response; without discovery data the answer is
    the default set and the endpoint is not called. *)
Theorem extraction_failure_is_not_fatal (env : Env) (request : Request)
    (st : State) :
  let userId : jsstring := default [] (req_userId request) in
  let discoveryData := stored_discovery env st userId in
  opt_truthy (req_userId request) = true ->
  opt_truthy (req_resumeUrl request) = true ->
  (opt_truthy (env_mistralApiKey env) = false
   \/ forall tr url, ocr_fails (env_ocr env tr url) = true) ->
  exists resp st',
    POST env request st = (Ret resp, st')
    /\ status resp = 200
    /\ profiles (db st') = profiles (db st)
    /\ count is_update_text (new_events st st') = O
    /\ (if truthy discoveryData then
          count is_completion (new_events st st') = 1%nat
          /\ exists before after,
               new_events st st'
               = before ++ EvCompletion (make_prompt discoveryData []) :: after
        else
          resp = Ok200 defaultRecommendations
          /\ count is_completion (new_events st st') = O).
Proof.
  intros userId d Hu Hr Hf. subst userId d.
  destruct (gather_extraction_fails env (default [] (req_userId request))
              request st Hr Hf) as (evs & G & P).
  rewrite (POST_after_gather _ _ _ _ _ _ Hu G).
  set (d := stored_discovery env st (default [] (req_userId request))) in *.
  set (st1 := {| db := db st; ui := ui st; trace := _ |}) in *.
  destruct (truthy d) eqn:Hd; simpl negb; cbv iota.
  - simpl andb. cbv iota.
    destruct (generate env (default [] (req_userId request))
                (make_prompt d []) st1) as [o st2] eqn:E.
    destruct (generate_calls_endpoint _ _ _ _ _ _ E)
      as [[r ->] (evs2 & T2 & C2)].
    destruct (generation_frame_generate _ _ _ _ _ _ E)
      as (U & Q & evs3 & T3 & P3).
    assert (evs3 = EvCompletion (make_prompt d []) :: evs2) as ->.
    { apply (app_inv_head (trace st1)). congruence. }
    unfold try_catch. rewrite (run_bind_ret _ _ _ _ _ E).
    assert (new_events st st2
            = (EvProfileSelect (default [] (req_userId request)) handler_columns
                 :: evs) ++ EvCompletion (make_prompt d []) :: evs2) as N.
    { apply new_events_trace. rewrite T2. subst st1. simpl.
      by rewrite <- app_assoc. }
    assert (exists resp, (match r with
                          | inl response => ret response
                          | inr recs => ret (Ok200 recs)
                          end) st2 = (Ret resp, st2) /\ status resp = 200)
      as (resp & -> & S).
    { destruct r as [response|recs].
      - rewrite (generate_early_return _ _ _ _ _ _ E). by eexists.
      - by eexists. }
    exists resp, st2. split; [done|]. split; [done|]. split; [by rewrite Q|].
    rewrite N. split.
    { rewrite count_app. simpl. rewrite (count_update_text_ocr _ P).
      simpl in P3. by rewrite (count_update_text_generation _ P3). }
    split; [|by eexists _, _].
    rewrite count_app. simpl. rewrite (count_completion_ocr _ P), C2. done.
  - exists (Ok200 defaultRecommendations), st1.
    split; [done|]. split; [done|]. split; [done|].
    assert (new_events st st1
            = EvProfileSelect (default [] (req_userId request)) handler_columns
                :: evs) as N by by apply new_events_trace.
    rewrite N. simpl. rewrite (count_update_text_ocr _ P).
    by rewrite (count_completion_ocr _ P).
Qed.

Lemma extraction_failure_is_not_fatal_witness :
  let env := calm_env (CompletionContent (Some three_roles))
               (OcrNotOk None (u16 "Unauthorized")) in
  let st := state_of db_empty_selections in
  exists resp st',
    POST env request_with_resume st = (Ret resp, st')
    /\ status resp = 200
    /\ profiles (db st') = profiles (db st)
    /\ count is_update_text (new_events st st') = O
    /\ (if truthy (stored_discovery env st alice) then
          count is_completion (new_events st st') = 1%nat
          /\ exists before after,
               new_events st st'
               = before
                 ++ EvCompletion (make_prompt (stored_discovery env st alice) [])
                    :: after
        else
          resp = Ok200 defaultRecommendations
          /\ count is_completion (new_events st st') = O).
Proof.
  apply (extraction_failure_is_not_fatal
           (calm_env (CompletionContent (Some three_roles))
              (OcrNotOk None (u16 "Unauthorized")))
           request_with_resume (state_of db_empty_selections)).
  - reflexivity.
  - reflexivity.
  - right. intros tr url. reflexivity.
Defined.

Lemma extract_run env documentUrl apiKey pages st :
  str_truthy documentUrl = true ->
  opt_truthy apiKey = true ->
  env_ocr env (trace st) documentUrl = OcrOk (Some pages) ->
  extractResumeText env documentUrl apiKey st
  = (Ret (combine_pages pages),
     after_event (EvOcr documentUrl (default [] apiKey)) st).
Proof.
  intros Hd Hk Ho. unfold extractResumeText. rewrite Hd, Hk. simpl negb.
  cbv iota. unfold try_catch, mbind, M_bind, bind, get_trace, emit. simpl.
  by rewrite Ho.
Qed.

Lemma update_profile_run env userId ev change st :
  update_profile env userId ev change st
  = (Ret tt,
     {| db := if env_profile_update_error env (trace st) userId then db st
              else {| role_recommendations := role_recommendations (db st);
                      profiles := alter change userId (profiles (db st)) |};
        ui := ui st;
        trace := trace st ++ [ev] |}).
Proof.
  unfold update_profile, mbind, M_bind, bind, get_trace, emit, get_db, set_db,
    ret. simpl.
  by destruct (env_profile_update_error env (trace st) userId).
Qed.

(** X12: the text of the resume is stored and sent.  When the request names
    a resume, a key is configured and the OCR service answers with pages
    whose combined text is not empty, the handler writes that text to the
    [resume_text] of the user's profile (and to nothing else; if the store
    refuses the update, the run goes on all the same) and then calls the
    completion endpoint once, with the discovery data of the profile and
    that text; the answer is a 200 response. *)
Theorem extracted_text_is_stored_and_sent (env : Env) (request : Request)
    (st : State) (url key : jsstring) (pages : list Page) :
  let userId : jsstring := default [] (req_userId request) in
  let text := combine_pages pages in
  let st1 := after_event (EvProfileSelect userId handler_columns) st in
  let st2 := after_event (EvOcr url key) st1 in
  opt_truthy (req_userId request) = true ->
  req_resumeUrl request = Some url ->
  str_truthy url = true ->
  env_mistralApiKey env = Some key ->
  str_truthy key = true ->
  env_ocr env (trace st1) url = OcrOk (Some pages) ->
  str_truthy text = true ->
  exists resp st' after,
    POST env request st = (Ret resp, st')
    /\ status resp = 200
    /\ profiles (db st')
       = (if env_profile_update_error env (trace st2) userId
          then profiles (db st)
          else alter (set_resume_text text) userId (profiles (db st)))
    /\ new_events st st'
       = [ EvProfileSelect userId handler_columns;
           EvOcr url key;
           EvProfileUpdateText userId text;
           EvCompletion (make_prompt (stored_discovery env st userId) text) ]
         ++ after
    /\ count is_completion after = O.
Proof.
  intros userId text st1 st2 Hu Hr Hurl Hk Hkey Ho Ht.
  assert (opt_truthy (req_resumeUrl request) = true) as Hr' by by rewrite Hr.
  pose proof (gather_with_resume env userId request st Hr') as G.
  rewrite Hr, Hk in G. simpl default in G. fold st1 in G.
  erewrite run_bind_ret in G.
  2:{ erewrite run_try_ret; [reflexivity|].
      erewrite run_bind_ret; [|by apply (extract_run env url (Some key) pages st1)].
      fold text. rewrite Ht.
      erewrite run_bind_ret; [reflexivity|apply update_profile_run]. }
  simpl default in G. fold st2 in G.
  set (st3 := {| db := _; ui := ui st2; trace := _ |}) in G.
  set (d := stored_discovery env st userId) in *.
  unfold ret in G.
  rewrite (POST_after_gather _ _ _ _ _ _ Hu G). rewrite Ht.
  rewrite andb_false_r.
  destruct (generate env (default [] (req_userId request))
              (make_prompt d text) st3) as [o st4] eqn:E.
  destruct (generate_calls_endpoint _ _ _ _ _ _ E)
    as [[r ->] (evs2 & T2 & C2)].
  destruct (generation_frame_generate _ _ _ _ _ _ E) as (U & Q & _).
  unfold try_catch. rewrite (run_bind_ret _ _ _ _ _ E).
  assert (exists resp, (match r with
                        | inl response => ret response
                        | inr recs => ret (Ok200 recs)
                        end) st4 = (Ret resp, st4) /\ status resp = 200)
    as (resp & -> & S).
  { destruct r as [response|recs].
    - rewrite (generate_early_return _ _ _ _ _ _ E). by eexists.
    - by eexists. }
  exists resp, st4, evs2. split; [done|]. split; [done|]. split.
  { rewrite Q. subst st3. simpl.
    match goal with
    | |- context [if ?b then _ else _] => destruct b
    end; reflexivity. }
  split; [|done].
  apply new_events_trace. rewrite T2. subst st3 st2 st1. simpl.
  by rewrite <- !app_assoc.
Qed.

Lemma extracted_text_is_stored_and_sent_witness :
  let env := calm_env (CompletionContent (Some three_roles))
               (OcrOk (Some one_page)) in
  let st := state_of db_empty_selections in
  let url := u16 "https://storage/sign/cv.pdf" in
  let key := u16 "mistral-key" in
  let text := combine_pages one_page in
  let st1 := after_event (EvProfileSelect alice handler_columns) st in
  let st2 := after_event (EvOcr url key) st1 in
  exists resp st' after,
    POST env request_with_resume st = (Ret resp, st')
    /\ status resp = 200
    /\ profiles (db st')
       = (if env_profile_update_error env (trace st2) alice
          then profiles (db st)
          else alter (set_resume_text text) alice (profiles (db st)))
    /\ new_events st st'
       = [ EvProfileSelect alice handler_columns;
           EvOcr url key;
           EvProfileUpdateText alice text;
           EvCompletion (make_prompt (stored_discovery env st alice) text) ]
         ++ after
    /\ count is_completion after = O.
Proof.
  apply (extracted_text_is_stored_and_sent
           (calm_env (CompletionContent (Some three_roles))
              (OcrOk (Some one_page)))
           request_with_resume (state_of db_empty_selections)
           (u16 "https://storage/sign/cv.pdf") (u16 "mistral-key") one_page);
    reflexivity.
Defined.

(** ** The extraction *)

(** X1: [extractResumeText] returns a text exactly when the document URL and
    the API key are not empty and the OCR service answers ok with a list
    of pages; the text is then the combined text of the pages, and the
    one OCR call, for that URL with that key, is all the function has
    done. *)
Theorem extractResumeText_returns_iff (env : Env) (documentUrl : jsstring)
    (apiKey : option jsstring) (st : State) (text : jsstring) (st' : State) :
  extractResumeText env documentUrl apiKey st = (Ret text, st')
  <-> (str_truthy documentUrl = true
       /\ opt_truthy apiKey = true
       /\ (exists pages,
             env_ocr env (trace st) documentUrl = OcrOk (Some pages)
             /\ text = combine_pages pages)
       /\ st' = after_event (EvOcr documentUrl (default [] apiKey)) st).
Proof.
  split.
  - unfold extractResumeText.
    destruct (str_truthy documentUrl); simpl negb; cbv iota;
      [|intros H; inversion H].
    destruct (opt_truthy apiKey); simpl negb; cbv iota;
      [|intros H; inversion H].
    unfold try_catch, mbind, M_bind, bind, get_trace, emit. simpl.
    destruct (env_ocr env (trace st) documentUrl) as [e|m s|[pages|]];
      unfold throw, ret; intros H; inversion H; subst.
    repeat split. by exists pages.
  - intros (Hd & Hk & (pages & Ho & ->) & ->). by apply extract_run.
Qed.



(** ** The client functions *)

Lemma POST_returns env request st :
  exists resp st', POST env request st = (Ret resp, st').
Proof.
  destruct (opt_truthy (req_userId request)) eqn:Hu.
  - destruct (gather env (default [] (req_userId request)) request st)
      as [[[d t]|e|] st1] eqn:G.
    + rewrite (POST_after_gather _ _ _ _ _ _ Hu G).
      destruct (negb (truthy d) && negb (str_truthy t)); [by eexists _, _|].
      destruct (generate env (default [] (req_userId request))
                  (make_prompt d t) st1) as [o st2] eqn:E.
      destruct (generate_calls_endpoint _ _ _ _ _ _ E) as [[r ->] _].
      unfold try_catch. rewrite (run_bind_ret _ _ _ _ _ E).
      destruct r; by eexists _, _.
    + rewrite (POST_gather_throws _ _ _ _ _ Hu G). by eexists _, _.
    + by destruct (quiet_gather _ _ _ _ _ _ G) as (N & _).
  - eexists _, st. unfold POST. by rewrite Hu.
Qed.

Lemma generateRecommendations_run env userId resumeUrl st :
  let st1 := after_event (EvApiFetch userId resumeUrl) st in
  let request := {| req_userId := userId; req_resumeUrl := resumeUrl |} in
  generateRecommendations env userId resumeUrl st
  = if env_api_fetch_rejects env (trace st)
    then (Ret defaultRecommendations, st1)
    else match POST env request st1 with
         | (Ret resp, st') => (Ret (client_result resp), st')
         | other => (Ret defaultRecommendations, other.2)
         end.
Proof.
  intros st1 request. unfold generateRecommendations, try_catch.
  unfold mbind at 1 2, M_bind at 1 2, bind at 1 2, get_trace, emit. simpl.
  destruct (env_api_fetch_rejects env (trace st)); [reflexivity|].
  fold st1. fold request.
  destruct (POST_returns env request st1) as (resp & st' & E).
  rewrite (run_bind_ret _ _ _ _ _ E). rewrite E.
  by destruct resp.
Qed.

(** X16: [generateRecommendations] never throws.  It makes one request to
    the handler; when the request itself fails it returns the default
    recommendations; otherwise it returns the recommendations of a 200
    response, and the defaults for the 400 and the 500 response. *)
Theorem generateRecommendations_never_throws (env : Env)
    (userId resumeUrl : option jsstring) (st : State) :
  let st1 := after_event (EvApiFetch userId resumeUrl) st in
  let request := {| req_userId := userId; req_resumeUrl := resumeUrl |} in
  exists recs st',
    generateRecommendations env userId resumeUrl st = (Ret recs, st')
    /\ if env_api_fetch_rejects env (trace st)
       then recs = defaultRecommendations /\ st' = st1
       else exists resp,
              POST env request st1 = (Ret resp, st')
              /\ recs = match resp with
                        | Ok200 recommendations => recommendations
                        | _ => defaultRecommendations
                        end.
Proof.
  intros st1 request. rewrite generateRecommendations_run.
  fold st1. fold request.
  destruct (env_api_fetch_rejects env (trace st)); [by eexists _, _|].
  destruct (POST_returns env request st1) as (resp & st' & E). rewrite E.
  eexists _, _. split; [reflexivity|]. by exists resp.
Qed.

Lemma generateRecommendations_returns env userId resumeUrl st :
  exists recs st',
    generateRecommendations env userId resumeUrl st = (Ret recs, st').
Proof.
  rewrite generateRecommendations_run.
  destruct (env_api_fetch_rejects env (trace st)); [by eexists _, _|].
  destruct (POST_returns env {| req_userId := userId; req_resumeUrl := resumeUrl |}
              (after_event (EvApiFetch userId resumeUrl) st))
    as (resp & st' & E).
  rewrite E. by eexists _, _.
Qed.

Lemma refresh_run env userId st :
  str_truthy userId = true ->
  getRecommendations env (Some userId) true st
  = generateRecommendations env (Some userId) (stored_link env st userId)
      (after_event (EvProfileSelect userId (u16 "resume_link")) st).
Proof.
  intros Hu. unfold getRecommendations.
  change (opt_truthy (Some userId)) with (str_truthy userId). rewrite Hu.
  simpl negb. cbv iota. simpl default.
  destruct (generateRecommendations_returns env (Some userId)
              (stored_link env st userId)
              (after_event (EvProfileSelect userId (u16 "resume_link")) st))
    as (recs & st' & E).
  rewrite E. apply run_try_ret. simpl negb. cbv iota.
  erewrite (run_bind_ret (ret None)); [|reflexivity]. cbv beta iota.
  erewrite run_bind_ret; [|apply select_profile_run].
  rewrite <- E. unfold stored_link. simpl default.
  destruct (env_profile_select_error env (trace st) userId); [done|].
  reflexivity.
Qed.

Lemma cache_miss_run env userId st :
  str_truthy userId = true ->
  (env_recs_select_error env (trace st) userId = true
   \/ filter (fun r => row_user_id r = userId) (role_recommendations (db st))
      = []) ->
  getRecommendations env (Some userId) false st
  = getRecommendations env (Some userId) true
      (after_event (EvRecsSelect userId) st).
Proof.
  intros Hu Hm. unfold getRecommendations.
  change (opt_truthy (Some userId)) with (str_truthy userId). rewrite Hu.
  cbn [negb default]. cbv beta iota.
  unfold try_catch.
  assert (select_recommendations env userId st
          = (Ret (if env_recs_select_error env (trace st) userId then None
                  else Some (recent_rows userId (role_recommendations (db st)))),
             after_event (EvRecsSelect userId) st)) as S.
  { unfold select_recommendations, mbind, M_bind, bind, get_trace, emit,
      get_db, ret. simpl.
    by destruct (env_recs_select_error env (trace st) userId). }
  rewrite (run_bind_ret _ _ _ (None : option (list JsValue))
             (after_event (EvRecsSelect userId) st)).
  2:{ erewrite run_bind_ret; [|exact S].
      destruct (env_recs_select_error env (trace st) userId); [done|].
      destruct Hm as [Hm|Hm]; [done|].
      unfold recent_rows. rewrite Hm. reflexivity. }
  erewrite (run_bind_ret (ret None)); [|reflexivity]. reflexivity.
Qed.

Lemma calls_only_preorder P : PreOrder (calls_only P).
Proof.
  split.
  - intros st. exists []. by rewrite app_nil_r.
  - intros st1 st2 st3 (e1 & T1 & P1) (e2 & T2 & P2).
    exists (e1 ++ e2). rewrite T2, T1, <- app_assoc. split; [done|].
    rewrite forallb_app. by rewrite P1, P2.
Qed.

Lemma generateRecommendations_trace env userId resumeUrl st o st' :
  generateRecommendations env userId resumeUrl st = (o, st') ->
  ui st' = ui st
  /\ exists evs,
       trace st' = trace st ++ EvApiFetch userId resumeUrl :: evs
       /\ forallb (handler_event (default [] userId)) evs = true.
Proof.
  rewrite generateRecommendations_run.
  destruct (env_api_fetch_rejects env (trace st)).
  { intros [= <- <-]. split; [done|]. by exists []. }
  destruct (POST env {| req_userId := userId; req_resumeUrl := resumeUrl |}
              (after_event (EvApiFetch userId resumeUrl) st))
    as [o1 st1] eqn:E.
  destruct (frame_POST _ _ _ _ _ E) as (U & (evs & T & P) & _).
  intros H. assert (st' = st1) as -> by (destruct o1; by injection H).
  split; [done|]. exists evs. split; [|done].
  rewrite T. simpl. by rewrite <- app_assoc.
Qed.

Lemma handler_event_client userId evs :
  forallb (handler_event userId) evs = true ->
  forallb (client_event userId) evs = true.
Proof.
  induction evs as [|e evs IH]; simpl; [done|].
  intros [He H]%andb_prop. rewrite (IH H), andb_true_r. by destruct e.
Qed.

Lemma count_recs_select_handler userId evs :
  forallb (handler_event userId) evs = true -> count is_recs_select evs = O.
Proof.
  induction evs as [|e evs IH]; simpl; [done|].
  intros [He H]%andb_prop. rewrite (IH H). by destruct e.
Qed.

Lemma count_api_fetch_handler userId evs :
  forallb (handler_event userId) evs = true -> count is_api_fetch evs = O.
Proof.
  induction evs as [|e evs IH]; simpl; [done|].
  intros [He H]%andb_prop. rewrite (IH H). by destruct e.
Qed.

(** X17: a forced refresh does not look at the stored recommendations.  With
    [forceRefresh] the function reads the [resume_link] of the profile and
    makes one request to the handler, with the userId and that link (none
    when the read fails or there is no profile); it returns what
    [generateRecommendations] returns for them, and the
    [role_recommendations] table is not read. *)
Theorem forced_refresh_asks_the_handler (env : Env) (userId : jsstring)
    (st : State) :
  str_truthy userId = true ->
  exists recs st' evs,
    getRecommendations env (Some userId) true st = (Ret recs, st')
    /\ generateRecommendations env (Some userId) (stored_link env st userId)
         (after_event (EvProfileSelect userId (u16 "resume_link")) st)
       = (Ret recs, st')
    /\ new_events st st'
       = EvProfileSelect userId (u16 "resume_link")
           :: EvApiFetch (Some userId) (stored_link env st userId) :: evs
    /\ count is_recs_select (new_events st st') = O
    /\ count is_api_fetch (new_events st st') = 1%nat.
Proof.
  intros Hu. rewrite (refresh_run _ _ _ Hu).
  destruct (generateRecommendations_returns env (Some userId)
              (stored_link env st userId)
              (after_event (EvProfileSelect userId (u16 "resume_link")) st))
    as (recs & st' & E).
  destruct (generateRecommendations_trace _ _ _ _ _ _ E) as (_ & evs & T & P).
  exists recs, st', evs. split; [done|]. split; [done|].
  assert (new_events st st'
          = EvProfileSelect userId (u16 "resume_link")
              :: EvApiFetch (Some userId) (stored_link env st userId) :: evs)
    as N.
  { apply new_events_trace. rewrite T. simpl. by rewrite <- app_assoc. }
  rewrite N. split; [done|]. simpl.
  by rewrite (count_recs_select_handler _ _ P), (count_api_fetch_handler _ _ P).
Qed.

Lemma forced_refresh_asks_the_handler_witness :
  let env := calm_env (CompletionContent (Some three_roles)) (OcrOk None) in
  let st := state_of db_cached in
  exists recs st' evs,
    getRecommendations env (Some alice) true st = (Ret recs, st')
    /\ generateRecommendations env (Some alice) (stored_link env st alice)
         (after_event (EvProfileSelect alice (u16 "resume_link")) st)
       = (Ret recs, st')
    /\ new_events st st'
       = EvProfileSelect alice (u16 "resume_link")
           :: EvApiFetch (Some alice) (stored_link env st alice) :: evs
    /\ count is_recs_select (new_events st st') = O
    /\ count is_api_fetch (new_events st st') = 1%nat.
Proof.
  apply (forced_refresh_asks_the_handler
           (calm_env (CompletionContent (Some three_roles)) (OcrOk None))
           alice (state_of db_cached)).
  reflexivity.
Defined.

(** X18: a cache miss is a refresh.  When the read of the stored
    recommendations fails, or finds no row of the user, the function goes
    on exactly as a forced refresh does after that read. *)
Theorem cache_miss_is_a_refresh (env : Env) (userId : jsstring) (st : State) :
  str_truthy userId = true ->
  (env_recs_select_error env (trace st) userId = true
   \/ filter (fun r => row_user_id r = userId) (role_recommendations (db st))
      = []) ->
  getRecommendations env (Some userId) false st
  = getRecommendations env (Some userId) true
      (after_event (EvRecsSelect userId) st).
Proof. apply cache_miss_run. Qed.

Lemma cache_miss_is_a_refresh_witness :
  let env := calm_env (CompletionContent (Some three_roles)) (OcrOk None) in
  getRecommendations env (Some alice) false (state_of db_empty_selections)
  = getRecommendations env (Some alice) true
      (after_event (EvRecsSelect alice) (state_of db_empty_selections)).
Proof.
  apply (cache_miss_is_a_refresh
           (calm_env (CompletionContent (Some three_roles)) (OcrOk None))
           alice (state_of db_empty_selections)).
  - reflexivity.
  - right. reflexivity.
Defined.

Lemma select_recommendations_run env userId st :
  select_recommendations env userId st
  = (Ret (if env_recs_select_error env (trace st) userId then None
          else Some (recent_rows userId (role_recommendations (db st)))),
     after_event (EvRecsSelect userId) st).
Proof.
  unfold select_recommendations, mbind, M_bind, bind, get_trace, emit,
    get_db, ret. simpl.
  by destruct (env_recs_select_error env (trace st) userId).
Qed.

Lemma getRecommendations_returns env userId forceRefresh st :
  exists recs st',
    getRecommendations env userId forceRefresh st = (Ret recs, st').
Proof.
  destruct (opt_truthy userId) eqn:Hu.
  2:{ unfold getRecommendations. rewrite Hu. by eexists _, _. }
  destruct userId as [userId|]; [|done].
  change (str_truthy userId = true) in Hu.
  assert (exists recs st',
            getRecommendations env (Some userId) true st = (Ret recs, st'))
    as Hrefresh.
  { intros. rewrite (refresh_run _ _ _ Hu).
    apply generateRecommendations_returns. }
  destruct forceRefresh; [done|].
  destruct (env_recs_select_error env (trace st) userId) eqn:He.
  { rewrite cache_miss_run; [|done|by left].
    rewrite (refresh_run _ _ _ Hu). apply generateRecommendations_returns. }
  destruct (recent_rows userId (role_recommendations (db st)))
    as [|r rows] eqn:Hrows.
  { rewrite cache_miss_run; [|done|].
    - rewrite (refresh_run _ _ _ Hu). apply generateRecommendations_returns.
    - right.
      destruct (filter _ (role_recommendations (db st))) as [|x l] eqn:F;
        [done|].
      exfalso. pose proof (recent_rows_length userId (role_recommendations (db st)))
        as L.
      rewrite Hrows, F in L. simpl in L. lia. }
  unfold getRecommendations.
  change (opt_truthy (Some userId)) with (str_truthy userId). rewrite Hu.
  cbn [negb default]. cbv beta iota.
  eexists _, _. apply run_try_ret.
  erewrite run_bind_ret.
  2:{ erewrite run_bind_ret; [|apply select_recommendations_run].
      unfold id. rewrite He, Hrows. reflexivity. }
  reflexivity.
Qed.

Lemma getRecommendations_calls env userId forceRefresh :
  within (calls_only (client_event (default [] userId)))
    (getRecommendations env userId forceRefresh).
Proof.
  pose proof (calls_only_preorder (client_event (default [] userId))) as PO.
  unfold getRecommendations.
  destruct (opt_truthy userId) eqn:Hu; cbn [negb]; cbv iota;
    [|by apply within_ret].
  destruct userId as [userId|]; [|done]. simpl default in *.
  apply within_try_catch; [done| |intros e; by apply within_ret].
  apply within_bind; [done| |].
  { destruct forceRefresh; cbn [negb]; cbv iota; [by apply within_ret|].
    apply within_bind; [done| |].
    - intros st o st'. rewrite select_recommendations_run.
      intros [= <- <-]. exists [EvRecsSelect userId]. split; [done|].
      simpl. by rewrite bool_decide_eq_true_2.
    - intros [rows|]; [|by apply within_ret].
      destruct (bool_decide _); by apply within_ret. }
  intros [recs|]; [by apply within_ret|].
  apply within_bind; [done| |].
  - intros st o st'. rewrite select_profile_run.
    intros [= <- <-]. exists [EvProfileSelect userId (u16 "resume_link")].
    split; [done|]. simpl. by rewrite bool_decide_eq_true_2.
  - intros profile st o st' E.
    destruct (generateRecommendations_trace _ _ _ _ _ _ E) as (_ & evs & T & P).
    eexists. split; [exact T|]. simpl.
    rewrite bool_decide_eq_true_2 by done.
    by apply handler_event_client.
Qed.

Lemma count_toast_client userId evs :
  forallb (client_event userId) evs = true -> count is_toast evs = O.
Proof.
  induction evs as [|e evs IH]; simpl; [done|].
  intros [He H]%andb_prop. rewrite (IH H). by destruct e.
Qed.

(** X20: [getRecommendations] never rejects, so the [catch] block of
    [fetchRecommendations] is never entered: whatever the services answer,
    the call shows no error toast, ends with [isLoading] off, and for a
    signed-in user ends with [isRefreshing] off and with the list that
    [getRecommendations] returned as the recommendations shown.  Without a
    user no call is made and the list is left as it is. *)
Theorem fetchRecommendations_never_reports (env : Env) (user : option User)
    (forceRefresh : bool) (v : View) (st : State) :
  exists v' st',
    fetchRecommendations env user forceRefresh v st = (Ret v', st')
    /\ isLoading v' = false
    /\ count is_toast (new_events st st') = O
    /\ match user with
       | None =>
           st' = st /\ recommendations v' = recommendations v
       | Some u =>
           isRefreshing v' = false
           /\ getRecommendations env (Some (user_id u)) forceRefresh st
              = (Ret (recommendations v'), st')
       end.
Proof.
  destruct user as [u|]; simpl.
  - destruct (getRecommendations_returns env (Some (user_id u)) forceRefresh st)
      as (recs & st' & E).
    destruct (getRecommendations_calls _ _ _ _ _ _ E) as (evs & T & P).
    eexists _, st'. split.
    { erewrite run_bind_ret; [reflexivity|].
      apply run_try_ret. erewrite run_bind_ret; [reflexivity|exact E]. }
    split; [done|]. split; [|by destruct forceRefresh].
    rewrite (new_events_trace _ _ _ T). by apply count_toast_client in P.
  - eexists _, st. split; [reflexivity|]. split; [done|]. split; [|done].
    unfold new_events. by rewrite drop_all.
Qed.

(** X19: [getRecommendations] always returns a list.  For every userId,
    flag and answers of the services the call returns (it never throws),
    and the calls it makes are the read of the stored recommendations, the
    read of the profile, the request to the handler and the calls of the
    handler, all for that userId. *)
Theorem getRecommendations_always_returns (env : Env)
    (userId : option jsstring) (forceRefresh : bool) (st : State) :
  exists recs st' evs,
    getRecommendations env userId forceRefresh st = (Ret recs, st')
    /\ trace st' = trace st ++ evs
    /\ forallb (client_event (default [] userId)) evs = true
    /\ (forceRefresh = true -> count is_recs_select evs = O).
Proof.
  destruct (getRecommendations_returns env userId forceRefresh st)
    as (recs & st' & E).
  destruct (getRecommendations_calls _ _ _ _ _ _ E) as (evs & T & P).
  exists recs, st', evs. split; [done|]. split; [done|]. split; [done|].
  intros ->. destruct (opt_truthy userId) eqn:Hu.
  - destruct userId as [userId|]; [|done].
    change (str_truthy userId = true) in Hu.
    rewrite (refresh_run _ _ _ Hu) in E.
    destruct (generateRecommendations_trace _ _ _ _ _ _ E)
      as (_ & evs' & T' & P').
    simpl in T'. rewrite <- app_assoc in T'. rewrite T in T'.
    apply app_inv_head in T'. subst evs. simpl.
    by apply count_recs_select_handler in P'.
  - unfold getRecommendations in E. rewrite Hu in E.
    injection E as <- <-.
    assert (evs = []) as ->; [|done].
    apply (app_inv_head (trace st)). by rewrite app_nil_r.
Qed.

(** ** The outcomes of an upload *)

Lemma uploadFile_start fuel env user notify file st :
  uploadFile (S fuel) env (Some user) notify file st
  = try_catch
      (upload_once env user notify file)
      (fun error =>
         if is_not_found error then
           try_catch
             (provision env user;;
              uploadFile fuel env (Some user) notify file)
             (fun folderError => throw folderError)
         else
           let errorMessage :=
             if err_is_Error error then err_message error
             else u16 "Failed to upload resume" in
           set_status Failed;;
           set_error (Some errorMessage);;
           emit (EvToast (u16 "Upload failed"));;
           ret None)
      {| db := db st; ui := with_status Uploading None (ui st);
         trace := trace st |}.
Proof.
  cbn [uploadFile].
  erewrite run_bind_ret by reflexivity.
  erewrite run_bind_ret by reflexivity.
  reflexivity.
Qed.

Lemma report_failure e (st : State) :
  (set_status Failed;;
   set_error (Some (failure_message e));;
   emit (EvToast (u16 "Upload failed"));;
   (ret None : M (option jsstring))) st
  = (Ret None,
     {| db := db st; ui := with_status Failed (Some (failure_message e)) (ui st);
        trace := trace st ++ [EvToast (u16 "Upload failed")] |}).
Proof. reflexivity. Qed.

(** X23: an upload that the storage service refuses.  When the upload fails,
    by an error result or a rejection, with an error that does not say "The
    resource was not found", [uploadFile] returns null after that one
    attempt: the status is "error", the error shown is the message of the
    error (the text "Failed to upload resume" when it is not an Error),
    one "Upload failed" toast is shown, no signed URL is asked for, and the
    database is not touched. *)
Theorem refused_upload_is_reported (fuel : nat) (env : Env) (user : User)
    (notify : bool) (file : File) (st : State) (e : JsError) :
  (env_upload_file env (trace st) (upload_path env user file st)
     = StorageError e
   \/ env_upload_file env (trace st) (upload_path env user file st)
     = StorageThrows e) ->
  is_not_found e = false ->
  uploadFile (S fuel) env (Some user) notify file st
  = (Ret None,
     {| db := db st;
        ui := with_status Failed (Some (failure_message e)) (ui st);
        trace := trace st
                 ++ [ EvUploadFile (upload_path env user file st) file;
                      EvToast (u16 "Upload failed") ] |}).
Proof.
  intros He Hnf. rewrite uploadFile_start.
  erewrite run_try_throw.
  2:{ apply upload_once_throws. cbn [trace]. exact He. }
  rewrite Hnf. cbv zeta.
  change (if err_is_Error e then err_message e else u16 "Failed to upload resume")
    with (failure_message e).
  rewrite report_failure. cbn [trace db ui]. unfold upload_path.
  cbn [trace]. by rewrite <- app_assoc.
Qed.

Lemma refused_upload_is_reported_witness :
  let env := env_upload_refused quota_error in
  let st := state_of empty_db in
  uploadFile 1 env (Some alice_user) true small_pdf st
  = (Ret None,
     {| db := db st;
        ui := with_status Failed (Some (failure_message quota_error)) (ui st);
        trace := trace st
                 ++ [ EvUploadFile (upload_path env alice_user small_pdf st)
                        small_pdf;
                      EvToast (u16 "Upload failed") ] |}).
Proof.
  apply (refused_upload_is_reported 0 (env_upload_refused quota_error)
           alice_user true small_pdf (state_of empty_db) quota_error).
  - left. reflexivity.
  - reflexivity.
Defined.

Lemma upload_once_signed env user notify file st :
  env_upload_file env (trace st) (upload_path env user file st) = StorageOk ->
  upload_once env user notify file st
  = (let path := upload_path env user file st in
     let st1 := after_event (EvSignedUrl path 31536000)
                  (after_event (EvUploadFile path file) st) in
     match env_signed_url env (trace st ++ [EvUploadFile path file]) path with
     | SignedError e => (Throw e, st1)
     | SignedOk url =>
         (Ret (Some url),
          {| db := if env_profile_update_error env (trace st1) (user_id user)
                   then db st
                   else {| role_recommendations := role_recommendations (db st);
                           profiles := alter (set_resume_link url) (user_id user)
                                         (profiles (db st)) |};
             ui := {| selectedFile := selectedFile (ui st);
                      uploadStatus := Success;
                      uploadError := uploadError (ui st) |};
             trace := trace st ++ success_events user notify path file url |})
     end).
Proof.
  intros Ha. cbv zeta. unfold upload_once, upload_path in *.
  unfold mbind at 1 2 3 4 5, M_bind at 1 2 3 4 5, bind at 1 2 3 4 5,
    get_trace, emit.
  cbn [trace db ui]. rewrite Ha. cbn [checked ret trace db ui].
  destruct (env_signed_url env _ _) as [url|e]; [|reflexivity].
  unfold update_profile, set_status, modify_ui, mbind, M_bind, bind,
    get_trace, emit, get_db, set_db, ret, after_event, success_events.
  cbn [trace db ui].
  destruct (env_profile_update_error env _ _), notify; cbn [trace db ui];
    rewrite <- ?app_assoc; reflexivity.
Qed.

(** X24: a file that is stored but cannot be signed.  When the upload
    succeeds and the creation of the signed URL fails (with an error that
    does not say "The resource was not found"), [uploadFile] returns null
    with status "error", the message of the error and one "Upload failed"
    toast; the profile is not written, and the file that was uploaded is
    not removed from the storage. *)
Theorem failed_signing_leaves_the_file (fuel : nat) (env : Env) (user : User)
    (notify : bool) (file : File) (st : State) (e : JsError) :
  let path := upload_path env user file st in
  env_upload_file env (trace st) path = StorageOk ->
  env_signed_url env (trace st ++ [EvUploadFile path file]) path
    = SignedError e ->
  is_not_found e = false ->
  uploadFile (S fuel) env (Some user) notify file st
  = (Ret None,
     {| db := db st;
        ui := with_status Failed (Some (failure_message e)) (ui st);
        trace := trace st
                 ++ [ EvUploadFile path file;
                      EvSignedUrl path 31536000;
                      EvToast (u16 "Upload failed") ] |}).
Proof.
  intros path Ha Hs Hnf. subst path. rewrite uploadFile_start.
  erewrite run_try_throw.
  2:{ rewrite upload_once_signed by exact Ha. cbv zeta.
      unfold upload_path in *. cbn [trace]. rewrite Hs. reflexivity. }
  rewrite Hnf. cbv zeta.
  change (if err_is_Error e then err_message e else u16 "Failed to upload resume")
    with (failure_message e).
  rewrite report_failure. unfold after_event, upload_path. cbn [trace db ui].
  by rewrite <- !app_assoc.
Qed.

Lemma failed_signing_leaves_the_file_witness :
  let env := env_signing_fails quota_error in
  let st := state_of empty_db in
  let path := upload_path env alice_user small_pdf st in
  uploadFile 1 env (Some alice_user) true small_pdf st
  = (Ret None,
     {| db := db st;
        ui := with_status Failed (Some (failure_message quota_error)) (ui st);
        trace := trace st
                 ++ [ EvUploadFile path small_pdf;
                      EvSignedUrl path 31536000;
                      EvToast (u16 "Upload failed") ] |}).
Proof.
  apply (failed_signing_leaves_the_file 0 (env_signing_fails quota_error)
           alice_user true small_pdf (state_of empty_db) quota_error);
    reflexivity.
Defined.

Lemma successful_upload_link fuel env user notify file st url :
  env_upload_file env (trace st) (upload_path env user file st) = StorageOk ->
  env_signed_url env
    (trace st ++ [EvUploadFile (upload_path env user file st) file])
    (upload_path env user file st) = SignedOk url ->
  exists st',
    uploadFile (S fuel) env (Some user) notify file st = (Ret (Some url), st')
    /\ profiles (db st') !! user_id user
       = (if env_profile_update_error env
               (trace st ++ [EvUploadFile (upload_path env user file st) file;
                             EvSignedUrl (upload_path env user file st) 31536000])
               (user_id user)
          then profiles (db st) !! user_id user
          else set_resume_link url <$> profiles (db st) !! user_id user).
Proof.
  intros Ha Hs. rewrite uploadFile_start.
  eexists. split.
  { apply run_try_ret. rewrite upload_once_signed by exact Ha.
    cbv zeta. unfold upload_path in *. cbn [trace]. rewrite Hs. reflexivity. }
  unfold after_event, upload_path. cbn [trace db ui]. rewrite <- app_assoc.
  simpl app.
  destruct (env_profile_update_error env _ (user_id user)); cbn [db profiles].
  - done.
  - by rewrite lookup_alter_eq.
Qed.

(** X26: a successful upload.  When the storage service accepts the file and
    signs its URL, [uploadFile] returns that URL with status "success" and
    no error, after exactly these calls: the upload, the signed URL for one
    year (31536000 seconds), the update of [resume_link], the "Resume
    uploaded" toast, the "cv_uploaded" tracking event and, when a callback
    was given, the callback with the URL.  The result of the profile
    update is not looked at: when the store accepts it, the [resume_link]
    of an existing profile row is the returned URL and nothing else has
    changed; when the store refuses it or the user has no profile row, no
    profile holds the URL, and the outcome is the same. *)
Theorem successful_upload_stores_the_link (fuel : nat) (env : Env)
    (user : User) (notify : bool) (file : File) (st : State)
    (url : jsstring) :
  let path := upload_path env user file st in
  let userId := user_id user in
  env_upload_file env (trace st) path = StorageOk ->
  env_signed_url env (trace st ++ [EvUploadFile path file]) path
    = SignedOk url ->
  exists st',
    uploadFile (S fuel) env (Some user) notify file st = (Ret (Some url), st')
    /\ new_events st st' = success_events user notify path file url
    /\ ui st' = with_status Success None (ui st)
    /\ role_recommendations (db st') = role_recommendations (db st)
    /\ (forall other, other <> userId ->
          profiles (db st') !! other = profiles (db st) !! other)
    /\ profiles (db st') !! userId
       = (if env_profile_update_error env
               (trace st ++ [EvUploadFile path file; EvSignedUrl path 31536000])
               userId
          then profiles (db st) !! userId
          else set_resume_link url <$> profiles (db st) !! userId).
Proof.
  intros path userId Ha Hs. subst path userId. rewrite uploadFile_start.
  eexists. split.
  { apply run_try_ret. rewrite upload_once_signed by exact Ha.
    cbv zeta. unfold upload_path in *. cbn [trace]. rewrite Hs. reflexivity. }
  split; [by apply new_events_trace|].
  split; [reflexivity|].
  unfold after_event. cbn [trace db ui]. rewrite <- app_assoc. simpl app.
  destruct (env_profile_update_error env _ (user_id user)); cbn [db profiles].
  - done.
  - split; [done|]. split.
    + intros other Ho. apply lookup_alter_ne. congruence.
    + by rewrite lookup_alter_eq.
Qed.

Lemma successful_upload_stores_the_link_witness :
  let env := calm_env CompletionNoBody (OcrOk None) in
  let st := state_of db_empty_selections in
  let path := upload_path env alice_user small_pdf st in
  let url := u16 "https://storage/sign/" ++ path in
  exists st',
    uploadFile 1 env (Some alice_user) true small_pdf st = (Ret (Some url), st')
    /\ new_events st st' = success_events alice_user true path small_pdf url
    /\ ui st' = with_status Success None (ui st)
    /\ role_recommendations (db st') = role_recommendations (db st)
    /\ (forall other, other <> alice ->
          profiles (db st') !! other = profiles (db st) !! other)
    /\ profiles (db st') !! alice
       = (if env_profile_update_error env
               (trace st ++ [EvUploadFile path small_pdf;
                             EvSignedUrl path 31536000])
               alice
          then profiles (db st) !! alice
          else set_resume_link url <$> profiles (db st) !! alice).
Proof.
  apply (successful_upload_stores_the_link 0
           (calm_env CompletionNoBody (OcrOk None)) alice_user true small_pdf
           (state_of db_empty_selections));
    reflexivity.
Defined.

(** X27: a failure of the provisioning is not reported.  When the upload
    fails with "The resource was not found" and the upload of the
    placeholder is rejected, [uploadFile] rejects with that error: the
    status stays "uploading", no error is recorded and no toast is shown;
    the file input, which does not await the call, returns normally and
    leaves the component in that state. *)
Theorem failed_provisioning_is_not_reported (fuel : nat) (env : Env)
    (user : User) (notify : bool) (file : File) (others : list File)
    (st : State) (e folderError : JsError) :
  let path := upload_path env user file st in
  (env_upload_file env (trace st) path = StorageError e
   \/ env_upload_file env (trace st) path = StorageThrows e) ->
  is_not_found e = true ->
  env_upload_placeholder env (trace st ++ [EvUploadFile path file])
    (placeholder_path user) = StorageThrows folderError ->
  let calls := [ EvUploadFile path file;
                 EvUploadPlaceholder (placeholder_path user) ] in
  uploadFile (S fuel) env (Some user) notify file st
  = (Throw folderError,
     {| db := db st; ui := with_status Uploading None (ui st);
        trace := trace st ++ calls |})
  /\ (file_size file <= max_size ->
      is_valid_type (file_type file) = true ->
      handleFileChange (S fuel) env (Some user) notify (file :: others) st
      = (Ret tt,
         {| db := db st;
            ui := {| selectedFile := Some file; uploadStatus := Uploading;
                     uploadError := None |};
            trace := trace st ++ calls |})).
Proof.
  intros path He Hnf Hp calls. subst path calls.
  assert (forall u,
    uploadFile (S fuel) env (Some user) notify file
      {| db := db st; ui := u; trace := trace st |}
    = (Throw folderError,
       {| db := db st; ui := with_status Uploading None u;
          trace := trace st
                   ++ [ EvUploadFile (upload_path env user file st) file;
                        EvUploadPlaceholder (placeholder_path user) ] |}))
    as Hrun.
  { intros u. rewrite uploadFile_start.
    erewrite run_try_throw.
    2:{ apply upload_once_throws. cbn [trace]. exact He. }
    rewrite Hnf. rewrite try_rethrow.
    erewrite run_bind_throw.
    2:{ unfold provision, placeholder_path in *.
        unfold mbind, M_bind, bind, get_trace, emit. cbn [trace db ui].
        unfold upload_path in *. cbn [trace] in *. rewrite Hp. reflexivity. }
    cbn [trace db ui]. unfold upload_path, placeholder_path. cbn [trace].
    by rewrite <- app_assoc. }
  split.
  - rewrite <- (Hrun (ui st)). by destruct st.
  - intros Hsize Htype. unfold handleFileChange.
    assert ((max_size <? file_size file) = false) as ->
      by by apply N.ltb_ge.
    rewrite Htype. cbn [negb]. cbv iota.
    erewrite run_bind_ret by reflexivity.
    erewrite run_bind_ret by reflexivity.
    erewrite run_bind_ret by reflexivity.
    unfold detached. cbn [trace db ui selectedFile uploadStatus uploadError].
    rewrite Hrun. reflexivity.
Qed.

Lemma failed_provisioning_is_not_reported_witness :
  let env := env_provision_rejected quota_error in
  let st := state_of empty_db in
  let path := upload_path env alice_user small_pdf st in
  let calls := [ EvUploadFile path small_pdf;
                 EvUploadPlaceholder (placeholder_path alice_user) ] in
  uploadFile 1 env (Some alice_user) true small_pdf st
  = (Throw quota_error,
     {| db := db st; ui := with_status Uploading None (ui st);
        trace := trace st ++ calls |})
  /\ (file_size small_pdf <= max_size ->
      is_valid_type (file_type small_pdf) = true ->
      handleFileChange 1 env (Some alice_user) true [small_pdf] st
      = (Ret tt,
         {| db := db st;
            ui := {| selectedFile := Some small_pdf; uploadStatus := Uploading;
                     uploadError := None |};
            trace := trace st ++ calls |})).
Proof.
  apply (failed_provisioning_is_not_reported 0
           (env_provision_rejected quota_error) alice_user true small_pdf []
           (state_of empty_db) not_found_error quota_error).
  - left. reflexivity.
  - reflexivity.
  - reflexivity.
Defined.

(** X21: no upload without a signed-in user.  For a file that passes the
    size and type checks while no user is signed in, the file input
    selects the file and [uploadFile] shows the "Authentication required"
    toast and returns null: no call to the storage service or to the
    database is made. *)
Theorem upload_needs_a_user (fuel : nat) (env : Env) (notify : bool)
    (file : File) (others : list File) (st : State) :
  file_size file <= max_size ->
  is_valid_type (file_type file) = true ->
  uploadFile (S fuel) env None notify file st
  = (Ret None, after_event (EvToast (u16 "Authentication required")) st)
  /\ handleFileChange (S fuel) env None notify (file :: others) st
     = (Ret tt,
        {| db := db st;
           ui := {| selectedFile := Some file; uploadStatus := Idle;
                    uploadError := None |};
           trace := trace st ++ [EvToast (u16 "Authentication required")] |}).
Proof.
  intros Hsize Htype. split; [reflexivity|].
  unfold handleFileChange.
  assert ((max_size <? file_size file) = false) as -> by by apply N.ltb_ge.
  rewrite Htype. reflexivity.
Qed.

Lemma upload_needs_a_user_witness :
  let env := calm_env CompletionNoBody (OcrOk None) in
  let st := state_of empty_db in
  uploadFile 1 env None true small_pdf st
  = (Ret None, after_event (EvToast (u16 "Authentication required")) st)
  /\ handleFileChange 1 env None true [small_pdf] st
     = (Ret tt,
        {| db := db st;
           ui := {| selectedFile := Some small_pdf; uploadStatus := Idle;
                    uploadError := None |};
           trace := trace st ++ [EvToast (u16 "Authentication required")] |}).
Proof.
  apply (upload_needs_a_user 0 (calm_env CompletionNoBody (OcrOk None)) true
           small_pdf [] (state_of empty_db)).
  - intros H. discriminate H.
  - reflexivity.
Defined.

(** ** The path of an upload *)

#[local] Instance upload_frame_preorder : PreOrder upload_frame.
Proof.
  split.
  - intros st. split; [done|]. exists []. by rewrite app_nil_r.
  - intros st1 st2 st3 (S1 & e1 & T1) (S2 & e2 & T2).
    split; [congruence|]. exists (e1 ++ e2). by rewrite T2, T1, <- app_assoc.
Qed.

Lemma upload_frame_emit e : within upload_frame (emit e).
Proof. intros st o st' [= <- <-]. split; [done|]. by exists [e]. Qed.

Lemma upload_frame_set_status s : within upload_frame (set_status s).
Proof.
  intros st o st' [= <- <-]. split; [done|]. exists []. simpl.
  by rewrite app_nil_r.
Qed.

Lemma upload_frame_set_error e : within upload_frame (set_error e).
Proof.
  intros st o st' [= <- <-]. split; [done|]. exists []. simpl.
  by rewrite app_nil_r.
Qed.

Lemma upload_frame_checked a : within upload_frame (checked a).
Proof. destruct a; first [apply within_ret | apply within_throw]; apply _. Qed.

Lemma upload_frame_unchecked a : within upload_frame (unchecked a).
Proof. destruct a; first [apply within_ret | apply within_throw]; apply _. Qed.

Lemma upload_frame_update env userId ev change :
  within upload_frame (update_profile env userId ev change).
Proof.
  intros st o st'. rewrite update_profile_run. intros [= <- <-].
  split; [done|]. by exists [ev].
Qed.

Lemma upload_frame_provision env user :
  within upload_frame (provision env user).
Proof.
  unfold provision.
  apply within_bind; [apply _|apply within_get_trace; apply _|]. intros tr0.
  apply within_bind; [apply _|apply upload_frame_emit|]. intros _.
  apply within_bind; [apply _|apply upload_frame_unchecked|]. intros _.
  apply within_bind; [apply _|apply within_get_trace; apply _|]. intros tr1.
  apply within_bind; [apply _|apply upload_frame_emit|]. intros _.
  apply upload_frame_unchecked.
Qed.

Lemma upload_once_first_call env user notify file st o st' :
  upload_once env user notify file st = (o, st') ->
  selectedFile (ui st') = selectedFile (ui st)
  /\ exists evs,
       trace st'
       = trace st ++ EvUploadFile (upload_path env user file st) file :: evs.
Proof.
  unfold upload_once, upload_path.
  unfold mbind at 1 2, M_bind at 1 2, bind at 1 2, get_trace, emit.
  cbn [trace db ui].
  set (path := user_id user ++ _).
  set (st0 := {| db := db st; ui := ui st;
                 trace := trace st ++ [EvUploadFile path file] |}).
  intros H.
  assert (upload_frame st0 st') as (S & evs & T).
  { revert H.
    generalize st0 o st'.
    change (within upload_frame
      (checked (env_upload_file env (trace st) path);;
       tr1 ← get_trace;
       emit (EvSignedUrl path 31536000);;
       match env_signed_url env tr1 path with
       | SignedError e => throw e
       | SignedOk resumeUrl =>
           update_profile env (user_id user)
             (EvProfileUpdateLink (user_id user) resumeUrl)
             (fun p => {| discovery_data := discovery_data p;
                          resume_link := Some resumeUrl;
                          resume_text := resume_text p |});;
           set_status Success;;
           emit (EvToast (u16 "Resume uploaded"));;
           emit (EvTrack (u16 "cv_uploaded"));;
           (if notify then emit (EvResumeProcessed resumeUrl) else ret tt);;
           ret (Some resumeUrl)
       end)).
    apply within_bind; [apply _|apply upload_frame_checked|]. intros _.
    apply within_bind; [apply _|apply within_get_trace; apply _|]. intros tr1.
    apply within_bind; [apply _|apply upload_frame_emit|]. intros _.
    destruct (env_signed_url env tr1 path) as [url|e];
      [|apply within_throw; apply _].
    apply within_bind; [apply _|apply upload_frame_update|]. intros _.
    apply within_bind; [apply _|apply upload_frame_set_status|]. intros _.
    apply within_bind; [apply _|apply upload_frame_emit|]. intros _.
    apply within_bind; [apply _|apply upload_frame_emit|]. intros _.
    apply within_bind; [apply _| |intros _; apply within_ret; apply _].
    destruct notify; [apply upload_frame_emit|apply within_ret; apply _]. }
  split; [done|]. exists evs. rewrite T. subst st0. simpl.
  by rewrite <- app_assoc.
Qed.

Lemma upload_frame_uploadFile fuel env user notify file :
  within upload_frame (uploadFile fuel env user notify file).
Proof.
  induction fuel as [|fuel IH]; [by intros st o st' [= <- <-]|].
  cbn [uploadFile]. destruct user as [u|].
  2:{ apply within_bind; [apply _|apply upload_frame_emit|]. intros _.
      apply within_ret; apply _. }
  apply within_bind; [apply _|apply upload_frame_set_status|]. intros _.
  apply within_bind; [apply _|apply upload_frame_set_error|]. intros _.
  apply within_try_catch; [apply _| |].
  - intros st o st' E.
    destruct (upload_once_first_call _ _ _ _ _ _ _ E) as (S & evs & T).
    split; [done|]. by eexists.
  - intros e. destruct (is_not_found e).
    + apply within_try_catch; [apply _| |intros e'; apply within_throw; apply _].
      apply within_bind; [apply _|apply upload_frame_provision|]. by intros _.
    + apply within_bind; [apply _|apply upload_frame_set_status|]. intros _.
      apply within_bind; [apply _|apply upload_frame_set_error|]. intros _.
      apply within_bind; [apply _|apply upload_frame_emit|]. intros _.
      apply within_ret; apply _.
Qed.

Lemma uploadFile_first_call fuel env user notify file st o st' :
  uploadFile (S fuel) env (Some user) notify file st = (o, st') ->
  selectedFile (ui st') = selectedFile (ui st)
  /\ exists evs,
       trace st'
       = trace st ++ EvUploadFile (upload_path env user file st) file :: evs.
Proof.
  rewrite uploadFile_start. unfold try_catch.
  destruct (upload_once env user notify file _) as [[r|e|] st1] eqn:E;
    destruct (upload_once_first_call _ _ _ _ _ _ _ E) as (S & evs & T);
    simpl in S, T.
  - intros [= <- <-]. split; [done|]. by eexists.
  - intros H.
    assert (upload_frame st1 st') as (S' & evs' & T').
    { revert H. generalize st1 o st'.
      change (within upload_frame
        (if is_not_found e then
           try_catch
             (provision env user;;
              uploadFile fuel env (Some user) notify file)
             (fun folderError => throw folderError)
         else
           set_status Failed;;
           set_error (Some (if err_is_Error e then err_message e
                            else u16 "Failed to upload resume"));;
           emit (EvToast (u16 "Upload failed"));;
           ret None)).
      destruct (is_not_found e).
      + apply within_try_catch; [apply _| |intros e'; apply within_throw; apply _].
        apply within_bind; [apply _|apply upload_frame_provision|].
        intros _. apply upload_frame_uploadFile.
      + apply within_bind; [apply _|apply upload_frame_set_status|]. intros _.
        apply within_bind; [apply _|apply upload_frame_set_error|]. intros _.
        apply within_bind; [apply _|apply upload_frame_emit|]. intros _.
        apply within_ret; apply _. }
    split; [congruence|]. exists (evs ++ evs').
    rewrite T', T. by rewrite <- app_assoc.
  - intros [= <- <-]. split; [done|]. by eexists.
Qed.

Lemma split_pop_spec sep s :
  ((sep ∉ s) /\ split_pop sep s = s)
  \/ (exists stem, s = stem ++ sep :: split_pop sep s
                   /\ (sep ∉ split_pop sep s)).
Proof.
  induction s as [|c s IH]; simpl.
  { left. split; [|done]. by apply not_elem_of_nil. }
  destruct (existsb (N.eqb sep) s) eqn:Ex.
  - destruct IH as [[Hn _]|(stem & Hs & Hn)].
    + exfalso. apply existsb_exists in Ex as (x & Hx & Heq).
      apply N.eqb_eq in Heq. subst x. apply Hn. by apply list_elem_of_In.
    + right. exists (c :: stem). split; [|done]. simpl. by rewrite <- Hs.
  - assert (sep ∉ s) as Hn.
    { intros Hin. apply list_elem_of_In in Hin.
      assert (existsb (N.eqb sep) s = true); [|congruence].
      apply existsb_exists. exists sep. split; [done|]. apply N.eqb_refl. }
    destruct (N.eqb_spec c sep) as [->|Hne].
    + right. exists []. by split.
    + left. split; [|done]. apply not_elem_of_cons. split; [congruence|done].
Qed.

Lemma number_text_digits n :
  Forall (fun c => is_digit c = true) (number_text n).
Proof.
  unfold number_text. induction (N.to_uint n); simpl;
    first [apply Forall_nil_2 | by apply Forall_cons].
Qed.

(** X22: every accepted file is handed to the storage service.  For a
    signed-in user and a first file of at most 5 MiB (the limit included)
    whose type is PDF or DOCX, the file input selects the file, and the
    first call is the upload of that file to the path
    [<user id>/<clock>.<extension>]: the clock in decimal digits, and as
    extension the text after the last dot of the file name, or the whole
    name when it has no dot. *)
Theorem accepted_file_is_sent (fuel : nat) (env : Env) (user : User)
    (notify : bool) (file : File) (others : list File) (st : State) :
  file_size file <= max_size ->
  file_type file = pdf_type \/ file_type file = docx_type ->
  exists o st' evs extension,
    handleFileChange (S fuel) env (Some user) notify (file :: others) st
      = (o, st')
    /\ selectedFile (ui st') = Some file
    /\ trace st'
       = trace st
         ++ EvUploadFile
              (user_id user ++ u16 "/"
               ++ number_text (env_now env (trace st)) ++ u16 "."
               ++ extension) file
            :: evs
    /\ Forall (fun c => is_digit c = true)
         (number_text (env_now env (trace st)))
    /\ (ch "." ∉ extension)
    /\ (file_name file = extension
        \/ exists stem, file_name file = stem ++ ch "." :: extension).
Proof.
  intros Hsize Htype. unfold handleFileChange.
  assert ((max_size <? file_size file) = false) as -> by by apply N.ltb_ge.
  assert (is_valid_type (file_type file) = true) as ->.
  { by destruct Htype as [-> | ->]. }
  cbn [negb]. cbv iota.
  erewrite run_bind_ret by reflexivity.
  erewrite run_bind_ret by reflexivity.
  erewrite run_bind_ret by reflexivity.
  unfold detached. cbn [trace db ui selectedFile uploadStatus uploadError].
  match goal with
  | |- context [uploadFile (S fuel) env (Some user) notify file ?s] =>
      destruct (uploadFile (S fuel) env (Some user) notify file s)
        as [o st'] eqn:E
  end.
  destruct (uploadFile_first_call _ _ _ _ _ _ _ _ E) as (S & evs & T).
  simpl in S, T. unfold upload_path in T. simpl in T.
  exists (match o with OutOfFuel => OutOfFuel | _ => Ret tt end), st', evs,
    (split_pop (ch ".") (file_name file)).
  split; [by destruct o|]. split; [done|]. split; [done|].
  split; [apply number_text_digits|].
  destruct (split_pop_spec (ch ".") (file_name file))
    as [[Hn Heq]|(stem & Heq & Hn)].
  - split; [by rewrite Heq|]. by left.
  - split; [done|]. right. by exists stem.
Qed.

Lemma accepted_file_is_sent_witness :
  let env := calm_env CompletionNoBody (OcrOk None) in
  let st := state_of empty_db in
  exists o st' evs extension,
    handleFileChange 1 env (Some alice_user) true [exact_limit_docx] st
      = (o, st')
    /\ selectedFile (ui st') = Some exact_limit_docx
    /\ trace st'
       = trace st
         ++ EvUploadFile
              (user_id alice_user ++ u16 "/"
               ++ number_text (env_now env (trace st)) ++ u16 "."
               ++ extension) exact_limit_docx
            :: evs
    /\ Forall (fun c => is_digit c = true)
         (number_text (env_now env (trace st)))
    /\ (ch "." ∉ extension)
    /\ (file_name exact_limit_docx = extension
        \/ exists stem, file_name exact_limit_docx = stem ++ ch "." :: extension).
Proof.
  apply (accepted_file_is_sent 0 (calm_env CompletionNoBody (OcrOk None))
           alice_user true exact_limit_docx [] (state_of empty_db)).
  - intros H. discriminate H.
  - right. reflexivity.
Defined.

(** ** From the upload to the extraction *)

Lemma try_bind_ret {A B} (m : M A) (f : A -> M B) h st a st1 :
  m st = (Ret a, st1) -> try_catch (m ≫= f) h st = try_catch (f a) h st1.
Proof. intros H. unfold try_catch. by rewrite (run_bind_ret _ _ _ _ _ H). Qed.

Lemma try_bind_throw {A B} (m : M A) (f : A -> M B) h st e st1 :
  m st = (Throw e, st1) -> try_catch (m ≫= f) h st = h e st1.
Proof. intros H. unfold try_catch. by rewrite (run_bind_throw _ _ _ _ _ H). Qed.

Lemma bind_cong_run {A B} (m m' : M A) (g : A -> M B) st st1 :
  m st = m' st1 -> (m ≫= g) st = (m' ≫= g) st1.
Proof. intros H. unfold mbind, M_bind, bind. by rewrite H. Qed.

Lemma extract_calls env documentUrl apiKey st :
  str_truthy documentUrl = true ->
  opt_truthy apiKey = true ->
  exists o,
    extractResumeText env documentUrl apiKey st
    = (o, after_event (EvOcr documentUrl (default [] apiKey)) st)
    /\ o <> OutOfFuel.
Proof.
  intros Hd Hk. unfold extractResumeText. rewrite Hd, Hk. cbn [negb].
  cbv iota. unfold try_catch, mbind, M_bind, bind, get_trace, emit. simpl.
  destruct (env_ocr env (trace st) documentUrl) as [e|m s|[pages|]];
    by eexists.
Qed.

Lemma gather_first_calls env userId request st url key o st' :
  req_resumeUrl request = Some url ->
  str_truthy url = true ->
  env_mistralApiKey env = Some key ->
  str_truthy key = true ->
  gather env userId request st = (o, st') ->
  exists evs,
    trace st'
    = trace st
      ++ EvProfileSelect userId handler_columns :: EvOcr url key :: evs.
Proof.
  intros Hr Hurl Hk Hkey.
  rewrite gather_with_resume by by rewrite Hr.
  rewrite Hr, Hk. simpl default.
  set (st0 := after_event (EvProfileSelect userId handler_columns) st).
  destruct (extract_calls env url (Some key) st0 Hurl Hkey) as (ox & E & NF).
  simpl default in E.
  set (st1 := after_event (EvOcr url key) st0) in *.
  intros H.
  assert (handler_frame userId st1 st') as (_ & (evs & T & _) & _).
  { destruct ox as [text|e|]; [| |done].
    - erewrite (bind_cong_run _ _ _ _ _ (try_bind_ret _ _ _ _ _ _ E)) in H.
      match type of H with
      | ?m st1 = _ => assert (within (handler_frame userId) m) as W
      end.
      { apply within_bind; [apply _| |intros t; apply within_ret; apply _].
        apply within_try_catch; [apply _| |intros e; apply within_ret; apply _].
        apply within_bind; [apply _| |intros _; apply within_ret; apply _].
        destruct (str_truthy text);
          [apply frame_update_text|apply within_ret; apply _]. }
      exact (W _ _ _ H).
    - erewrite (bind_cong_run _ _ _ _ _ (try_bind_throw _ _ _ _ _ _ E)) in H.
      injection H as <- <-. reflexivity. }
  exists evs. rewrite T. subst st1 st0. simpl. by rewrite <- !app_assoc.
Qed.

Lemma POST_first_calls env request st url key o st' :
  opt_truthy (req_userId request) = true ->
  req_resumeUrl request = Some url ->
  str_truthy url = true ->
  env_mistralApiKey env = Some key ->
  str_truthy key = true ->
  POST env request st = (o, st') ->
  exists evs,
    trace st'
    = trace st
      ++ EvProfileSelect (default [] (req_userId request)) handler_columns
         :: EvOcr url key :: evs.
Proof.
  intros Hu Hr Hurl Hk Hkey.
  set (userId := default [] (req_userId request)).
  destruct (gather env userId request st) as [[[d t]|e|] st1] eqn:G;
    destruct (gather_first_calls _ _ _ _ _ _ _ _ Hr Hurl Hk Hkey G)
      as (evs & T).
  - rewrite (POST_after_gather _ _ _ _ _ _ Hu G). intros H.
    assert (handler_frame userId st1 st') as (_ & (evs' & T' & _) & _).
    { revert H. generalize st1 o st'.
      apply within_try_catch; [apply _| |intros e; apply within_ret; apply _].
      destruct (negb (truthy d) && negb (str_truthy t));
        [apply within_ret; apply _|].
      apply within_bind; [apply _|apply frame_generate|].
      intros [r|r]; apply within_ret; apply _. }
    exists (evs ++ evs'). rewrite T', T. by rewrite <- app_assoc.
  - rewrite (POST_gather_throws _ _ _ _ _ Hu G). intros [= <- <-].
    by exists evs.
  - by destruct (quiet_gather _ _ _ _ _ _ G) as (N & _).
Qed.

(** X28: an uploaded resume is read at the next refresh.  After a successful
    upload for a user who has a profile row, while the database, the
    request to the handler and the key of the OCR service are in order, a
    forced refresh reads the stored link, sends it to the handler with the
    userId, and the handler, after its profile read, asks the OCR service
    for the text behind the URL that the upload returned. *)
Theorem uploaded_resume_is_read_on_refresh (fuel : nat) (env : Env)
    (user : User) (notify : bool) (file : File) (st : State)
    (url key : jsstring) (profile : Profile) :
  let userId := user_id user in
  let path := upload_path env user file st in
  str_truthy userId = true ->
  env_upload_file env (trace st) path = StorageOk ->
  env_signed_url env (trace st ++ [EvUploadFile path file]) path
    = SignedOk url ->
  str_truthy url = true ->
  profiles (db st) !! userId = Some profile ->
  (forall tr u, env_profile_update_error env tr u = false) ->
  (forall tr u, env_profile_select_error env tr u = false) ->
  (forall tr, env_api_fetch_rejects env tr = false) ->
  env_mistralApiKey env = Some key ->
  str_truthy key = true ->
  exists st1 recs st2 evs,
    uploadFile (S fuel) env (Some user) notify file st = (Ret (Some url), st1)
    /\ getRecommendations env (Some userId) true st1 = (Ret recs, st2)
    /\ new_events st1 st2
       = [ EvProfileSelect userId (u16 "resume_link");
           EvApiFetch (Some userId) (Some url);
           EvProfileSelect userId handler_columns;
           EvOcr url key ] ++ evs.
Proof.
  intros userId path Hu Ha Hs Hurl Hp Hupd Hsel Hfetch Hk Hkey.
  destruct (successful_upload_link fuel env user notify file st url Ha Hs)
    as (st1 & E1 & P1).
  rewrite Hupd in P1. fold userId in P1. rewrite Hp in P1. simpl in P1.
  assert (stored_link env st1 userId = Some url) as L.
  { unfold stored_link. by rewrite Hsel, P1. }
  destruct (getRecommendations_returns env (Some userId) true st1)
    as (recs & st2 & E2).
  exists st1, recs, st2. pose proof E2 as E2'.
  rewrite (refresh_run _ _ _ Hu), L in E2'.
  rewrite generateRecommendations_run in E2'. cbv zeta in E2'.
  rewrite Hfetch in E2'.
  destruct (POST env _ _) as [o st3] eqn:E3 in E2'.
  destruct (POST_first_calls env
              {| req_userId := Some userId; req_resumeUrl := Some url |}
              _ url key _ _ Hu eq_refl Hurl Hk Hkey E3)
    as (evs & T).
  assert (st2 = st3) as <- by (destruct o; by injection E2').
  exists evs. split; [done|]. split; [done|].
  apply new_events_trace. rewrite T. simpl. by rewrite <- !app_assoc.
Qed.

Lemma uploaded_resume_is_read_on_refresh_witness :
  let env := calm_env (CompletionContent (Some three_roles))
               (OcrOk (Some one_page)) in
  let st := state_of db_empty_selections in
  let path := upload_path env alice_user small_pdf st in
  let url := u16 "https://storage/sign/" ++ path in
  let key := u16 "mistral-key" in
  exists st1 recs st2 evs,
    uploadFile 1 env (Some alice_user) true small_pdf st
      = (Ret (Some url), st1)
    /\ getRecommendations env (Some alice) true st1 = (Ret recs, st2)
    /\ new_events st1 st2
       = [ EvProfileSelect alice (u16 "resume_link");
           EvApiFetch (Some alice) (Some url);
           EvProfileSelect alice handler_columns;
           EvOcr url key ] ++ evs.
Proof.
  apply (uploaded_resume_is_read_on_refresh 0
           (calm_env (CompletionContent (Some three_roles))
              (OcrOk (Some one_page)))
           alice_user true small_pdf (state_of db_empty_selections)
           (u16 "https://storage/sign/"
            ++ upload_path (calm_env (CompletionContent (Some three_roles))
                              (OcrOk (Some one_page)))
                 alice_user small_pdf (state_of db_empty_selections))
           (u16 "mistral-key") alice_profile);
    first [reflexivity | intros; reflexivity].
Defined.

(** ** The clean-up of the completion text *)

Lemma startsWith_app (p t : jsstring) : startsWith (p ++ t) p = true.
Proof. induction p as [|c p IH]; simpl; [done|]. by rewrite N.eqb_refl. Qed.

Lemma startsWith_longer (s p q : jsstring) :
  startsWith s p = false -> startsWith s (p ++ q) = false.
Proof.
  revert s. induction p as [|c p IH]; intros s; simpl; [done|].
  destruct s as [|b s]; [done|]. destruct (c =? b); simpl; [apply IH|done].
Qed.

Lemma match_lits (l : jsstring) (r : regex) (s : jsstring) :
  match_here (lits l ++ r) (l ++ s) = match_here r s.
Proof. induction l as [|c l IH]; simpl; [done|]. by rewrite N.eqb_refl. Qed.

Lemma match_lits_end (l s x : jsstring) :
  match_here (lits l ++ [REnd]) s = Some x -> s = l.
Proof.
  revert s. induction l as [|c l IH]; intros s; simpl.
  - by destruct s.
  - destruct s as [|b s]; [done|].
    destruct (N.eqb_spec c b) as [->|]; [|done].
    intros H. by rewrite (IH _ H).
Qed.

Lemma replace_prefix (l s : jsstring) :
  replace_empty (lits l) (l ++ s) = s.
Proof.
  unfold replace_empty, exec.
  rewrite (exec_from_here (lits l) [] (l ++ s) s).
  - done.
  - rewrite <- (app_nil_r (lits l)). by rewrite match_lits.
Qed.

Lemma replace_suffix (l x : jsstring) :
  l <> [] -> replace_empty (lits l ++ [REnd]) (x ++ l) = x.
Proof.
  intros Hl. unfold replace_empty, exec.
  rewrite (exec_from_skip _ [] x l).
  - rewrite (exec_from_here _ _ l []).
    + by rewrite !app_nil_r, rev_involutive.
    + rewrite <- (app_nil_r l) at 2. by rewrite match_lits.
  - intros pre1 pre2 -> Hne.
    destruct (match_here _ _) as [r|] eqn:E; [|done].
    apply match_lits_end in E. exfalso.
    assert (length (pre2 ++ l) = length l) as L by by rewrite E.
    rewrite length_app in L. destruct pre2; [done|]. simpl in L. lia.
Qed.

Lemma fence_json_re_lits : fence_json_re = lits (u16 "```json" ++ [LF]).
Proof. unfold fence_json_re, lits. by rewrite map_app. Qed.

Lemma fence_re_lits : fence_re = lits (u16 "```" ++ [LF]).
Proof. unfold fence_re, lits. by rewrite map_app. Qed.

Lemma fence_end_re_lits : fence_end_re = lits (LF :: u16 "```") ++ [REnd].
Proof. reflexivity. Qed.

Lemma strip_json_fence (x : jsstring) :
  strip_fences (u16 "```json" ++ [LF] ++ x ++ [LF] ++ u16 "```") = x.
Proof.
  unfold strip_fences. rewrite startsWith_app.
  rewrite fence_json_re_lits, fence_end_re_lits.
  rewrite (app_assoc (u16 "```json") [LF]). rewrite replace_prefix.
  by apply (replace_suffix (LF :: u16 "```") x).
Qed.

Lemma strip_plain_fence (x : jsstring) :
  strip_fences (u16 "```" ++ [LF] ++ x ++ [LF] ++ u16 "```") = x.
Proof.
  unfold strip_fences.
  assert (startsWith (u16 "```" ++ [LF] ++ x ++ [LF] ++ u16 "```")
            (u16 "```json") = false) as -> by reflexivity.
  rewrite startsWith_app.
  rewrite fence_re_lits, fence_end_re_lits.
  rewrite (app_assoc (u16 "```") [LF]). rewrite replace_prefix.
  by apply (replace_suffix (LF :: u16 "```") x).
Qed.

Lemma strip_no_fence (s : jsstring) :
  startsWith s (u16 "```") = false -> strip_fences s = s.
Proof.
  intros H. unfold strip_fences. rewrite H.
  change (u16 "```json") with (u16 "```" ++ u16 "json").
  by rewrite (startsWith_longer s (u16 "```") (u16 "json") H).
Qed.

(** X14: the removal of a code fence.  A text that opens with [```json] or
    with [```] and a line feed and closes with a line feed and [```] is
    replaced by what stands between the two, whatever that is; a text that
    does not start with [```] is left as it is. *)
Theorem strip_fences_unwraps (x : jsstring) :
  strip_fences (u16 "```json" ++ [LF] ++ x ++ [LF] ++ u16 "```") = x
  /\ strip_fences (u16 "```" ++ [LF] ++ x ++ [LF] ++ u16 "```") = x
  /\ (startsWith x (u16 "```") = false -> strip_fences x = x).
Proof.
  split; [apply strip_json_fence|]. split; [apply strip_plain_fence|].
  apply strip_no_fence.
Qed.

Lemma trimStart_app_spaces (w s : jsstring) :
  Forall (fun c => is_space c = true) w -> trimStart (w ++ s) = trimStart s.
Proof. induction 1 as [|c w Hc _ IH]; simpl; [done|]. by rewrite Hc. Qed.

Lemma trimStart_nil_spaces (s : jsstring) :
  trimStart s = [] -> Forall (fun c => is_space c = true) s.
Proof.
  induction s as [|c s IH]; simpl; [by constructor|].
  destruct (is_space c) eqn:Hc; [|done]. intros H. constructor; auto.
Qed.

Lemma trimStart_app_keep (s t : jsstring) :
  trimStart s <> [] -> trimStart (s ++ t) = trimStart s ++ t.
Proof.
  induction s as [|c s IH]; simpl; [done|].
  destruct (is_space c); [exact IH|done].
Qed.

Lemma trimStart_head (s : jsstring) c t :
  trimStart s = c :: t -> is_space c = false.
Proof.
  induction s as [|b s IH]; simpl; [done|].
  destruct (is_space b) eqn:Hb; [exact IH|]. by intros [= <- <-].
Qed.

Lemma trimStart_idem (s : jsstring) : trimStart (trimStart s) = trimStart s.
Proof.
  destruct (trimStart s) as [|c t] eqn:E; [done|].
  simpl. by rewrite (trimStart_head _ _ _ E).
Qed.

Lemma trimEnd_app_spaces (s w : jsstring) :
  Forall (fun c => is_space c = true) w -> trimEnd (s ++ w) = trimEnd s.
Proof.
  intros Hw. unfold trimEnd. rewrite rev_app_distr.
  rewrite trimStart_app_spaces; [done|]. by apply List.Forall_rev.
Qed.

Lemma trim_spaces_around (ws1 ws2 x : jsstring) :
  Forall (fun c => is_space c = true) ws1 ->
  Forall (fun c => is_space c = true) ws2 ->
  trim (ws1 ++ x ++ ws2) = trim x.
Proof.
  intros H1 H2. unfold trim. rewrite (trimStart_app_spaces _ _ H1).
  destruct (trimStart x) as [|c t] eqn:E.
  - rewrite trimStart_app_spaces; [|by apply trimStart_nil_spaces].
    assert (trimStart ws2 = []) as ->; [|done].
    rewrite <- (app_nil_r ws2). by rewrite trimStart_app_spaces.
  - rewrite trimStart_app_keep by by rewrite E. rewrite E.
    by apply trimEnd_app_spaces.
Qed.

Lemma trim_fixed (c d : N) (s : jsstring) :
  is_space c = false -> is_space d = false ->
  trim (c :: s ++ [d]) = c :: s ++ [d].
Proof.
  intros Hc Hd. unfold trim. simpl. rewrite Hc.
  unfold trimEnd. simpl. rewrite rev_app_distr. simpl. rewrite Hd.
  simpl. rewrite rev_app_distr. simpl. by rewrite rev_involutive.
Qed.

Lemma trim_fence (opening x : jsstring) :
  trim (u16 "```" ++ opening ++ x ++ [LF] ++ u16 "```")
  = u16 "```" ++ opening ++ x ++ [LF] ++ u16 "```".
Proof.
  assert (u16 "```" ++ opening ++ x ++ [LF] ++ u16 "```"
          = 96 :: ([96; 96] ++ opening ++ x ++ [LF] ++ [96; 96]) ++ [96])
    as ->.
  { repeat rewrite <- app_assoc. reflexivity. }
  by apply trim_fixed.
Qed.

(** X15: the wrapping of the completion text is ignored.  White space around
    the text does not change what is handed to [JSON.parse], so it does not
    change the records that are parsed; and for a text that is, inside
    such white space, enclosed in a [```json] or a [```] fence, what is
    handed to [JSON.parse] is the array found in the enclosed text, or the
    enclosed text itself. *)
Theorem repair_removes_wrapping (ws1 ws2 x : jsstring) :
  Forall (fun c => is_space c = true) ws1 ->
  Forall (fun c => is_space c = true) ws2 ->
  repair (ws1 ++ x ++ ws2) = repair x
  /\ repair (ws1 ++ (u16 "```json" ++ [LF] ++ x ++ [LF] ++ u16 "```") ++ ws2)
     = extract_array x
  /\ repair (ws1 ++ (u16 "```" ++ [LF] ++ x ++ [LF] ++ u16 "```") ++ ws2)
     = extract_array x
  /\ (forall recs,
        parse (ws1 ++ x ++ ws2) = Parsed recs <-> parse x = Parsed recs).
Proof.
  intros H1 H2.
  assert (repair (ws1 ++ x ++ ws2) = repair x) as R.
  { unfold repair. by rewrite trim_spaces_around. }
  split; [exact R|]. split; [|split].
  - unfold repair. rewrite trim_spaces_around by done.
    change (u16 "```json") with (u16 "```" ++ u16 "json") at 1.
    rewrite <- (app_assoc (u16 "```")).
    rewrite (app_assoc (u16 "json") [LF]).
    rewrite trim_fence.
    rewrite <- (app_assoc (u16 "json") [LF]).
    rewrite (app_assoc (u16 "```") (u16 "json")).
    change (u16 "```" ++ u16 "json") with (u16 "```json").
    by rewrite strip_json_fence.
  - unfold repair. rewrite trim_spaces_around by done.
    rewrite (app_assoc [LF] x).
    rewrite <- (app_assoc [LF] x).
    rewrite trim_fence. by rewrite strip_plain_fence.
  - intros recs. unfold parse. rewrite R.
    destruct (JSON_parse (repair x)) as [v|]; [|split; discriminate].
    destruct v; try done; simpl; split; discriminate.
Qed.

Lemma repair_removes_wrapping_witness :
  let ws1 := [32; LF] in
  let ws2 := [LF] in
  let x := three_roles in
  repair (ws1 ++ x ++ ws2) = repair x
  /\ repair (ws1 ++ (u16 "```json" ++ [LF] ++ x ++ [LF] ++ u16 "```") ++ ws2)
     = extract_array x
  /\ repair (ws1 ++ (u16 "```" ++ [LF] ++ x ++ [LF] ++ u16 "```") ++ ws2)
     = extract_array x
  /\ (forall recs,
        parse (ws1 ++ x ++ ws2) = Parsed recs <-> parse x = Parsed recs).
Proof.
  apply (repair_removes_wrapping [32; LF] [LF] three_roles).
  - repeat constructor.
  - repeat constructor.
Defined.

(** ** The discovery form *)

Lemma in_range (n : nat) :
  (1 <=? n)%nat && (n <=? 5)%nat = negb (5 <? n)%nat && negb (n =? 0)%nat.
Proof. by destruct n as [|[|[|[|[|[|n]]]]]]. Qed.

Lemma valid_selections_checks (f : Form) :
  valid_selections f
  = negb ((5 <? length (selectedInterests f))%nat
          || (5 <? length (selectedSkills f))%nat
          || (5 <? length (selectedValues f))%nat)
    && negb ((length (selectedInterests f) =? 0)%nat
             || (length (selectedSkills f) =? 0)%nat
             || (length (selectedValues f) =? 0)%nat).
Proof.
  unfold valid_selections. cbn [forallb]. rewrite !in_range.
  destruct (5 <? length (selectedInterests f))%nat,
    (5 <? length (selectedSkills f))%nat,
    (5 <? length (selectedValues f))%nat,
    (length (selectedInterests f) =? 0)%nat,
    (length (selectedSkills f) =? 0)%nat,
    (length (selectedValues f) =? 0)%nat; reflexivity.
Qed.

(** X29: the form saves valid selections only.  [handleSubmit] sends an
    update of the profile exactly when every category has between one and
    five selections and a user is signed in; the update is then sent once,
    for that user, with the discovery data of the form, and the form goes
    on to the roles page exactly when the store accepted it.  A form with
    too many selections in a category is answered "Too many selections"
    even when another category is empty. *)
Theorem handleSubmit_saves_valid_forms_only (f : Form) (user : option User)
    (timestamp : jsstring) (update_error : bool) :
  let effects := handleSubmit f user timestamp update_error in
  (forall userId change,
     Update userId change ∈ effects ->
     valid_selections f = true
     /\ (exists u, user = Some u /\ userId = user_id u)
     /\ change = profileUpdate f timestamp)
  /\ (forall u,
        valid_selections f = true -> user = Some u ->
        filter (fun e => is_update e = true) effects
        = [Update (user_id u) (profileUpdate f timestamp)])
  /\ (Push (u16 "/roles") ∈ effects
      <-> valid_selections f = true /\ user <> None /\ update_error = false)
  /\ ((5 < length (selectedInterests f)
       \/ 5 < length (selectedSkills f)
       \/ 5 < length (selectedValues f))%nat ->
      effects = [Toast (u16 "Too many selections")]).
Proof.
  intros effects. subst effects. unfold handleSubmit.
  rewrite valid_selections_checks.
  destruct ((5 <? length (selectedInterests f))%nat
            || (5 <? length (selectedSkills f))%nat
            || (5 <? length (selectedValues f))%nat) eqn:Many.
  { simpl. split; [|split; [|split]].
    - by intros userId change ?%list_elem_of_singleton.
    - done.
    - split; [by intros ?%list_elem_of_singleton|by intros (? & _)].
    - done. }
  assert (~ (5 < length (selectedInterests f)
             \/ 5 < length (selectedSkills f)
             \/ 5 < length (selectedValues f))%nat) as NotMany.
  { apply orb_false_elim in Many as [[A B]%orb_false_elim C].
    apply Nat.ltb_ge in A, B, C. lia. }
  destruct ((length (selectedInterests f) =? 0)%nat
            || (length (selectedSkills f) =? 0)%nat
            || (length (selectedValues f) =? 0)%nat) eqn:Missing.
  { simpl. split; [|split; [|split]].
    - by intros userId change ?%list_elem_of_singleton.
    - done.
    - split; [by intros ?%list_elem_of_singleton|by intros (? & _)].
    - done. }
  simpl andb. destruct user as [u|].
  2:{ split; [|split; [|split]].
      - by intros userId change ?%list_elem_of_singleton.
      - done.
      - split; [by intros ?%list_elem_of_singleton|by intros (_ & ? & _)].
      - done. }
  split; [|split; [|split]].
  - intros userId change Hin.
    assert (Update userId change = Update (user_id u) (profileUpdate f timestamp))
      as [= -> ->].
    { destruct update_error; simpl in Hin;
        repeat (apply elem_of_cons in Hin as [Hin|Hin]; [try done|]);
        by apply elem_of_nil in Hin. }
    split; [done|]. split; [by exists u|done].
  - intros u' _ [= <-]. by destruct update_error.
  - destruct update_error; simpl; split.
    + intros Hin.
      repeat (apply elem_of_cons in Hin as [Hin|Hin]; [try done|]).
      by apply elem_of_nil in Hin.
    + by intros (_ & _ & ?).
    + done.
    + intros _. do 4 apply list_elem_of_further. apply list_elem_of_here.
  - done.
Qed.

Lemma formatted_category (d : JsValue) (name : string)
    (selected : list jsstring) (info : jsstring) :
  member d name = Some (category selected info) ->
  d <> JNull ->
  formatted d name = category selected info.
Proof.
  intros Hm Hd. unfold formatted.
  assert (opt_member (Some d) name = Some (category selected info)) as ->.
  { destruct d; try done. }
  unfold category. destruct info; reflexivity.
Qed.

Lemma make_prompt_saved (f : Form) (timestamp resumeText : jsstring) :
  make_prompt (discoveryData f timestamp) resumeText = form_prompt f resumeText.
Proof.
  unfold make_prompt, form_prompt.
  rewrite (formatted_category _ "skills" (selectedSkills f) (skillsInfo f));
    [|reflexivity|done].
  rewrite (formatted_category _ "interests" (selectedInterests f)
             (interestsInfo f)); [|reflexivity|done].
  rewrite (formatted_category _ "values" (selectedValues f) (valuesInfo f));
    [|reflexivity|done].
  reflexivity.
Qed.

Lemma gather_without_resume env userId request st profile :
  opt_truthy (req_resumeUrl request) = false ->
  env_profile_select_error env (trace st) userId = false ->
  profiles (db st) !! userId = Some profile ->
  opt_truthy (resume_link profile) = false ->
  gather env userId request st
  = (Ret (discovery_data profile, []),
     after_event (EvProfileSelect userId handler_columns) st).
Proof.
  intros Hr He Hp Hl. unfold gather.
  erewrite run_bind_ret; [|apply select_profile_run].
  rewrite He, Hp. rewrite Hr, Hl. simpl.
  erewrite run_bind_ret; [|reflexivity]. cbv beta iota. rewrite Hr.
  reflexivity.
Qed.

(** X30: what the form saves is what the model is asked about.  The
    discovery data that [handleSubmit] writes is never taken for missing
    by the handler, and the prompt built from it carries, for each of the
    three categories, exactly the selections and the additional text of the
    form.  So for a user whose profile row holds the update of the form
    and no resume, a request without a resume makes the handler call the
    completion endpoint once, with the selections of the form and an empty
    resume text, and answer 200. *)
Theorem saved_discovery_reaches_the_prompt (f : Form)
    (timestamp : jsstring) (env : Env) (request : Request) (st : State)
    (before : Profile) :
  let userId : jsstring := default [] (req_userId request) in
  opt_truthy (req_userId request) = true ->
  opt_truthy (req_resumeUrl request) = false ->
  env_profile_select_error env (trace st) userId = false ->
  profiles (db st) !! userId
    = Some (apply_update (profileUpdate f timestamp) before) ->
  opt_truthy (resumeUrl f) = false ->
  opt_truthy (resume_link before) = false ->
  truthy (discoveryData f timestamp) = true
  /\ (forall resumeText,
        make_prompt (discoveryData f timestamp) resumeText
        = form_prompt f resumeText)
  /\ exists resp st' evs,
       POST env request st = (Ret resp, st')
       /\ status resp = 200
       /\ new_events st st'
          = EvProfileSelect userId handler_columns
              :: EvCompletion (form_prompt f []) :: evs
       /\ count is_completion evs = O.
Proof.
  intros userId Hu Hr He Hp Hf Hl. subst userId.
  split; [done|]. split; [intros t; apply make_prompt_saved|].
  assert (opt_truthy
            (resume_link (apply_update (profileUpdate f timestamp) before))
          = false) as Hl'.
  { unfold apply_update, profileUpdate. simpl. by rewrite Hf. }
  pose proof (gather_without_resume env _ request st _ Hr He Hp Hl') as G.
  simpl discovery_data in G.
  rewrite (POST_after_gather _ _ _ _ _ _ Hu G).
  change (truthy (discoveryData f timestamp)) with true. simpl andb.
  cbv iota. rewrite make_prompt_saved.
  destruct (generate env (default [] (req_userId request)) (form_prompt f [])
              (after_event
                 (EvProfileSelect (default [] (req_userId request))
                    handler_columns) st)) as [o st2] eqn:E.
  destruct (generate_calls_endpoint _ _ _ _ _ _ E)
    as [[r ->] (evs2 & T2 & C2)].
  unfold try_catch. rewrite (run_bind_ret _ _ _ _ _ E).
  assert (exists resp, (match r with
                        | inl response => ret response
                        | inr recs => ret (Ok200 recs)
                        end) st2 = (Ret resp, st2) /\ status resp = 200)
    as (resp & -> & S).
  { destruct r as [response|recs].
    - rewrite (generate_early_return _ _ _ _ _ _ E). by eexists.
    - by eexists. }
  exists resp, st2, evs2. split; [done|]. split; [done|]. split; [|done].
  apply new_events_trace. rewrite T2. simpl. by rewrite <- app_assoc.
Qed.

Lemma saved_discovery_reaches_the_prompt_witness :
  let env := calm_env (CompletionContent (Some three_roles)) (OcrOk None) in
  let st := state_of db_after_submit in
  truthy (discoveryData sample_form sample_timestamp) = true
  /\ (forall resumeText,
        make_prompt (discoveryData sample_form sample_timestamp) resumeText
        = form_prompt sample_form resumeText)
  /\ exists resp st' evs,
       POST env request_alice st = (Ret resp, st')
       /\ status resp = 200
       /\ new_events st st'
          = EvProfileSelect alice handler_columns
              :: EvCompletion (form_prompt sample_form []) :: evs
       /\ count is_completion evs = O.
Proof.
  apply (saved_discovery_reaches_the_prompt sample_form sample_timestamp
           (calm_env (CompletionContent (Some three_roles)) (OcrOk None))
           request_alice (state_of db_after_submit) alice_profile);
    reflexivity.
Defined.

(** ** A null element among the records *)

(** X8: a null element stops the store loop midway.  When the completion
    text parses to a list with a null element, a run that reaches the
    completion endpoint attempts the inserts of the records before the
    first null, in order, and no other; the read of the null record
    throws, and the response carries the default recommendations, not the
    parsed records. *)
Theorem null_element_stops_the_store (env : Env) (request : Request)
    (st : State) (raw : jsstring) (good rest : list JsValue) :
  opt_truthy (req_userId request) = true ->
  (forall tr p, env_completion env tr p = CompletionContent (Some raw)) ->
  parse raw = Parsed (good ++ JNull :: rest) ->
  Forall (fun rec => rec <> JNull) good ->
  count is_completion (new_events st (POST env request st).2) <> O ->
  (POST env request st).1 = Ret (Ok200 defaultRecommendations)
  /\ count is_insert (new_events st (POST env request st).2) = length good
  /\ exists evs p,
       new_events st (POST env request st).2
       = evs ++ EvCompletion p
             :: insert_events (default [] (req_userId request)) good
       /\ forallb calm evs = true.
Proof.
  intros Hu Hc Hp Hn Hreach.
  destruct (gather env (default [] (req_userId request)) request st)
    as [[[d t]|e|] st1] eqn:G;
    destruct (quiet_gather _ _ _ _ _ _ G) as (NF & evs & T & C & D);
    [| |done].
  - rewrite (POST_after_gather _ _ _ _ _ _ Hu G) in *.
    destruct (negb (truthy d) && negb (str_truthy t)).
    + exfalso. apply Hreach. simpl.
      rewrite (new_events_trace _ _ _ T). by apply count_calm_completion.
    + destruct (generate_null_element env (default [] (req_userId request))
                  (make_prompt d t) st1 raw good rest (Hc _ _) Hp Hn)
        as (st2 & R & T2).
      unfold try_catch in *. rewrite (run_bind_ret _ _ _ _ _ R) in *.
      simpl.
      assert (E : new_events st st2
                  = evs ++ EvCompletion (make_prompt d t)
                        :: insert_events (default [] (req_userId request)) good).
      { apply new_events_trace. rewrite T2, T. by rewrite <- app_assoc. }
      split; [done|]. split; [|by eauto].
      rewrite E, count_app, (count_calm_insert _ C). simpl.
      by rewrite count_insert_events.
  - rewrite (POST_gather_throws _ _ _ _ _ Hu G) in *.
    exfalso. apply Hreach. simpl.
    rewrite (new_events_trace _ _ _ T). by apply count_calm_completion.
Qed.

Lemma null_element_stops_the_store_witness :
  let env := calm_env (CompletionContent (Some record_then_null)) (OcrOk None) in
  let st := state_of db_empty_selections in
  let good := [recommendation "A" "a" "p" "q"] in
  (POST env request_alice st).1 = Ret (Ok200 defaultRecommendations)
  /\ count is_insert (new_events st (POST env request_alice st).2)
     = length good
  /\ exists evs p,
       new_events st (POST env request_alice st).2
       = evs ++ EvCompletion p :: insert_events alice good
       /\ forallb calm evs = true.
Proof.
  apply (null_element_stops_the_store
           (calm_env (CompletionContent (Some record_then_null)) (OcrOk None))
           request_alice (state_of db_empty_selections) record_then_null
           [recommendation "A" "a" "p" "q"] []).
  - reflexivity.
  - intros tr p. reflexivity.
  - reflexivity.
  - repeat constructor. discriminate.
  - vm_compute. discriminate.
Defined.

(** ** The library function *)


(** X25: "not found" from the signing step uploads the file again.  The
    [catch] block does not tell the failures of the two storage calls
    apart: when the file is stored and the creation of the signed URL
    fails with "The resource was not found", the location is provisioned
    and [uploadFile] is called again, which uploads the same file once
    more, under the name made from the clock of that moment; the copy
    stored first is not removed. *)
Theorem signing_not_found_uploads_again (fuel : nat) (env : Env)
    (user : User) (notify : bool) (file : File) (st : State) (e : JsError) :
  let path := upload_path env user file st in
  let retry := after_failed_signing env user file st in
  env_upload_file env (trace st) path = StorageOk ->
  env_signed_url env (trace st ++ [EvUploadFile path file]) path
    = SignedError e ->
  is_not_found e = true ->
  (forall tr p, answer_throws (env_upload_placeholder env tr p) = false) ->
  (forall tr p, answer_throws (env_remove env tr p) = false) ->
  uploadFile (S (S fuel)) env (Some user) notify file st
  = uploadFile (S fuel) env (Some user) notify file retry
  /\ exists evs,
       trace (uploadFile (S (S fuel)) env (Some user) notify file st).2
       = trace retry
         ++ EvUploadFile (upload_path env user file retry) file :: evs.
Proof.
  intros path retry Ha Hs Hnf Hp Hr. subst path.
  assert (uploadFile (S (S fuel)) env (Some user) notify file st
          = uploadFile (S fuel) env (Some user) notify file retry) as Hrun.
  { rewrite uploadFile_start.
    erewrite run_try_throw.
    2:{ rewrite upload_once_signed by exact Ha. cbv zeta.
        unfold upload_path in *. cbn [trace]. rewrite Hs. reflexivity. }
    rewrite Hnf. rewrite try_rethrow.
    erewrite run_bind_ret by (by apply provision_runs).
    unfold after_event. cbn [trace db ui]. subst retry.
    unfold after_failed_signing, upload_path. cbn [trace].
    by rewrite <- !app_assoc. }
  split; [exact Hrun|]. rewrite Hrun.
  destruct (uploadFile (S fuel) env (Some user) notify file retry)
    as [o st'] eqn:E.
  destruct (uploadFile_first_call _ _ _ _ _ _ _ _ E) as (_ & evs & T).
  by exists evs.
Qed.

Lemma signing_not_found_uploads_again_witness :
  let env := env_signing_not_found in
  let st := state_of empty_db in
  let retry := after_failed_signing env alice_user small_pdf st in
  uploadFile 2 env (Some alice_user) true small_pdf st
  = uploadFile 1 env (Some alice_user) true small_pdf retry
  /\ exists evs,
       trace (uploadFile 2 env (Some alice_user) true small_pdf st).2
       = trace retry
         ++ EvUploadFile (upload_path env alice_user small_pdf retry) small_pdf
            :: evs.
Proof.
  apply (signing_not_found_uploads_again 0 env_signing_not_found alice_user
           true small_pdf (state_of empty_db) not_found_error);
    first [reflexivity | intros; reflexivity].
Defined.

(** ** What the store holds after a run *)

Lemma store_one_rows env userId rec st :
  rec <> JNull ->
  env_insert_error env (trace st) (payload_of userId rec) = false ->
  exists st' r,
    store_one env userId rec st = (Ret tt, st')
    /\ role_recommendations (db st') = role_recommendations (db st) ++ [r]
    /\ to_recommendation r = four_fields rec
    /\ row_user_id r = userId.
Proof.
  intros Hrec He. unfold store_one, read_member.
  assert (E : forall key,
             match rec with
             | JNull => throw (TypeError "Cannot read properties of null")
             | _ => ret (member rec key)
             end = (ret (member rec key) : M (option JsValue))).
  { intros key. by destruct rec. }
  rewrite !E. unfold insert_recommendation.
  unfold mbind, M_bind, bind, ret, get_trace, emit, get_db, set_db. simpl.
  fold (payload_of userId rec). rewrite He.
  eexists _, _. split; [reflexivity|]. simpl. by split.
Qed.

Lemma store_all_rows env userId recs st :
  Forall (fun rec => rec <> JNull) recs ->
  (forall tr p, env_insert_error env tr p = false) ->
  exists st' added,
    store_all env userId recs st = (Ret tt, st')
    /\ role_recommendations (db st') = role_recommendations (db st) ++ added
    /\ map to_recommendation added = map four_fields recs
    /\ Forall (fun r => row_user_id r = userId) added.
Proof.
  intros H He. revert st. induction H as [|rec recs Hrec _ IH]; intros st.
  - exists st, []. split; [done|]. by rewrite app_nil_r.
  - destruct (store_one_rows env userId rec st Hrec (He _ _))
      as (st1 & r & R1 & D1 & F1 & U1).
    destruct (IH st1) as (st2 & added & R2 & D2 & F2 & U2).
    exists st2, (r :: added). split.
    + simpl. by rewrite (run_bind_ret _ _ _ _ _ R1).
    + split; [rewrite D2, D1; by rewrite <- app_assoc|].
      split; [simpl; by rewrite F1, F2|]. by constructor.
Qed.

Lemma generate_stores env userId prompt st raw recs :
  env_completion env (trace st) prompt = CompletionContent (Some raw) ->
  parse raw = Parsed recs ->
  Forall (fun rec => rec <> JNull) recs ->
  (forall tr p, env_insert_error env tr p = false) ->
  exists st' added,
    generate env userId prompt st = (Ret (inr recs), st')
    /\ role_recommendations (db st') = role_recommendations (db st) ++ added
    /\ map to_recommendation added = map four_fields recs
    /\ Forall (fun r => row_user_id r = userId) added.
Proof.
  intros Hc Hp Hn He.
  destruct (store_all_rows env userId recs
              {| db := db st; ui := ui st;
                 trace := trace st ++ [EvCompletion prompt] |} Hn He)
    as (st' & added & R & D & F & U).
  exists st', added. split; [|done].
  unfold generate, try_catch at 1.
  unfold mbind at 1 2, M_bind at 1 2, bind at 1 2, get_trace, emit.
  simpl. rewrite Hc. unfold try_catch, parse_and_store, read_content.
  unfold mbind at 1 2, M_bind at 1 2, bind at 1 2, ret at 1. simpl.
  rewrite Hp.
  by rewrite (run_bind_ret _ _ _ _ _ R).
Qed.

(** X9: the store mirrors the response.  In a run that reaches the
    completion endpoint and parses its answer into records (none of them
    null) while the store accepts the inserts, the handler deletes and
    changes no row and adds, at the end of the table and in the order of
    the response, one row per record: the row has the userId of the
    request, and its four columns read back as the four fields of the
    record, NULL for a field the record lacks; so records made of exactly
    the four fields are read back from the store as they were returned. *)
Theorem stored_rows_mirror_the_records (env : Env) (request : Request)
    (st : State) (raw : jsstring) (recs : list JsValue) :
  opt_truthy (req_userId request) = true ->
  (forall tr p, env_completion env tr p = CompletionContent (Some raw)) ->
  parse raw = Parsed recs ->
  Forall (fun rec => rec <> JNull) recs ->
  (forall tr p, env_insert_error env tr p = false) ->
  count is_completion (new_events st (POST env request st).2) <> O ->
  (POST env request st).1 = Ret (Ok200 recs)
  /\ exists added,
       role_recommendations (db (POST env request st).2)
       = role_recommendations (db st) ++ added
       /\ map to_recommendation added = map four_fields recs
       /\ Forall (fun r => row_user_id r = default [] (req_userId request))
            added
       /\ (Forall (fun rec => four_fields rec = rec) recs ->
           map to_recommendation added = recs).
Proof.
  intros Hu Hc Hp Hn He Hreach.
  destruct (gather env (default [] (req_userId request)) request st)
    as [[[d t]|e|] st1] eqn:G;
    destruct (quiet_gather _ _ _ _ _ _ G) as (NF & evs & T & C & D);
    [| |done].
  - rewrite (POST_after_gather _ _ _ _ _ _ Hu G) in *.
    destruct (negb (truthy d) && negb (str_truthy t)).
    + exfalso. apply Hreach. simpl.
      rewrite (new_events_trace _ _ _ T). by apply count_calm_completion.
    + destruct (generate_stores env (default [] (req_userId request))
                  (make_prompt d t) st1 raw recs (Hc _ _) Hp Hn He)
        as (st2 & added & R & D2 & F & U).
      unfold try_catch in *. rewrite (run_bind_ret _ _ _ _ _ R) in *.
      simpl. split; [done|]. exists added.
      split; [by rewrite D2, D|]. split; [done|]. split; [done|].
      intros Hplain. rewrite F. clear -Hplain.
      induction Hplain as [|rec recs Hr _ IH]; simpl; [done|].
      by rewrite Hr, IH.
  - rewrite (POST_gather_throws _ _ _ _ _ Hu G) in *.
    exfalso. apply Hreach. simpl.
    rewrite (new_events_trace _ _ _ T). by apply count_calm_completion.
Qed.

Lemma stored_rows_mirror_the_records_witness :
  let env := calm_env (CompletionContent (Some three_roles)) (OcrOk None) in
  let st := state_of db_empty_selections in
  let recs := parsed_of three_roles in
  (POST env request_alice st).1 = Ret (Ok200 recs)
  /\ exists added,
       role_recommendations (db (POST env request_alice st).2)
       = role_recommendations (db st) ++ added
       /\ map to_recommendation added = map four_fields recs
       /\ Forall (fun r => row_user_id r = alice) added
       /\ (Forall (fun rec => four_fields rec = rec) recs ->
           map to_recommendation added = recs).
Proof.
  apply (stored_rows_mirror_the_records
           (calm_env (CompletionContent (Some three_roles)) (OcrOk None))
           request_alice (state_of db_empty_selections) three_roles
           (parsed_of three_roles)).
  - reflexivity.
  - intros tr p. reflexivity.
  - reflexivity.
  - repeat constructor; discriminate.
  - intros tr p. reflexivity.
  - vm_compute. discriminate.
Defined.

(** ** The order of the calls *)

Lemma extraction_step_calls env userId resumeUrl st o st' :
  (if opt_truthy resumeUrl then
     try_catch
       (text ← extractResumeText env (default [] resumeUrl)
                 (env_mistralApiKey env);
        (if str_truthy text then
           update_profile env userId (EvProfileUpdateText userId text)
             (set_resume_text text)
         else ret tt);;
        ret text)
       (fun error => ret [])
   else ret []) st = (o, st') ->
  exists evs, trace st' = trace st ++ evs /\ extraction_calls userId evs.
Proof.
  destruct (opt_truthy resumeUrl) eqn:Hr.
  2:{ intros [= <- <-]. exists []. split; [by rewrite app_nil_r|by left]. }
  destruct resumeUrl as [url|]; [|done]. simpl default.
  change (str_truthy url = true) in Hr.
  destruct (opt_truthy (env_mistralApiKey env)) eqn:Hk.
  2:{ unfold extractResumeText. rewrite Hr, Hk. simpl negb. cbv iota.
      unfold try_catch, mbind, M_bind, bind, throw, ret.
      intros [= <- <-]. exists []. split; [by rewrite app_nil_r|by left]. }
  destruct (extract_calls env url _ st Hr Hk) as (ox & E & NF).
  destruct ox as [text|e|]; [| |done].
  - rewrite (try_bind_ret _ _ _ _ _ _ E).
    destruct (str_truthy text).
    + erewrite run_try_ret.
      2:{ erewrite run_bind_ret; [reflexivity|apply update_profile_run]. }
      intros [= <- <-]. eexists. split; [simpl; by rewrite <- app_assoc|].
      right. eexists _, _. right. by eexists.
    + intros [= <- <-]. eexists. split; [reflexivity|].
      right. eexists _, _. by left.
  - rewrite (try_bind_throw _ _ _ _ _ _ E).
    intros [= <- <-]. eexists. split; [reflexivity|].
    right. eexists _, _. by left.
Qed.

Lemma gather_calls env userId request st o st' :
  gather env userId request st = (o, st') ->
  exists evs,
    trace st' = trace st ++ EvProfileSelect userId handler_columns :: evs
    /\ extraction_calls userId evs.
Proof.
  unfold gather.
  erewrite run_bind_ret; [|apply select_profile_run].
  set (st0 := after_event _ st).
  assert (forall d resumeUrl o st',
    ((resumeText ←
       (if opt_truthy resumeUrl then
          try_catch
            (text ← extractResumeText env (default [] resumeUrl)
                      (env_mistralApiKey env);
             (if str_truthy text then
                update_profile env userId (EvProfileUpdateText userId text)
                  (set_resume_text text)
              else ret tt);;
             ret text)
            (fun error => ret [])
        else ret []);
      ret (d, resumeText)) : M (JsValue * jsstring)) st0 = (o, st') ->
    exists evs,
      trace st' = trace st ++ EvProfileSelect userId handler_columns :: evs
      /\ extraction_calls userId evs) as Hrest.
  { intros d resumeUrl o1 st1. unfold mbind at 1, M_bind at 1, bind at 1.
    match goal with
    | |- context [match ?m st0 with _ => _ end] =>
        destruct (m st0) as [ox sx] eqn:E
    end.
    destruct (extraction_step_calls _ _ _ _ _ _ E) as (evs & T & C).
    intros H. assert (st1 = sx) as ->.
    { by destruct ox; injection H. }
    exists evs. split; [|done]. rewrite T. subst st0. simpl.
    by rewrite <- app_assoc. }
  destruct (if env_profile_select_error env (trace st) userId then None
            else profiles (db st) !! userId) as [p|].
  - destruct (negb (opt_truthy (req_resumeUrl request))
              && opt_truthy (resume_link p)).
    + intros [= <- <-]. exists []. split; [done|by left].
    + erewrite run_bind_ret; [|reflexivity]. apply Hrest.
  - erewrite run_bind_ret; [|reflexivity]. apply Hrest.
Qed.

Lemma store_all_calls env userId recs st o st' :
  store_all env userId recs st = (o, st') ->
  exists stored, trace st' = trace st ++ insert_events userId stored.
Proof.
  revert st. induction recs as [|rec recs IH]; intros st; simpl.
  { intros [= <- <-]. exists []. by rewrite app_nil_r. }
  assert (rec = JNull \/ rec <> JNull) as [->|Hrec]
    by (destruct rec; first [by left | by right]).
  - intros [= <- <-]. exists []. by rewrite app_nil_r.
  - destruct (store_one_run env userId rec st Hrec) as (st1 & R1 & T1).
    rewrite (run_bind_ret _ _ _ _ _ R1). intros H.
    destruct (IH _ H) as (stored & T).
    exists (rec :: stored). rewrite T, T1. by rewrite <- app_assoc.
Qed.

Lemma generate_calls env userId prompt st o st' :
  generate env userId prompt st = (o, st') ->
  exists stored,
    trace st' = trace st ++ EvCompletion prompt :: insert_events userId stored.
Proof.
  unfold generate, try_catch at 1.
  unfold mbind at 1 2, M_bind at 1 2, bind at 1 2, get_trace, emit. simpl.
  set (st0 := {| db := db st; ui := ui st;
                 trace := trace st ++ [EvCompletion prompt] |}).
  assert (forall stored sx,
            trace sx = trace st0 ++ insert_events userId stored ->
            trace sx
            = trace st ++ EvCompletion prompt :: insert_events userId stored)
    as Hshape.
  { intros stored sx ->. subst st0. simpl. by rewrite <- app_assoc. }
  destruct (env_completion env (trace st) prompt) as [e| | |[c|]].
  - intros [= <- <-]. exists []. by apply Hshape; rewrite app_nil_r.
  - intros [= <- <-]. exists []. by apply Hshape; rewrite app_nil_r.
  - intros [= <- <-]. exists []. by apply Hshape; rewrite app_nil_r.
  - unfold try_catch, parse_and_store, read_content.
    unfold mbind at 1 2, M_bind at 1 2, bind at 1 2, ret at 1. simpl.
    destruct (parse c) as [recs|raw].
    + destruct (store_all env userId recs st0) as [[[]|e|] s1] eqn:S;
        destruct (store_all_calls _ _ _ _ _ _ S) as (stored & T);
        pose proof (Hshape _ _ T) as T'.
      * erewrite run_bind_ret by exact S.
        intros [= <- <-]. by exists stored.
      * erewrite run_bind_throw by exact S.
        intros [= <- <-]. by exists stored.
      * exfalso. by destruct (store_all_trace _ _ _ _ _ _ S).
    + intros [= <- <-]. exists []. by apply Hshape; rewrite app_nil_r.
  - intros [= <- <-]. exists []. by apply Hshape; rewrite app_nil_r.
Qed.

(** X5: the calls of the handler, in order.  A run of the POST handler
    makes no call at all (the request has no userId), or makes first the
    read of [discovery_data, resume_link] of the user's profile; then at
    most one OCR call, followed or not by the update of [resume_text];
    then at most one completion call; and the inserts, all for the userId
    of the request, come after the completion call and nowhere else. *)
Theorem POST_call_sequence (env : Env) (request : Request) (st : State) :
  handler_calls (default [] (req_userId request))
    (new_events st (POST env request st).2)
  /\ (opt_truthy (req_userId request) = false ->
      new_events st (POST env request st).2 = []).
Proof.
  destruct (opt_truthy (req_userId request)) eqn:Hu.
  2:{ assert (POST env request st
              = (Ret (BadRequest (u16 "Missing userId in request")), st)) as ->.
      { unfold POST. by rewrite Hu. }
      simpl. unfold new_events. rewrite drop_all.
      split; [by left|done]. }
  split; [|done].
  destruct (gather env (default [] (req_userId request)) request st)
    as [[[d t]|e|] st1] eqn:G;
    destruct (gather_calls _ _ _ _ _ _ G) as (ocr & T & C).
  - rewrite (POST_after_gather _ _ _ _ _ _ Hu G).
    destruct (negb (truthy d) && negb (str_truthy t)).
    { simpl. rewrite (new_events_trace _ _ _ T).
      right. exists ocr, []. split; [by rewrite app_nil_r|].
      split; [done|by left]. }
    destruct (generate env (default [] (req_userId request))
                (make_prompt d t) st1) as [o st2] eqn:E.
    destruct (generate_calls_endpoint _ _ _ _ _ _ E) as [[r ->] _].
    destruct (generate_calls _ _ _ _ _ _ E) as (stored & T2).
    unfold try_catch. rewrite (run_bind_ret _ _ _ _ _ E).
    assert (forall A (x : A) s, (ret x : M A) s = (Ret x, s)) as Hret by done.
    destruct r as [response|recs]; rewrite Hret; simpl;
      (erewrite new_events_trace;
       [|rewrite T2, T; rewrite <- app_assoc; reflexivity]);
      right; exists ocr, (EvCompletion (make_prompt d t)
                            :: insert_events (default [] (req_userId request))
                                 stored);
      (split; [done|]); (split; [done|]); right; by eexists _, _.
  - rewrite (POST_gather_throws _ _ _ _ _ Hu G). simpl.
    rewrite (new_events_trace _ _ _ T).
    right. exists ocr, []. split; [by rewrite app_nil_r|].
    split; [done|by left].
  - by destruct (quiet_gather _ _ _ _ _ _ G) as (N & _).
Qed.
